(** * Contact-flow promotion pipeline: normalizer, renderer, validator and
      deployment handler, embedded from the JavaScript sources

    The embedding follows [scripts/normalize.js], [scripts/render.js],
    [scripts/validate.js] and the inline Lambda handler of
    [cdk/lib/connect-flow-stack.js].

    Conventions of the embedding.
    - A JavaScript string is a [string] (a sequence of code units); a JSON
      number is an integer [Z] (the integer-valued doubles of the safe range).
    - A JSON document, as produced by [JSON.parse] or [yaml.parse], is a
      [json] tree.  An object is the list of its own enumerable properties in
      enumeration order; property lookup reads own properties only, and
      integer-like keys are enumerated like any other key.
    - A thrown exception is the [Throw] case of [result]; the exception
      carries the message of the JavaScript [Error]. *)

From Stdlib Require Import ZArith Lia Ascii String List Bool DecimalString.
From stdpp Require Import base option list strings sorting gmap.

Local Open Scope Z_scope.
Local Open Scope list_scope.

(** ** Exceptions *)

Inductive exn :=
| Error (msg : string)
| TypeError (msg : string).

Inductive result (A : Type) :=
| Ok (a : A)
| Throw (e : exn).
Arguments Ok {A} a.
Arguments Throw {A} e.

#[global] Instance result_ret : MRet result := @Ok.
#[global] Instance result_bind : MBind result := λ A B f m,
  match m with
  | Ok a => f a
  | Throw e => Throw e
  end.

Definition is_ok {A} (m : result A) : bool :=
  match m with
  | Ok _ => true
  | Throw _ => false
  end.

(** ** JSON values *)

#[local] Unset Elimination Schemes.
Inductive json :=
| JNull
| JBool (b : bool)
| JNum (n : Z)
| JStr (s : string)
| JArr (items : list json)
| JObj (fields : list (string * json)).
#[local] Set Elimination Schemes.

#[global] Instance exn_eq_dec : EqDecision exn.
Proof. solve_decision. Defined.

(** ** Strings *)

Definition string_of_nat (n : nat) : string :=
  NilEmpty.string_of_uint (Nat.to_uint n).

(** [String(n)] for an integer-valued number. *)
Definition string_of_Z (n : Z) : string :=
  NilEmpty.string_of_int (Z.to_int n).

(** [s.startsWith(p)] *)
Definition startsWith (p s : string) : bool := String.prefix p s.

(** [s.includes(sub)] *)
Fixpoint includes (sub s : string) : bool :=
  String.prefix sub s ||
  match s with
  | EmptyString => false
  | String _ s' => includes sub s'
  end.

(** [l.join(sep)] on a list of strings. *)
Fixpoint join (sep : string) (l : list string) : string :=
  match l with
  | [] => ""
  | [x] => x
  | x :: l' => x +:+ sep +:+ join sep l'
  end.

(** [s.split(c)] for a one-character separator. *)
Fixpoint split_on (c : ascii) (s : string) : list string :=
  match s with
  | EmptyString => [""]
  | String a s' =>
      if Ascii.eqb a c then "" :: split_on c s'
      else match split_on c s' with
           | [] => [String a ""]
           | w :: ws => String a w :: ws
           end
  end.

(** ** JavaScript operations on JSON values *)

(** [typeof v === 'object'] (true of [null], arrays and objects). *)
Definition typeof_object (v : json) : bool :=
  match v with
  | JNull | JArr _ | JObj _ => true
  | _ => false
  end.

(** [v === null] *)
Definition is_null (v : json) : bool :=
  match v with
  | JNull => true
  | _ => false
  end.

(** [typeof v === 'string'] *)
Definition typeof_string (v : json) : bool :=
  match v with
  | JStr _ => true
  | _ => false
  end.

(** Truthiness of a value, as tested by [if (v)], [!v] and [v && ...]. *)
Definition truthy (v : json) : bool :=
  match v with
  | JNull => false
  | JBool b => b
  | JNum n => negb (n =? 0)
  | JStr s => negb (String.eqb s "")
  | JArr _ | JObj _ => true
  end.

(** Truthiness of a property read, where [None] is [undefined]. *)
Definition truthy_opt (v : option json) : bool :=
  match v with
  | Some v => truthy v
  | None => false
  end.

(** [String(v)], the conversion applied to the value a replacer function
    returns and to the values interpolated in template literals. *)
Fixpoint ToString (v : json) : string :=
  match v with
  | JNull => "null"
  | JBool true => "true"
  | JBool false => "false"
  | JNum n => string_of_Z n
  | JStr s => s
  | JArr l =>
      join "," (map (λ x, match x with JNull => "" | _ => ToString x end) l)
  | JObj _ => "[object Object]"
  end.

(** [String(v)] where [None] is [undefined]. *)
Definition ToString_opt (v : option json) : string :=
  match v with
  | Some v => ToString v
  | None => "undefined"
  end.

(** Own property lookup in an object. *)
Fixpoint obj_get (k : string) (fields : list (string * json)) : option json :=
  match fields with
  | [] => None
  | (k', v) :: fields' => if String.eqb k' k then Some v else obj_get k fields'
  end.

(** The array index a property key denotes, if it is a canonical one. *)
Definition index_of_key (k : string) : option nat :=
  match NilEmpty.uint_of_string k with
  | Some u =>
      let n := Nat.of_uint u in
      if String.eqb (string_of_nat n) k then Some n else None
  | None => None
  end.

Fixpoint chars (s : string) : list json :=
  match s with
  | EmptyString => []
  | String c s' => JStr (String c "") :: chars s'
  end.

(** [v[k]] for a value [v] that is neither [null] nor [undefined];
    [None] is [undefined]. *)
Definition get_property (v : json) (k : string) : option json :=
  match v with
  | JObj fields => obj_get k fields
  | JArr l =>
      if String.eqb k "length" then Some (JNum (Z.of_nat (length l)))
      else i ← index_of_key k; l !! i
  | JStr s =>
      if String.eqb k "length" then Some (JNum (Z.of_nat (String.length s)))
      else i ← index_of_key k; chars s !! i
  | _ => None
  end.

(** [v[k]] for any [v]: reading a property of [null] throws. *)
Definition get (v : json) (k : string) : result (option json) :=
  match v with
  | JNull =>
      Throw (TypeError ("Cannot read properties of null (reading '" +:+ k +:+ "')"))
  | _ => Ok (get_property v k)
  end.

(** [v[k]] where [v] itself may be [undefined]. *)
Definition get_opt (v : option json) (k : string) : result (option json) :=
  match v with
  | None =>
      Throw (TypeError ("Cannot read properties of undefined (reading '" +:+ k +:+ "')"))
  | Some v => get v k
  end.

(** [k in v] for an array or object [v]. *)
Definition has_property (v : json) (k : string) : bool :=
  bool_decide (is_Some (get_property v k)).

Fixpoint indexed (i : nat) (l : list json) : list (string * json) :=
  match l with
  | [] => []
  | x :: l' => (string_of_nat i, x) :: indexed (S i) l'
  end.

(** [Object.entries(v)]; [null] cannot be converted to an object. *)
Definition Object_entries (v : json) : result (list (string * json)) :=
  match v with
  | JObj fields => Ok fields
  | JArr l => Ok (indexed 0 l)
  | JStr s => Ok (indexed 0 (chars s))
  | JNull => Throw (TypeError "Cannot convert undefined or null to object")
  | _ => Ok []
  end.

(** [Object.entries(v)] where [v] may be [undefined]. *)
Definition Object_entries_opt (v : option json) : result (list (string * json)) :=
  match v with
  | Some v => Object_entries v
  | None => Throw (TypeError "Cannot convert undefined or null to object")
  end.

(** ** Regular expressions

    Every pattern of the sources is a sequence of quantified character
    classes and of the assertions [^] and [$] (no [m] flag).  [Chars cls lo
    hi] is the class [cls] repeated greedily between [lo] and [hi] times
    ([hi = None]: unbounded). *)

Inductive atom :=
| Chars (cls : ascii → bool) (lo : nat) (hi : option nat)
| AssertStart
| AssertEnd.

Definition regex := list atom.

Definition one (c : ascii) : atom := Chars (Ascii.eqb c) 1 (Some 1%nat).

(** A literal string inside a pattern. *)
Fixpoint lit (s : string) : regex :=
  match s with
  | EmptyString => []
  | String c s' => one c :: lit s'
  end.

Definition can_take (hi : option nat) : bool :=
  match hi with
  | Some O => false
  | _ => true
  end.

(** The backtracking matcher returns the piece matched by every atom and the
    rest of the input.  [bol] tells whether the position is the start of the
    input. *)
Fixpoint rep (cls : ascii → bool)
    (k : bool → string → option (list string * string))
    (lo : nat) (hi : option nat) (bol : bool) (s : string)
    : option (string * list string * string) :=
  let stop :=
    match lo with
    | O => match k bol s with
           | Some (ps, r) => Some ("", ps, r)
           | None => None
           end
    | S _ => None
    end in
  match s with
  | String c s' =>
      if cls c && can_take hi then
        match rep cls k (Nat.pred lo) (Nat.pred <$> hi) false s' with
        | Some (m, ps, r) => Some (String c m, ps, r)
        | None => stop
        end
      else stop
  | EmptyString => stop
  end.

Fixpoint match_atoms (r : regex) (bol : bool) (s : string)
    : option (list string * string) :=
  match r with
  | [] => Some ([], s)
  | Chars cls lo hi :: r' =>
      match rep cls (match_atoms r') lo hi bol s with
      | Some (m, ps, rest) => Some (m :: ps, rest)
      | None => None
      end
  | AssertStart :: r' =>
      if bol then
        match match_atoms r' bol s with
        | Some (ps, rest) => Some ("" :: ps, rest)
        | None => None
        end
      else None
  | AssertEnd :: r' =>
      match s with
      | EmptyString =>
          match match_atoms r' bol s with
          | Some (ps, rest) => Some ("" :: ps, rest)
          | None => None
          end
      | String _ _ => None
      end
  end.

(** The text of a match: the concatenation of its pieces. *)
Definition matched (ps : list string) : string := fold_right String.append "" ps.

Definition mlen (ps : list string) : nat := String.length (matched ps).

(** All the matches of a [g] pattern, left to right, as [String.prototype.match]
    and a loop of [RegExp.prototype.exec] find them.  [skip] counts the
    characters still covered by the previous match. *)
Fixpoint scan (r : regex) (bol : bool) (skip : nat) (s : string)
    : list (list string) :=
  match skip, s with
  | S k, String _ s' => scan r false k s'
  | S _, EmptyString => []
  | O, _ =>
      match match_atoms r bol s with
      | Some (ps, _) =>
          ps :: match s with
                | String _ s' => scan r false (Nat.pred (mlen ps)) s'
                | EmptyString => []
                end
      | None =>
          match s with
          | String _ s' => scan r false 0 s'
          | EmptyString => []
          end
      end
  end.

Definition all_matches (r : regex) (s : string) : list (list string) :=
  scan r true 0 s.

(** [r.test(s)] for a pattern without the [g] flag. *)
Fixpoint search (r : regex) (bol : bool) (s : string) : bool :=
  match match_atoms r bol s with
  | Some _ => true
  | None =>
      match s with
      | String _ s' => search r false s'
      | EmptyString => false
      end
  end.

Definition regex_test (r : regex) (s : string) : bool := search r true s.

(** [s.replace(r, f)] for a [g] pattern and a replacer function that may
    throw.  The replacer runs on the matches from left to right. *)
Fixpoint replace_from (r : regex) (f : list string → result string)
    (bol : bool) (skip : nat) (s : string) : result string :=
  match skip, s with
  | S k, String _ s' => replace_from r f false k s'
  | S _, EmptyString => Ok ""
  | O, _ =>
      match match_atoms r bol s with
      | Some (ps, _) =>
          v ← f ps;
          match s with
          | String c s' =>
              out ← replace_from r f false (Nat.pred (mlen ps)) s';
              Ok (v +:+ (if Nat.eqb (mlen ps) 0 then String c out else out))
          | EmptyString => Ok v
          end
      | None =>
          match s with
          | String c s' =>
              out ← replace_from r f false 0 s'; Ok (String c out)
          | EmptyString => Ok ""
          end
      end
  end.

Definition replace (r : regex) (f : list string → result string) (s : string)
    : result string :=
  replace_from r f true 0 s.

(** ** [scripts/render.js]: class [TemplateRenderer] *)

Module TemplateRenderer.

(** [this.tokenPattern = /\$\{([^}]+)\}/g] *)
Definition tokenPattern : regex :=
  [ one "$"; one "{"; Chars (λ c, negb (Ascii.eqb c "}")) 1 None; one "}" ].

(** The capture group of [tokenPattern]. *)
Definition tokenPath (ps : list string) : string := nth 2 ps "".

(** [resolveToken(tokenPath)]: the loop over [pathParts]. *)
Fixpoint walk (value : option json) (pathParts : list string) : option json :=
  match pathParts with
  | [] => value
  | part :: parts =>
      match value with
      | Some v =>
          if truthy v && typeof_object v && has_property v part
          then walk (get_property v part) parts
          else None
      | None => None
      end
  end.

Definition resolveToken (envConfig : json) (tokenPath : string)
    : result (option json) :=
  let pathParts := split_on "." tokenPath in
  value ← get envConfig "tokens";
  Ok (walk value pathParts).

(** The replacer function of [render]. *)
Definition replacer (envConfig : json) (ps : list string) : result string :=
  value ← resolveToken envConfig (tokenPath ps);
  match value with
  | None | Some JNull => Throw (Error ("Token not found: " +:+ tokenPath ps))
  | Some v => Ok (ToString v)
  end.

Definition render (envConfig : json) (template : string) : result string :=
  rendered ← replace tokenPattern (replacer envConfig) template;
  match all_matches tokenPattern rendered with
  | [] => Ok rendered
  | remainingTokens =>
      Throw (Error ("Unresolved tokens found: " +:+
                    join ", " (map matched remainingTokens)))
  end.

(** The placeholder syntax, read off [tokenPattern]: [token_body] is the text
    up to the first closing brace and the text after it, [token_at] a
    placeholder at the start of the input. *)
Definition notclose (c : ascii) : bool := negb (Ascii.eqb c "}").

Fixpoint token_body (s : string) : option (string * string) :=
  match s with
  | EmptyString => None
  | String c s' =>
      if notclose c then
        match token_body s' with
        | Some (body, rest) => Some (String c body, rest)
        | None => None
        end
      else Some ("", s')
  end.

Definition token_at (s : string) : option (string * string) :=
  match s with
  | String "$" (String "{" s') =>
      match token_body s' with
      | Some (String c body, rest) => Some (String c body, rest)
      | _ => None
      end
  | _ => None
  end.

(** The paths of the placeholders of a template, left to right. *)
Definition token_paths (template : string) : list string :=
  map tokenPath (all_matches tokenPattern template).

(** A path that does not resolve: [resolveToken] yields [undefined] or
    [null]. *)
Definition unresolved (envConfig : json) (path : string) : bool :=
  match resolveToken envConfig path with
  | Ok None | Ok (Some JNull) => true
  | _ => false
  end.

End TemplateRenderer.

(** ** [JSON.stringify] *)

Definition LF : string := String (ascii_of_nat 10) "".
Definition dquote : string := String (ascii_of_nat 34) "".
Definition backslash : string := String (ascii_of_nat 92) "".

Definition hex_digit (n : nat) : string :=
  String (nth n (list_ascii_of_string "0123456789abcdef") "0"%char) "".

(** The escape of one character inside a JSON string literal. *)
Definition escape_char (c : ascii) : string :=
  let n := nat_of_ascii c in
  if Nat.eqb n 34 then backslash +:+ dquote
  else if Nat.eqb n 92 then backslash +:+ backslash
  else if Nat.eqb n 8 then backslash +:+ "b"
  else if Nat.eqb n 9 then backslash +:+ "t"
  else if Nat.eqb n 10 then backslash +:+ "n"
  else if Nat.eqb n 12 then backslash +:+ "f"
  else if Nat.eqb n 13 then backslash +:+ "r"
  else if Nat.ltb n 32 then
    backslash +:+ "u00" +:+ hex_digit (n / 16) +:+ hex_digit (n mod 16)
  else String c "".

Fixpoint escape (s : string) : string :=
  match s with
  | EmptyString => ""
  | String c s' => escape_char c +:+ escape s'
  end.

Definition quote (s : string) : string := dquote +:+ escape s +:+ dquote.

(** [JSON.stringify(v)] without indentation. *)
Fixpoint JSON_stringify (v : json) : string :=
  match v with
  | JNull => "null"
  | JBool true => "true"
  | JBool false => "false"
  | JNum n => string_of_Z n
  | JStr s => quote s
  | JArr l => "[" +:+ join "," (map JSON_stringify l) +:+ "]"
  | JObj fields =>
      "{" +:+ join "," (map (λ kv, quote kv.1 +:+ ":" +:+ JSON_stringify kv.2) fields)
          +:+ "}"
  end.

(** ** Character classes *)

Definition in_range (lo hi : ascii) (c : ascii) : bool :=
  (nat_of_ascii lo <=? nat_of_ascii c)%nat && (nat_of_ascii c <=? nat_of_ascii hi)%nat.

(** [\d] *)
Definition digit (c : ascii) : bool := in_range "0" "9" c.

(** [[a-zA-Z0-9-]] *)
Definition alnum_dash (c : ascii) : bool :=
  in_range "a" "z" c || in_range "A" "Z" c || in_range "0" "9" c || Ascii.eqb c "-".

(** [[a-zA-Z0-9-\/]] *)
Definition alnum_dash_slash (c : ascii) : bool :=
  alnum_dash c || Ascii.eqb c "/".

(** ** [scripts/render.js]: validation of a rendered flow *)

Module RenderedFlow.
Import TemplateRenderer.

(** [/^arn:aws:[a-zA-Z0-9-]+:[a-zA-Z0-9-]*:\d{12}:[a-zA-Z0-9-\/]+$/] *)
Definition arnPattern : regex :=
  AssertStart :: lit "arn:aws:" ++
  [ Chars alnum_dash 1 None; one ":";
    Chars alnum_dash 0 None; one ":";
    Chars digit 12 (Some 12%nat); one ":";
    Chars alnum_dash_slash 1 None; AssertEnd ].

(** [/^\+[1-9]\d{1,14}$/] *)
Definition e164Pattern : regex :=
  [ AssertStart; one "+"; Chars (in_range "1" "9") 1 (Some 1%nat);
    Chars digit 1 (Some 14%nat); AssertEnd ].

(** [path ? `${path}.${key}` : key] *)
Definition subpath (path key : string) : string :=
  if String.eqb path "" then key else path +:+ "." +:+ key.

(** [validateArns(obj, errors, path)]; the result is the list [errors] after
    the call. *)
Fixpoint validateArns (obj : json) (errors : list string) (path : string)
    : list string :=
  match obj with
  | JStr s =>
      if includes ":arn:aws:" s then
        if negb (regex_test arnPattern s)
        then errors ++ ["Invalid ARN format at " +:+ path +:+ ": " +:+ s]
        else errors
      else errors
  | JArr l =>
      (fix entries (i : nat) (l : list json) (errors : list string) :=
         match l with
         | [] => errors
         | value :: l' =>
             entries (S i) l' (validateArns value errors (subpath path (string_of_nat i)))
         end) O l errors
  | JObj fields =>
      (fix entries (fields : list (string * json)) (errors : list string) :=
         match fields with
         | [] => errors
         | (key, value) :: fields' =>
             entries fields' (validateArns value errors (subpath path key))
         end) fields errors
  | _ => errors
  end.

(** [validatePhoneNumbers(obj, errors, path)] *)
Fixpoint validatePhoneNumbers (obj : json) (errors : list string) (path : string)
    : list string :=
  match obj with
  | JStr s =>
      if startsWith "+" s then
        if negb (regex_test e164Pattern s)
        then errors ++ ["Invalid E.164 phone number at " +:+ path +:+ ": " +:+ s]
        else errors
      else errors
  | JArr l =>
      (fix entries (i : nat) (l : list json) (errors : list string) :=
         match l with
         | [] => errors
         | value :: l' =>
             entries (S i) l'
               (validatePhoneNumbers value errors (subpath path (string_of_nat i)))
         end) O l errors
  | JObj fields =>
      (fix entries (fields : list (string * json)) (errors : list string) :=
         match fields with
         | [] => errors
         | (key, value) :: fields' =>
             entries fields' (validatePhoneNumbers value errors (subpath path key))
         end) fields errors
  | _ => errors
  end.

Definition requiredFields : list string := ["name"; "type"; "content"].

(** The loop over [requiredFields]. *)
Fixpoint checkRequired (flowJson : json) (fields : list string)
    (errors : list string) : result (list string) :=
  match fields with
  | [] => Ok errors
  | field :: fields' =>
      value ← get flowJson field;
      checkRequired flowJson fields'
        (if negb (truthy_opt value)
         then errors ++ ["Missing required field: " +:+ field]
         else errors)
  end.

(** [validateRenderedFlow(flowJson, flowName)] returns normally or throws the
    aggregated error. *)
Definition validateRenderedFlow (flowJson : json) (flowName : string)
    : result unit :=
  errors ← checkRequired flowJson requiredFields [];
  let jsonStr := JSON_stringify flowJson in
  let errors :=
    match all_matches tokenPattern jsonStr with
    | [] => errors
    | unresolvedTokens =>
        errors ++ ["Unresolved tokens: " +:+ join ", " (map matched unresolvedTokens)]
    end in
  let errors := validateArns flowJson errors "" in
  let errors := validatePhoneNumbers flowJson errors "" in
  if (0 <? length errors)%nat then
    Throw (Error ("Validation failed for " +:+ flowName +:+ ":" +:+ LF +:+ "- " +:+
                  join (LF +:+ "- ") errors))
  else Ok ().

End RenderedFlow.

(** ** Objects as mutable records *)

(** [delete obj[k]] *)
Fixpoint obj_delete (k : string) (fields : list (string * json))
    : list (string * json) :=
  match fields with
  | [] => []
  | (k', v) :: fields' =>
      if String.eqb k' k then obj_delete k fields'
      else (k', v) :: obj_delete k fields'
  end.

(** [obj[k] = v]: an existing property keeps its place, a new one goes last. *)
Fixpoint obj_set (k : string) (v : json) (fields : list (string * json))
    : list (string * json) :=
  match fields with
  | [] => [(k, v)]
  | (k', v') :: fields' =>
      if String.eqb k' k then (k, v) :: fields'
      else (k', v') :: obj_set k v fields'
  end.

Definition obj_keys (fields : list (string * json)) : list string :=
  map fst fields.

Definition map_values (f : json → json) (fields : list (string * json))
    : list (string * json) :=
  map (λ kv, (kv.1, f kv.2)) fields.

(** [keys.sort()]: the default order of [Array.prototype.sort] on strings. *)
Definition sort_keys (keys : list string) : list string :=
  merge_sort String.le keys.

(** [Math.round(n / d)] for integers [n] and [d > 0]: the nearest integer,
    a half going up. *)
Definition Math_round_div (n d : Z) : Z := (2 * n + d) / (2 * d).

(** ** [scripts/normalize.js]: class [FlowNormalizer] *)

Module FlowNormalizer.

Definition fieldsToRemove : list string :=
  ["lastModifiedTime"; "createdTime"; "lastModifiedBy"; "createdBy"; "version"].

(** [fieldsToRemove.forEach(field => { delete obj[field]; })] *)
Definition delete_fields (fields : list (string * json)) : list (string * json) :=
  fold_left (λ fs field, obj_delete field fs) fieldsToRemove fields.

(** [removeFields(obj)].  The source deletes the fields and then visits the
    values that are left; here the values are visited first, which gives the
    same object (lemma [removeFields_obj]). *)
Fixpoint removeFields (obj : json) : json :=
  match obj with
  | JObj fields => JObj (delete_fields (map_values removeFields fields))
  | JArr l => JArr (map removeFields l)
  | _ => obj
  end.

Definition removeMetadataNoise (flowJson : json) : json := removeFields flowJson.

(** [normalizeCoord(coord)] *)
Definition normalizeCoord (coord : json) : json :=
  match coord with
  | JNum n => JNum (Math_round_div n 10 * 10)
  | _ => coord
  end.

(** [if (k in obj) obj[k] = normalizeCoord(obj[k])] *)
Definition quantize (k : string) (fields : list (string * json))
    : list (string * json) :=
  match obj_get k fields with
  | Some coord => obj_set k (normalizeCoord coord) fields
  | None => fields
  end.

(** [processCoordinates(obj)].  The source quantizes [x] and [y] and then
    visits the values; here the values are visited first, which gives the
    same object (lemma [processCoordinates_obj]). *)
Fixpoint processCoordinates (obj : json) : json :=
  match obj with
  | JObj fields =>
      JObj (quantize "y" (quantize "x" (map_values processCoordinates fields)))
  | JArr l => JArr (map processCoordinates l)
  | _ => obj
  end.

Definition normalizeCoordinates (flowJson : json) : json :=
  processCoordinates flowJson.

(** The object [sorted] after
    [keys.forEach(key => { sorted[key] = values[key]; })]. *)
Definition insert_sorted (values : list (string * json)) (keys : list string)
    : list (string * json) :=
  fold_left (λ sorted key,
               match obj_get key values with
               | Some v => obj_set key v sorted
               | None => sorted
               end) keys [].

(** [sortObjectKeys(obj)].  The values are sorted before they are looked up
    by key. *)
Fixpoint sortObjectKeys (obj : json) : json :=
  match obj with
  | JArr l => JArr (map sortObjectKeys l)
  | JObj fields =>
      let values := map_values sortObjectKeys fields in
      JObj (insert_sorted values (sort_keys (obj_keys fields)))
  | _ => obj
  end.

(** [sortObjects(flowJson)]: the keys of the root are taken in sorted order;
    each is deleted and assigned again with its sorted value.  On an array
    this visits every index.  [Object.keys(null)] throws; the class body is
    strict code, where deleting an index of a primitive string throws. *)
Definition sortObjects (flowJson : json) : result json :=
  match flowJson with
  | JObj fields =>
      Ok (JObj (fold_left
                  (λ fs key,
                     match obj_get key fs with
                     | Some v => obj_set key (sortObjectKeys v) (obj_delete key fs)
                     | None => fs
                     end)
                  (sort_keys (obj_keys fields)) fields))
  | JArr l => Ok (JArr (map sortObjectKeys l))
  | JNull => Throw (TypeError "Cannot convert undefined or null to object")
  | JStr (String _ _) =>
      Throw (TypeError "Cannot delete property '0' of [object String]")
  | _ => Ok flowJson
  end.

(** [Array.isArray(v) && v.length === 0] *)
Definition is_empty_array (v : json) : bool :=
  match v with
  | JArr [] => true
  | _ => false
  end.

(** [cleanObject(obj)] *)
Fixpoint cleanObject (obj : json) : json :=
  match obj with
  | JArr l => JArr (filter (λ item, negb (is_null item)) (map cleanObject l))
  | JObj fields =>
      JObj (fold_left
              (λ cleaned kv,
                 let cleanedValue := cleanObject kv.2 in
                 if negb (is_null cleanedValue) && negb (is_empty_array cleanedValue)
                 then obj_set kv.1 cleanedValue cleaned
                 else cleaned)
              fields [])
  | _ => obj
  end.

(** [removeEmptyValues(flowJson)]: every property of the root is assigned its
    cleaned value; none is removed at this level. *)
Definition removeEmptyValues (flowJson : json) : result json :=
  match flowJson with
  | JObj fields =>
      Ok (JObj (fold_left
                  (λ fs key,
                     match obj_get key fs with
                     | Some v => obj_set key (cleanObject v) fs
                     | None => fs
                     end)
                  (obj_keys fields) fields))
  | JArr l => Ok (JArr (map cleanObject l))
  | JNull => Throw (TypeError "Cannot convert undefined or null to object")
  | JStr (String _ _) =>
      Throw (TypeError "Cannot assign to read only property '0' of string")
  | _ => Ok flowJson
  end.

(** [normalize(flowJson)].  [JSON.parse(JSON.stringify(flowJson))] is a tree
    equal to [flowJson]. *)
Definition normalize (flowJson : json) : result json :=
  let normalized := flowJson in
  let normalized := removeMetadataNoise normalized in
  let normalized := normalizeCoordinates normalized in
  normalized ← sortObjects normalized;
  removeEmptyValues normalized.

End FlowNormalizer.

(** ** Well-formed trees and normal forms *)

Module NormalForm.
Import FlowNormalizer.

(** A tree is well formed when the keys of each of its objects are pairwise
    distinct, as they are in every JavaScript object. *)
Fixpoint wf (v : json) : bool :=
  match v with
  | JArr l => forallb wf l
  | JObj fields =>
      bool_decide (NoDup (obj_keys fields)) && forallb (λ kv, wf kv.2) fields
  | _ => true
  end.

Definition is_coord (k : string) : bool := String.eqb k "x" || String.eqb k "y".


(** A coordinate field that quantization leaves as it is. *)
Definition quantized (kv : string * json) : Prop :=
  is_coord kv.1 = true → normalizeCoord kv.2 = kv.2.

(** A value that pruning keeps inside an object. *)
Definition keep (v : json) : bool := negb (is_null v) && negb (is_empty_array v).

Definition kept (v : json) : Prop := keep v = true.

(** The four steps on the fields of one object, as list functions. *)
Definition del (fields : list (string * json)) : list (string * json) :=
  filter (λ kv, kv.1 ∉ fieldsToRemove) fields.

Definition qz (fields : list (string * json)) : list (string * json) :=
  map (λ kv, if is_coord kv.1 then (kv.1, normalizeCoord kv.2) else kv) fields.

Definition srt (fields : list (string * json)) : list (string * json) :=
  map (λ k, (k, default JNull (obj_get k fields))) (sort_keys (obj_keys fields)).

Definition flt (fields : list (string * json)) : list (string * json) :=
  filter (λ kv, kept kv.2) fields.

(** Normalization below the root, as one bottom-up function. *)
Fixpoint inner (v : json) : json :=
  match v with
  | JObj fields => JObj (flt (srt (qz (del (map_values inner fields)))))
  | JArr l => JArr (filter (λ item, is_null item = false) (map inner l))
  | _ => v
  end.

(** Normalization of an object or an array at the root. *)
Definition outer (v : json) : json :=
  match v with
  | JObj fields => JObj (srt (qz (del (map_values inner fields))))
  | JArr l => JArr (map inner l)
  | _ => v
  end.

(** The shape of a value below the root of a normalized document. *)
#[local] Unset Elimination Schemes.
Inductive normal : json → Prop :=
| normal_null : normal JNull
| normal_bool b : normal (JBool b)
| normal_num n : normal (JNum n)
| normal_str s : normal (JStr s)
| normal_arr l :
    Forall normal l → Forall (λ v, v ≠ JNull) l → normal (JArr l)
| normal_obj fields :
    Sorted String.le (obj_keys fields) →
    NoDup (obj_keys fields) →
    Forall (λ kv, kv.1 ∉ fieldsToRemove) fields →
    Forall quantized fields →
    Forall (λ kv, kept kv.2) fields →
    Forall (λ kv, normal kv.2) fields →
    normal (JObj fields).
#[local] Set Elimination Schemes.

(** The shape of a normalized document: at the root, [null] values and
    empty arrays stay. *)
Inductive normal_root : json → Prop :=
| normal_root_bool b : normal_root (JBool b)
| normal_root_num n : normal_root (JNum n)
| normal_root_str : normal_root (JStr "")
| normal_root_arr l : Forall normal l → normal_root (JArr l)
| normal_root_obj fields :
    Sorted String.le (obj_keys fields) →
    NoDup (obj_keys fields) →
    Forall (λ kv, kv.1 ∉ fieldsToRemove) fields →
    Forall quantized fields →
    Forall (λ kv, normal kv.2) fields →
    normal_root (JObj fields).

(** Paths into a tree. *)
Inductive step :=
| Key (k : string)
| Idx (i : nat).

Fixpoint lookup (p : list step) (v : json) : option json :=
  match p with
  | [] => Some v
  | Key k :: p' =>
      match v with
      | JObj fields => v' ← obj_get k fields; lookup p' v'
      | _ => None
      end
  | Idx i :: p' =>
      match v with
      | JArr l => v' ← l !! i; lookup p' v'
      | _ => None
      end
  end.



End NormalForm.

(** ** [normalize] as a method call on a store

    A method receives a reference.  The store maps a reference to the
    document it denotes; what a method does to an object in place is an
    update of the store at its reference.  [JSON.parse(JSON.stringify(v))]
    builds a document at a reference that was not in use. *)

Module NormalizeCall.
Import FlowNormalizer.

Abbreviation ref := nat.

Abbreviation store := (gmap nat json).

(** A computation on the store that returns or throws. *)
Definition S (A : Type) : Type := store → store * result A.

#[global] Instance S_ret : MRet S := λ A a σ, (σ, Ok a).
#[global] Instance S_bind : MBind S := λ A B f m σ,
  match m σ with
  | (σ', Ok a) => f a σ'
  | (σ', Throw e) => (σ', Throw e)
  end.

(** The document a reference denotes. *)
Definition read (r : ref) : S json := λ σ,
  match σ !! r with
  | Some v => (σ, Ok v)
  | None => (σ, Throw (TypeError "dangling reference"))
  end.

(** A document at a reference that is not in use. *)
Definition alloc (v : json) : S ref := λ σ,
  let r := fresh (dom σ) in (<[r := v]> σ, Ok r).

Definition write (r : ref) (v : json) : S unit := λ σ, (<[r := v]> σ, Ok ()).

Definition lift {A} (m : result A) : S A := λ σ, (σ, m).

(** [JSON.parse(JSON.stringify(flowJson))] *)
Definition deep_copy (flowJson : ref) : S ref :=
  v ← read flowJson;
  alloc v.

(** A method that updates the object at [r] in place. *)
Definition in_place (f : json → result json) (r : ref) : S unit :=
  v ← read r;
  v' ← lift (f v);
  write r v'.

(** [normalize(flowJson)] *)
Definition normalize (flowJson : ref) : S ref :=
  normalized ← deep_copy flowJson;
  _ ← in_place (λ v, Ok (removeMetadataNoise v)) normalized;
  _ ← in_place (λ v, Ok (normalizeCoordinates v)) normalized;
  _ ← in_place sortObjects normalized;
  _ ← in_place removeEmptyValues normalized;
  mret normalized.

End NormalizeCall.

(** ** [scripts/validate.js]: class [FlowValidator] *)

(** The message of a caught exception. *)
Definition exn_message (e : exn) : string :=
  match e with
  | Error msg | TypeError msg => msg
  end.

(** [s.indexOf(sub)]; [None] is [-1]. *)
Fixpoint indexOf (sub s : string) : option nat :=
  if String.prefix sub s then Some O
  else match s with
       | EmptyString => None
       | String _ s' => S <$> indexOf sub s'
       end.

(** [s.match(r)] for a pattern without the [g] flag: the pieces of the
    leftmost match. *)
Fixpoint first_match (r : regex) (bol : bool) (s : string) : option (list string) :=
  match match_atoms r bol s with
  | Some (ps, _) => Some ps
  | None =>
      match s with
      | String _ s' => first_match r false s'
      | EmptyString => None
      end
  end.

(** [new Set()] with [add], and [Array.from]: the distinct elements in the
    order of their first insertion. *)
Definition set_add (x : string) (l : list string) : list string :=
  if bool_decide (x ∈ l) then l else l ++ [x].

(** What the validator reads from outside: the file system through
    [fs-extra], [path.join], the parsers [yaml.parse] and [JSON.parse], and the
    verdict of the Joi schema [envSchema] of [validateEnvironmentConfig]
    ([None]: no error; otherwise the message of the error). *)
Record dirent := { d_name : string; d_isDirectory : bool }.

Record node := {
  path_join : string → string → string;
  pathExists : string → bool;
  readFile : string → result string;
  readdir : string → result (list dirent);
  yaml_parse : string → result json;
  JSON_parse : string → result json;
  envSchema_validate : json → option string;
}.

Module FlowValidator.

(** The fields of an instance, set to [[]] by the constructor. *)
Record validator := { errors : list string; warnings : list string }.

Definition constructor : validator := {| errors := []; warnings := [] |}.

(** A method runs on the instance and returns normally or throws; the
    entries pushed before a throw stay in the lists. *)
Definition M (A : Type) : Type := validator → validator * result A.

#[global] Instance M_ret : MRet M := λ A a st, (st, Ok a).
#[global] Instance M_bind : MBind M := λ A B f m st,
  match m st with
  | (st', Ok a) => f a st'
  | (st', Throw e) => (st', Throw e)
  end.

(** A computation that does not touch the instance. *)
Definition lift {A} (r : result A) : M A := λ st, (st, r).

(** [try { body } catch (error) { handler(error) }] *)
Definition try_catch {A} (body : M A) (handler : exn → M A) : M A := λ st,
  match body st with
  | (st', Throw e) => handler e st'
  | r => r
  end.

(** [l.forEach(f)] and [for (const x of l) { ... }] *)
Fixpoint forEach {A} (f : A → M unit) (l : list A) : M unit :=
  match l with
  | [] => mret ()
  | x :: l' => _ ← f x; forEach f l'
  end.

(** [addError(message)] *)
Definition addError (message : string) : M unit := λ st,
  ({| errors := errors st ++ [message]; warnings := warnings st |}, Ok ()).

(** [addWarning(message)] *)
Definition addWarning (message : string) : M unit := λ st,
  ({| errors := errors st; warnings := warnings st ++ [message] |}, Ok ()).

(** [reportResults()] only writes to the console. *)
Definition reportResults : M unit := mret ().

Definition envFiles : list string := ["dev.yaml"; "test.yaml"; "prod.yaml"].

(** The pattern [arnRegex] of [validateConsistentRegion]: the text arn:aws:,
    one or more characters that are not a colon, a colon and, captured, any
    number of characters that are not a colon. *)
Definition notcolon (c : ascii) : bool := negb (Ascii.eqb c ":").

Definition arnRegex : regex :=
  lit "arn:aws:" ++ [ Chars notcolon 1 None; one ":"; Chars notcolon 0 None ].

(** The capture group of [arnRegex]. *)
Definition arnRegex_region (ps : list string) : string := nth 10 ps "".

(** [match[1] !== region] *)
Definition differs (s : string) (v : option json) : bool :=
  match v with
  | Some (JStr r) => negb (String.eqb s r)
  | _ => true
  end.

(** [validateConsistentRegion(config, envPath)] *)
Definition validateConsistentRegion (config : json) (envPath : string) : M unit :=
  connect ← lift (get config "connect");
  region ← lift (get_opt connect "region");
  let checkArn (arn context : string) : M unit :=
    match first_match arnRegex true arn with
    | Some ps =>
        let m1 := arnRegex_region ps in
        if negb (String.eqb m1 "") && differs m1 region then
          addWarning ("ARN region mismatch in " +:+ envPath +:+ " (" +:+ context +:+
                      "): expected " +:+ ToString_opt region +:+ ", got " +:+ m1)
        else mret ()
    | None => mret ()
    end in
  tokens ← lift (get config "tokens");
  if truthy_opt tokens then
    types ← lift (Object_entries_opt tokens);
    forEach (λ '(tokenType, tokens),
               if typeof_object tokens then
                 names ← lift (Object_entries tokens);
                 forEach (λ '(tokenName, arn),
                            match arn with
                            | JStr arn =>
                                if startsWith "arn:aws:" arn
                                then checkArn arn (tokenType +:+ "." +:+ tokenName)
                                else mret ()
                            | _ => mret ()
                            end) names
               else mret ()) types
  else mret ().

(** [validateInstanceConsistency(config, envPath)] *)
Definition validateInstanceConsistency (config : json) (envPath : string) : M unit :=
  connect ← lift (get config "connect");
  instanceId ← lift (get_opt connect "instance_id");
  let checkConnectArn (arn context : string) : M unit :=
    if includes "/instance/" arn &&
       negb (includes ("/instance/" +:+ ToString_opt instanceId) arn)
    then addError ("Instance ID mismatch in " +:+ envPath +:+ " (" +:+ context +:+
                   "): ARN doesn't match configured instance ID")
    else mret () in
  tokens ← lift (get config "tokens");
  if truthy_opt tokens then
    forEach (λ tokenType,
               entry ← lift (get_opt tokens tokenType);
               if truthy_opt entry then
                 names ← lift (Object_entries_opt entry);
                 forEach (λ '(tokenName, arn),
                            match arn with
                            | JStr arn =>
                                if includes "arn:aws:connect:" arn
                                then checkConnectArn arn (tokenType +:+ "." +:+ tokenName)
                                else mret ()
                            | _ => mret ()
                            end) names
               else mret ())
            ["Queue"; "Prompt"; "Lex"]
  else mret ().

(** [validateEnvironmentConfig(envPath)] *)
Definition validateEnvironmentConfig (w : node) (envPath : string) : M unit :=
  try_catch
    (yamlContent ← lift (readFile w envPath);
     config ← lift (yaml_parse w yamlContent);
     match envSchema_validate w config with
     | Some message =>
         addError ("Invalid environment config " +:+ envPath +:+ ": " +:+ message)
     | None =>
         _ ← validateConsistentRegion config envPath;
         validateInstanceConsistency config envPath
     end)
    (λ error,
       addError ("Failed to validate environment config " +:+ envPath +:+ ": " +:+
                 exn_message error)).

(** The body of the loop of [validateEnvironmentConfigs]. *)
Definition config_step (w : node) (envDir envFile : string) : M unit :=
  let envPath := path_join w envDir envFile in
  if pathExists w envPath then validateEnvironmentConfig w envPath
  else addError ("Environment file not found: " +:+ envFile).

(** [validateEnvironmentConfigs(envDir)] *)
Definition validateEnvironmentConfigs (w : node) (envDir : string) : M unit :=
  forEach (config_step w envDir) envFiles.

(** The pattern [/\\$\\{([^}]+)\\}/g] of [validateTokenUsage] and
    [collectUsedTokens]: a backslash, the end of the input, a backslash, an
    opening brace, the path, a backslash and a closing brace. *)
Definition tokenPattern : regex :=
  [ one "\"; AssertEnd; one "\"; one "{";
    Chars (λ c, negb (Ascii.eqb c "}")) 1 None; one "\"; one "}" ].

(** The capture group of [tokenPattern]. *)
Definition tokenPattern_group (ps : list string) : string := nth 4 ps "".

Definition validServices : list string :=
  ["Lambda"; "Queue"; "Prompt"; "Lex"; "PhoneNumber"].

(** [validateTokenUsage(templateContent, flowName)] *)
Definition validateTokenUsage (templateContent flowName : string) : M unit :=
  let tokens := map tokenPattern_group (all_matches tokenPattern templateContent) in
  forEach (λ token,
             let parts := split_on "." token in
             _ ← (if (length parts <? 2)%nat then
                    addError ("Invalid token format in " +:+ flowName +:+ ": ${" +:+
                              token +:+ "} (should be ${Service.Entity})")
                  else mret ());
             let service := hd "" parts in
             if negb (bool_decide (service ∈ validServices)) then
               addWarning ("Unknown service in token " +:+ flowName +:+ ": " +:+ service)
             else mret ())
          tokens.

(** [validateFlowStructure(templateContent, flowName)] *)
Definition validateFlowStructure (templateContent flowName : string) : M unit :=
  _ ← forEach (λ element,
                 if negb (includes element templateContent) then
                   addWarning ("Flow " +:+ flowName +:+ " may be missing " +:+
                               element +:+ " block")
                 else mret ())
              ["StartFlowExecution"; "DisconnectParticipant"];
  if includes "DisconnectParticipant" templateContent &&
     match indexOf "DisconnectParticipant" templateContent with
     | Some i => (i <? 100)%nat
     | None => true
     end
  then addWarning ("Flow " +:+ flowName +:+ " may disconnect too early")
  else mret ().

(** [validateFlowDirectory(flowDir, flowName)] *)
Definition validateFlowDirectory (w : node) (flowDir flowName : string) : M unit :=
  let templateFile := path_join w flowDir "flow.json.tmpl" in
  if negb (pathExists w templateFile) then
    addError ("Flow template not found: " +:+ flowName +:+ "/flow.json.tmpl")
  else
    try_catch
      (templateContent ← lift (readFile w templateFile);
       match JSON_parse w templateContent with
       | Throw parseError =>
           if negb (includes "${" templateContent) then
             addError ("Invalid JSON in flow template " +:+ flowName +:+ ": " +:+
                       exn_message parseError)
           else
             _ ← validateTokenUsage templateContent flowName;
             validateFlowStructure templateContent flowName
       | Ok _ =>
           _ ← validateTokenUsage templateContent flowName;
           validateFlowStructure templateContent flowName
       end)
      (λ error,
         addError ("Failed to validate flow template " +:+ flowName +:+ ": " +:+
                   exn_message error)).

(** [validateFlowTemplates(flowsDir)] *)
Definition validateFlowTemplates (w : node) (flowsDir : string) : M unit :=
  if negb (pathExists w flowsDir) then
    addError ("Flows directory not found: " +:+ flowsDir)
  else
    entries ← lift (readdir w flowsDir);
    forEach (λ entry,
               if d_isDirectory entry then
                 validateFlowDirectory w (path_join w flowsDir (d_name entry))
                   (d_name entry)
               else mret ())
            entries.

(** The loop of [collectUsedTokens] over the entries of [flowsDir]; [tokens]
    is the set collected so far. *)
Fixpoint collectFrom (w : node) (flowsDir : string) (entries : list dirent)
    (tokens : list string) : result (list string) :=
  match entries with
  | [] => Ok tokens
  | entry :: entries' =>
      if d_isDirectory entry then
        let flowDir := path_join w flowsDir (d_name entry) in
        let templateFile := path_join w flowDir "flow.json.tmpl" in
        if pathExists w templateFile then
          content ← readFile w templateFile;
          collectFrom w flowsDir entries'
            (fold_left (λ tokens ps, set_add (tokenPattern_group ps) tokens)
               (all_matches tokenPattern content) tokens)
        else collectFrom w flowsDir entries' tokens
      else collectFrom w flowsDir entries' tokens
  end.

(** [collectUsedTokens(flowsDir)] *)
Definition collectUsedTokens (w : node) (flowsDir : string) : result (list string) :=
  entries ← readdir w flowsDir;
  collectFrom w flowsDir entries [].

(** [flattenTokens(tokens, prefix)] on a value that is not [null]. *)
Fixpoint flattenTokens (tokens : json) (prefix : string) : list string :=
  let fullKey key := if String.eqb prefix "" then key else prefix +:+ "." +:+ key in
  match tokens with
  | JObj fields =>
      flat_map (λ kv,
                  if typeof_object kv.2 && negb (is_null kv.2)
                  then flattenTokens kv.2 (fullKey kv.1)
                  else [fullKey kv.1]) fields
  | JArr l =>
      (fix entries (i : nat) (l : list json) : list string :=
         match l with
         | [] => []
         | value :: l' =>
             (if typeof_object value && negb (is_null value)
              then flattenTokens value (fullKey (string_of_nat i))
              else [fullKey (string_of_nat i)]) ++ entries (S i) l'
         end) O l
  | JStr s => map (λ i, fullKey (string_of_nat i)) (seq 0 (String.length s))
  | _ => []
  end.

(** [validateTokensInEnvironment(envPath, usedTokens, envFile)] *)
Definition validateTokensInEnvironment (w : node) (envPath : string)
    (usedTokens : list string) (envFile : string) : M unit :=
  try_catch
    (yamlContent ← lift (readFile w envPath);
     config ← lift (yaml_parse w yamlContent);
     tokens ← lift (get config "tokens");
     let definedTokens :=
       flattenTokens (if truthy_opt tokens then default (JObj []) tokens else JObj []) "" in
     forEach (λ token,
                if negb (bool_decide (token ∈ definedTokens)) then
                  addError ("Token ${" +:+ token +:+
                            "} used in templates but not defined in " +:+ envFile)
                else mret ())
             usedTokens)
    (λ error,
       addError ("Failed to validate tokens in " +:+ envFile +:+ ": " +:+
                 exn_message error)).

(** [validateTokenCompleteness(flowsDir, envDir)] *)
Definition validateTokenCompleteness (w : node) (flowsDir envDir : string) : M unit :=
  usedTokens ← lift (collectUsedTokens w flowsDir);
  forEach (λ envFile,
             let envPath := path_join w envDir envFile in
             if pathExists w envPath
             then validateTokensInEnvironment w envPath usedTokens envFile
             else mret ())
          envFiles.

(** [this.errors.length === 0] *)
Definition no_errors : M bool := λ st, (st, Ok (length (errors st) =? 0)%nat).

(** [validateAll(flowsDir, envDir)] *)
Definition validateAll (w : node) (flowsDir envDir : string) : M bool :=
  _ ← validateEnvironmentConfigs w envDir;
  _ ← validateFlowTemplates w flowsDir;
  _ ← validateTokenCompleteness w flowsDir envDir;
  _ ← reportResults;
  no_errors.

(** The tokens [validateInstanceConsistency] looks at, each with its context
    [tokenType.tokenName], in the order of the visit. *)
Definition scanned (tokens : json) : list (string * json) :=
  flat_map (λ tokenType,
              match get_property tokens tokenType with
              | Some entry =>
                  if truthy entry then
                    match Object_entries entry with
                    | Ok names =>
                        map (λ kv, (tokenType +:+ "." +:+ kv.1, kv.2)) names
                    | Throw _ => []
                    end
                  else []
              | None => []
              end)
           ["Queue"; "Prompt"; "Lex"].

(** The test of [checkConnectArn] on a token [validateInstanceConsistency]
    looks at. *)
Definition flagged (instanceId : option json) (v : json) : bool :=
  match v with
  | JStr arn =>
      includes "arn:aws:connect:" arn &&
      (includes "/instance/" arn &&
       negb (includes ("/instance/" +:+ ToString_opt instanceId) arn))
  | _ => false
  end.

Definition mismatch_message (envPath context : string) : string :=
  "Instance ID mismatch in " +:+ envPath +:+ " (" +:+ context +:+
  "): ARN doesn't match configured instance ID".

(** The instance with [l] appended to its errors. *)
Definition add_errors (l : list string) (st : validator) : validator :=
  {| errors := errors st ++ l; warnings := warnings st |}.

(** The lists of [st'] extend the lists of [st]. *)
Definition grows (st st' : validator) : Prop :=
  errors st `prefix_of` errors st' ∧ warnings st `prefix_of` warnings st'.

(** A method that only appends to the lists. *)
Definition monotone {A} (m : M A) : Prop := ∀ st, grows st (m st).1.

End FlowValidator.

(** ** [cdk/lib/connect-flow-stack.js]: the inline deployment handler *)

Module ConnectFlowHandler.

(** The requests the handler sends to its environment: the Connect and
    Lambda clients of the AWS SDK, the clock and the process environment. *)
Inductive call :=
| createContactFlow (InstanceId Name Content Description : string)
    (Tags : list (string * string))
| updateContactFlowContent (InstanceId ContactFlowId Content : string)
| describeContactFlow (InstanceId ContactFlowId : string)
| deleteContactFlow (InstanceId ContactFlowId : string)
| addPermission (FunctionName StatementId Action Principal SourceArn : string)
| Date_now
| Date_toISOString
| process_env (name : string).

(** A run of the handler: it returns, throws, or sends a request and goes on
    with the answer, which is a value or a rejection. *)
Inductive prog (A : Type) :=
| Ret (a : A)
| Fail (e : exn)
| Call (c : call) (k : result json → prog A).
Arguments Ret {A} a.
Arguments Fail {A} e.
Arguments Call {A} c k.

Fixpoint bind {A B} (f : A → prog B) (m : prog A) : prog B :=
  match m with
  | Ret a => f a
  | Fail e => Fail e
  | Call c k => Call c (λ r, bind f (k r))
  end.

#[global] Instance prog_ret : MRet prog := @Ret.
#[global] Instance prog_bind : MBind prog := @bind.

(** [try { body } catch (error) { handler(error) }] *)
Fixpoint try_catch {A} (body : prog A) (handler : exn → prog A) : prog A :=
  match body with
  | Ret a => Ret a
  | Fail e => handler e
  | Call c k => Call c (λ r, try_catch (k r) handler)
  end.

(** [await request.promise()] *)
Definition await (c : call) : prog json :=
  Call c (λ r, match r with Ok v => Ret v | Throw e => Fail e end).

Definition lift {A} (r : result A) : prog A :=
  match r with
  | Ok a => Ret a
  | Throw e => Fail e
  end.

(** The custom-resource event.  [PhysicalResourceId] is absent on [Create];
    a property that is absent or empty is falsy. *)
Record properties := {
  FlowName : string;
  FlowContent : string;
  InstanceId : string;
  InstanceArn : string;
  Environment : string;
  BlueGreenDeployment : json;
  LambdaArns : list string;
  ReleaseTag : string;
  DeploymentMode : string;
}.

Record event := {
  RequestType : string;
  PhysicalResourceId : option string;
  ResourceProperties : properties;
}.

Record response := {
  Status : string;
  ResponsePhysicalResourceId : option string;
  Data : list (string * string);
  Reason : option string;
}.

(** [a || b] on strings. *)
Definition or_else (a b : string) : string :=
  if String.eqb a "" then b else a.

(** [s.split(c)[i]] *)
Definition split_nth (c : ascii) (i : nat) (s : string) : option string :=
  split_on c s !! i.

(** [s.split(c).pop()] *)
Definition split_last (c : ascii) (s : string) : string :=
  List.last (split_on c s) "".

(** [setupLambdaPermissions(lambdaArns, instanceArn)] *)
Fixpoint setupLambdaPermissions (lambdaArns : list string) (instanceArn : string)
    : prog unit :=
  match lambdaArns with
  | [] => Ret ()
  | lambdaArn :: lambdaArns' =>
      _ ← try_catch
            (let functionName := split_nth ":" 6 lambdaArn in
             now ← await Date_now;
             let statementId := "connect-invoke-" +:+ ToString now in
             _ ← await (addPermission (ToString_opt (JStr <$> functionName)) statementId
                          "lambda:InvokeFunction" "connect.amazonaws.com" instanceArn);
             Ret ())
            (λ _, Ret ());
      setupLambdaPermissions lambdaArns' instanceArn
  end.

(** [handleCreate(flowName, flowContent, instanceId, instanceArn, lambdaArns,
    releaseTag)] *)
Definition handleCreate (flowName flowContent instanceId instanceArn : string)
    (lambdaArns : list string) (releaseTag : string) : prog (option json) :=
  _ ← setupLambdaPermissions lambdaArns instanceArn;
  suffix ← (if String.eqb releaseTag "" then now ← await Date_now; Ret (ToString now)
            else Ret releaseTag);
  let versionedName := flowName +:+ "-" +:+ suffix in
  environment ← await (process_env "ENVIRONMENT");
  deployedAt ← await Date_toISOString;
  result ← await (createContactFlow instanceId versionedName flowContent
                    ("Deployed via CDK - Release: " +:+ or_else releaseTag "unknown")
                    [("Environment",
                      if truthy environment then ToString environment else "unknown");
                     ("DeployedBy", "CDK");
                     ("ReleaseTag", or_else releaseTag "unknown");
                     ("DeployedAt", ToString deployedAt)]);
  lift (get result "ContactFlowArn").

(** [handleUpdate(contactFlowArn, flowName, flowContent, instanceId,
    lambdaArns, blueGreenDeployment, releaseTag)] *)
Definition handleUpdate (contactFlowArn : option string)
    (flowName flowContent instanceId : string) (lambdaArns : list string)
    (blueGreenDeployment : json) (releaseTag : string) : prog unit :=
  region ← await (process_env "AWS_REGION");
  account ← await (process_env "AWS_ACCOUNT_ID");
  _ ← setupLambdaPermissions lambdaArns
        ("arn:aws:connect:" +:+ ToString region +:+ ":" +:+ ToString account +:+
         ":instance/" +:+ instanceId);
  match contactFlowArn with
  | None => Fail (TypeError "Cannot read properties of undefined (reading 'split')")
  | Some contactFlowArn =>
      if truthy blueGreenDeployment then
        _ ← handleCreate flowName flowContent instanceId
              (default "" (split_nth "/" 0 contactFlowArn)) lambdaArns releaseTag;
        Ret ()
      else
        let contactFlowId := split_last "/" contactFlowArn in
        _ ← await (updateContactFlowContent instanceId contactFlowId flowContent);
        Ret ()
  end.

(** [flowInfo.ContactFlow.State === 'ACTIVE'] *)
Definition state_is_active (flowInfo : json) : result bool :=
  contactFlow ← get flowInfo "ContactFlow";
  state ← get_opt contactFlow "State";
  Ok match state with
     | Some (JStr s) => String.eqb s "ACTIVE"
     | _ => false
     end.

(** [handleDelete(contactFlowArn, instanceId)].  The call of
    [connect.deleteContactFlow] is commented out in the source: after the
    check of the state nothing is sent. *)
Definition handleDelete (contactFlowArn : option string) (instanceId : string)
    : prog unit :=
  match contactFlowArn with
  | None => Ret ()
  | Some contactFlowArn =>
      if String.eqb contactFlowArn "" || String.eqb contactFlowArn "failed" then Ret ()
      else
        try_catch
          (let contactFlowId := split_last "/" contactFlowArn in
           flowInfo ← await (describeContactFlow instanceId contactFlowId);
           active ← lift (state_is_active flowInfo);
           if (active : bool) then Ret () else Ret ())
          (λ _, Ret ())
  end.

Definition success (physicalResourceId : option string)
    (responseData : list (string * string)) : response :=
  {| Status := "SUCCESS"; ResponsePhysicalResourceId := physicalResourceId;
     Data := responseData; Reason := None |}.

(** [exports.handler(event)] *)
Definition handler (ev : event) : prog response :=
  let p := ResourceProperties ev in
  try_catch
    (if String.eqb (RequestType ev) "Create" then
       physicalResourceId ←
         handleCreate (FlowName p) (FlowContent p) (InstanceId p) (InstanceArn p)
           (LambdaArns p) (ReleaseTag p);
       let arn := ToString_opt physicalResourceId in
       Ret (success (ToString <$> physicalResourceId)
              [("ContactFlowArn", arn); ("FlowName", FlowName p)])
     else if String.eqb (RequestType ev) "Update" then
       let physicalResourceId := PhysicalResourceId ev in
       _ ← handleUpdate physicalResourceId (FlowName p) (FlowContent p) (InstanceId p)
             (LambdaArns p) (BlueGreenDeployment p) (ReleaseTag p);
       Ret (success physicalResourceId
              [("ContactFlowArn", default "undefined" physicalResourceId);
               ("FlowName", FlowName p)])
     else if String.eqb (RequestType ev) "Delete" then
       _ ← (if negb (truthy (BlueGreenDeployment p))
            then handleDelete (PhysicalResourceId ev) (InstanceId p)
            else Ret ());
       Ret (success (PhysicalResourceId ev) [])
     else Ret (success None []))
    (λ error,
       Ret {| Status := "FAILED";
              ResponsePhysicalResourceId :=
                Some (or_else (default "" (PhysicalResourceId ev)) "failed");
              Data := [];
              Reason := Some (exn_message error) |}).

(** The requests a run can send, whatever the answers. *)
Inductive sends {A} : prog A → call → Prop :=
| sends_here c k : sends (Call c k) c
| sends_later c k r c' : sends (k r) c' → sends (Call c k) c'.

(** The values a run can return. *)
Inductive returns {A} : prog A → A → Prop :=
| returns_ret a : returns (Ret a) a
| returns_call c k r a : returns (k r) a → returns (Call c k) a.

(** Every request of every run satisfies [P]. *)
Inductive all_calls {A} (P : call → Prop) : prog A → Prop :=
| all_calls_ret a : all_calls P (Ret a)
| all_calls_fail e : all_calls P (Fail e)
| all_calls_call c k : P c → (∀ r, all_calls P (k r)) → all_calls P (Call c k).

(** A request other than [deleteContactFlow]. *)
Definition not_delete (c : call) : Prop :=
  match c with
  | deleteContactFlow _ _ => False
  | _ => True
  end.

End ConnectFlowHandler.

(** ** Fixtures: concrete inputs for the evaluation of the code *)

Module Fixtures.

(** The flow of the test 'should validate ARN formats' of
    [tests/integration.test.js]. *)
Definition bad_arn_flow : json :=
  JObj [("name", JStr "TestFlow");
        ("type", JStr "CONTACT_FLOW");
        ("content", JObj [("lambdaArn", JStr "arn:aws:lambda:invalid-format")])].

(** A template that refers to [Queue.NewQueue]. *)
Definition new_queue_template : string :=
  "{" +:+ dquote +:+ "queue" +:+ dquote +:+ ": " +:+
  dquote +:+ "${Queue.NewQueue}" +:+ dquote +:+ "}".

Definition instance_id : string := "12345678-1234-1234-1234-123456789012".

Definition connect_block : json :=
  JObj [("instance_id", JStr instance_id);
        ("instance_arn",
         JStr ("arn:aws:connect:us-east-1:123456789012:instance/" +:+ instance_id));
        ("region", JStr "us-east-1")].

Definition queue_arn (name : string) : json :=
  JStr ("arn:aws:connect:us-east-1:123456789012:instance/" +:+ instance_id +:+
        "/queue/" +:+ name).

(** An environment map that defines [Queue.Sales] only. *)
Definition env_without_new_queue : json :=
  JObj [("connect", connect_block);
        ("tokens", JObj [("Queue", JObj [("Sales", queue_arn "sales")])])].

(** An environment map that defines [Queue.NewQueue] as well. *)
Definition env_with_new_queue : json :=
  JObj [("connect", connect_block);
        ("tokens", JObj [("Queue", JObj [("Sales", queue_arn "sales");
                                         ("NewQueue", queue_arn "new")])])].

Definition slash_join (a b : string) : string := a +:+ "/" +:+ b.

(** A project with one flow, [flows/Sales], whose template refers to
    [Queue.NewQueue]; [env/test.yaml] does not define it, [env/dev.yaml] and
    [env/prod.yaml] do.  A file is identified with its path; the schema
    accepts the three maps. *)
Definition new_queue_project : node := {|
  path_join := slash_join;
  pathExists p :=
    bool_decide (p ∈ ["env/dev.yaml"; "env/test.yaml"; "env/prod.yaml";
                      "flows"; "flows/Sales/flow.json.tmpl"]);
  readFile p :=
    if bool_decide (p ∈ ["env/dev.yaml"; "env/test.yaml"; "env/prod.yaml"]) then Ok p
    else if String.eqb p "flows/Sales/flow.json.tmpl" then Ok new_queue_template
    else Throw (Error ("ENOENT: no such file or directory, open '" +:+ p +:+ "'"));
  readdir p :=
    if String.eqb p "flows" then Ok [{| d_name := "Sales"; d_isDirectory := true |}]
    else Throw (Error ("ENOENT: no such file or directory, scandir '" +:+ p +:+ "'"));
  yaml_parse s :=
    if String.eqb s "env/test.yaml" then Ok env_without_new_queue
    else Ok env_with_new_queue;
  JSON_parse s :=
    if String.eqb s new_queue_template
    then Ok (JObj [("queue", JStr "${Queue.NewQueue}")])
    else Throw (Error "Unexpected token");
  envSchema_validate _ := None;
|}.

Definition other_instance_id : string := "99999999-9999-9999-9999-999999999999".


(** The same ARN shape under [Queue]. *)
Definition mismatching_queue_arn : string :=
  "arn:aws:connect:us-east-1:123456789012:queues/instance/" +:+
  other_instance_id +:+ "/queue/sales".

Definition env_mismatching_queue : json :=
  JObj [("connect", connect_block);
        ("tokens",
         JObj [("Queue", JObj [("Sales", JStr mismatching_queue_arn);
                               ("Support", queue_arn "support")])])].

(** A project without flows whose three environment files hold [config]. *)
Definition project_of (config : json) : node := {|
  path_join := slash_join;
  pathExists p :=
    bool_decide (p ∈ ["env/dev.yaml"; "env/test.yaml"; "env/prod.yaml"; "flows"]);
  readFile p := Ok p;
  readdir p := Ok [];
  yaml_parse s := Ok config;
  JSON_parse s := Throw (Error "Unexpected token");
  envSchema_validate _ := None;
|}.

(** An environment map in which the value of [A.B] carries token syntax. *)
Definition env_nested_token : json :=
  JObj [("tokens", JObj [("Test", JObj [("Value", JStr "hello-world")]);
                         ("A", JObj [("B", JStr "${Test.Value}")])])].

(** The flow of the test 'should normalize flow JSON and remove noise' of
    [tests/integration.test.js]. *)
Definition raw_flow : json :=
  JObj [("name", JStr "TestFlow");
        ("lastModifiedTime", JNum 1634567890);
        ("createdBy", JStr "user@example.com");
        ("version", JStr "1.2.3");
        ("content",
         JObj [("actions",
                JArr [JObj [("id", JStr "12345678-1234-1234-1234-123456789012");
                            ("x", JNum 123);
                            ("y", JNum 456);
                            ("type", JStr "MessageParticipant")]])])].

(** A [Delete] event outside Blue/Green mode. *)
Definition delete_event : ConnectFlowHandler.event := {|
  ConnectFlowHandler.RequestType := "Delete";
  ConnectFlowHandler.PhysicalResourceId :=
    Some ("arn:aws:connect:us-east-1:123456789012:instance/" +:+ instance_id +:+
          "/contact-flow/sales");
  ConnectFlowHandler.ResourceProperties := {|
    ConnectFlowHandler.FlowName := "Sales";
    ConnectFlowHandler.FlowContent := "{}";
    ConnectFlowHandler.InstanceId := instance_id;
    ConnectFlowHandler.InstanceArn :=
      "arn:aws:connect:us-east-1:123456789012:instance/" +:+ instance_id;
    ConnectFlowHandler.Environment := "test";
    ConnectFlowHandler.BlueGreenDeployment := JBool false;
    ConnectFlowHandler.LambdaArns := [];
    ConnectFlowHandler.ReleaseTag := "v1.0.0";
    ConnectFlowHandler.DeploymentMode := "direct";
  |};
|}.

(** An instance on which one error has been recorded. *)
Definition failed_validator : FlowValidator.validator :=
  {| FlowValidator.errors := ["Environment file not found: dev.yaml"];
     FlowValidator.warnings := [] |}.

End Fixtures.

(** ** The grammars of the patterns, as functions on strings *)

(** Every character of [s] is in the class [cls]. *)
Fixpoint all_chars (cls : ascii → bool) (s : string) : bool :=
  match s with
  | EmptyString => true
  | String c s' => cls c && all_chars cls s'
  end.

(** The longest prefix of [s] in the class [cls], and what follows it. *)
Fixpoint span (cls : ascii → bool) (s : string) : string * string :=
  match s with
  | EmptyString => ("", "")
  | String c s' =>
      if cls c then let '(m, rest) := span cls s' in (String c m, rest)
      else ("", s)
  end.

(** A plus sign, a digit from 1 to 9 and from one to fourteen digits. *)
Definition is_e164 (s : string) : bool :=
  match s with
  | String "+" (String d ds) =>
      in_range "1" "9" d && all_chars digit ds &&
      (1 <=? String.length ds)%nat && (String.length ds <=? 14)%nat
  | _ => false
  end.

(** [s] without its prefix [p], if it starts with [p]. *)
Fixpoint strip (p s : string) : option string :=
  match p with
  | EmptyString => Some s
  | String c p' =>
      match s with
      | String a s' => if Ascii.eqb c a then strip p' s' else None
      | EmptyString => None
      end
  end.

(** A number of repetitions allowed by the upper bound [hi]. *)
Definition within (hi : option nat) (n : nat) : bool :=
  match hi with
  | Some h => (n <=? h)%nat
  | None => true
  end.

(** Does the pattern match at the start of [s]? *)
Definition matches (r : regex) (bol : bool) (s : string) : bool :=
  match match_atoms r bol s with
  | Some _ => true
  | None => false
  end.

(** ** The loops of the two walks of [validateRenderedFlow], by name *)

Module RenderedFlowLoops.
Import RenderedFlow.

(** The loop of a walk [visit] over the items of an array, from index [i]. *)
Fixpoint over_items (visit : json → list string → string → list string)
    (path : string) (i : nat) (l : list json) (errors : list string) : list string :=
  match l with
  | [] => errors
  | value :: l' =>
      over_items visit path (S i) l'
        (visit value errors (subpath path (string_of_nat i)))
  end.

(** The loop of a walk [visit] over the fields of an object. *)
Fixpoint over_fields (visit : json → list string → string → list string)
    (path : string) (fields : list (string * json)) (errors : list string)
    : list string :=
  match fields with
  | [] => errors
  | (key, value) :: fields' =>
      over_fields visit path fields' (visit value errors (subpath path key))
  end.

(** A walk that only appends to the list it is given. *)
Definition appends (visit : json → list string → string → list string)
    (v : json) : Prop :=
  ∀ errors path, visit v errors path = errors ++ visit v [] path.

End RenderedFlowLoops.

(** ** Token trees *)




(** ** Values that normalization passes over *)


(** ** The outcomes of the validator's methods *)

Module ValidatorOutcome.
Import FlowValidator.

(** A method that leaves the list of errors as it is. *)
Definition keeps_errors {A} (m : M A) : Prop := ∀ st, errors (m st).1 = errors st.

(** A method that leaves the list of warnings as it is. *)
Definition keeps_warnings {A} (m : M A) : Prop :=
  ∀ st, warnings (m st).1 = warnings st.

(** A method that never throws. *)
Definition returns_unit (m : M unit) : Prop := ∀ st, ∃ st', m st = (st', Ok ()).

(** The instance with [l] appended to its warnings. *)
Definition add_warnings (l : list string) (st : validator) : validator :=
  {| errors := errors st; warnings := warnings st ++ l |}.


(** The tokens [validateTokensInEnvironment] takes as defined by a map. *)
Definition definedTokens (config : json) : list string :=
  match get_property config "tokens" with
  | Some tokens => flattenTokens (if truthy tokens then tokens else JObj []) ""
  | None => flattenTokens (JObj []) ""
  end.

End ValidatorOutcome.

(** ** Runs of the deployment handler *)

(** Lookup in a list of pairs of strings. *)
Fixpoint obj_get_string (k : string) (l : list (string * string)) : option string :=
  match l with
  | [] => None
  | (k', v) :: l' => if String.eqb k' k then Some v else obj_get_string k l'
  end.

Module HandlerRuns.
Import ConnectFlowHandler.


(** Every value a run can return satisfies [P]. *)
Inductive all_rets {A} (P : A → Prop) : prog A → Prop :=
| all_rets_ret a : P a → all_rets P (Ret a)
| all_rets_fail e : all_rets P (Fail e)
| all_rets_call c k : (∀ r, all_rets P (k r)) → all_rets P (Call c k).

(** The run in which the [i]-th request, counted from [n], gets the answer
    [answer i]: the requests sent, in order, and the outcome. *)
Fixpoint run {A} (answer : nat → call → result json) (n : nat) (p : prog A)
    : list call * result A :=
  match p with
  | Ret a => ([], Ok a)
  | Fail e => ([], Throw e)
  | Call c k =>
      let '(cs, out) := run answer (S n) (k (answer n c)) in (c :: cs, out)
  end.

(** The permissions asked for in a list of requests: function name, action,
    principal and source ARN of each [addPermission]. *)
Definition permissions (cs : list call) : list (string * string * string * string) :=
  flat_map (λ c, match c with
                 | addPermission FunctionName _ Action Principal SourceArn =>
                     [(FunctionName, Action, Principal, SourceArn)]
                 | _ => []
                 end) cs.

(** [lambdaArn.split(':')[6]], as passed to [addPermission]. *)
Definition functionName (lambdaArn : string) : string :=
  ToString_opt (JStr <$> split_nth ":" 6 lambdaArn).

(** A reading of the clock or a request for a permission. *)
Definition asks_permission (c : call) : Prop :=
  match c with
  | Date_now | addPermission _ _ _ _ _ => True
  | _ => False
  end.



(** The requests of a [Create] event with a release tag: a flow is created
    under the versioned name only, and no flow is updated, described or
    deleted. *)
Definition creates_versioned (p : properties) (c : call) : Prop :=
  match c with
  | createContactFlow InstanceId' Name Content _ Tags =>
      InstanceId' = InstanceId p ∧
      Name = FlowName p +:+ "-" +:+ ReleaseTag p ∧
      Content = FlowContent p ∧
      obj_get_string "ReleaseTag" Tags = Some (ReleaseTag p)
  | updateContactFlowContent _ _ _ | deleteContactFlow _ _
  | describeContactFlow _ _ => False
  | _ => True
  end.

End HandlerRuns.

(** ** [cdk/lib/connect-flow-stack.js]: class [ConnectFlowStack] *)

Module ConnectFlowStack.
Import FlowValidator.

(** The class of [lambdaArnPattern]: any character but the double quote, the
    backslash and the letter s (in the regular expression literal the
    backslash is doubled, so that it stands for itself and the s after it for
    the letter). *)
Definition lambdaArnChar (c : ascii) : bool :=
  negb (Nat.eqb (nat_of_ascii c) 34 || Nat.eqb (nat_of_ascii c) 92 || Ascii.eqb c "s").

(** The pattern [lambdaArnPattern], with the flag [g]: the text
    arn:aws:lambda: and one or more characters of that class. *)
Definition lambdaArnPattern : regex :=
  lit "arn:aws:lambda:" ++ [ Chars lambdaArnChar 1 None ].

(** [extractLambdaArns(flowContent)] *)
Definition extractLambdaArns (flowContent : json) : list string :=
  let flowStr := JSON_stringify flowContent in
  fold_left (λ lambdaArns ps, set_add (matched ps) lambdaArns)
            (all_matches lambdaArnPattern flowStr) [].

End ConnectFlowStack.

(** ** [scripts/export.js]: class [ConnectFlowExporter] *)

Module ConnectFlowExporter.

(** [[a-zA-Z0-9-_]] *)
Definition nameChar (c : ascii) : bool := alnum_dash c || Ascii.eqb c "_".

(** [\s] on the code units below 256: tab, line feed, vertical tab, form
    feed, carriage return, space and no-break space. *)
Definition whitespace (c : ascii) : bool :=
  let n := nat_of_ascii c in
  ((9 <=? n)%nat && (n <=? 13)%nat) || Nat.eqb n 32 || Nat.eqb n 160.

(** [s.substring(0, n)] *)
Fixpoint substring_to (n : nat) (s : string) : string :=
  match n, s with
  | S n', String c s' => String c (substring_to n' s')
  | _, _ => ""
  end.

(** [sanitizeFlowName(flowName)] *)
Definition sanitizeFlowName (flowName : string) : result string :=
  s1 ← replace [ Chars (λ c, negb (nameChar c)) 1 (Some 1%nat) ] (λ _, Ok "") flowName;
  s2 ← replace [ Chars whitespace 1 None ] (λ _, Ok "_") s1;
  Ok (substring_to 50 s2).

(** The characters of [s] that are in the class [cls]. *)
Fixpoint keep_chars (cls : ascii → bool) (s : string) : string :=
  match s with
  | EmptyString => ""
  | String c s' => if cls c then String c (keep_chars cls s') else keep_chars cls s'
  end.

End ConnectFlowExporter.

(** ** [scripts/auto-export.js]: class [AutoExportScheduler] *)

Module AutoExportScheduler.
Import TemplateRenderer.




End AutoExportScheduler.

(** [s] without its first [n] characters. *)
Fixpoint string_drop (n : nat) (s : string) : string :=
  match n, s with
  | S n', String _ s' => string_drop n' s'
  | _, _ => s
  end.

(** ** More fixtures *)

Module MoreFixtures.
Import Fixtures.

(** A flow that passes the validation of a rendered flow. *)
Definition good_flow : json :=
  JObj [("name", JStr "TestFlow");
        ("type", JStr "CONTACT_FLOW");
        ("content", JObj [("phone", JStr "+15551234567");
                          ("queues", JArr [queue_arn "sales"])])].


(** A project in which nothing exists. *)
Definition empty_project : node := {|
  path_join := slash_join;
  pathExists p := false;
  readFile p := Throw (Error ("ENOENT: no such file or directory, open '" +:+ p +:+ "'"));
  readdir p :=
    Throw (Error ("ENOENT: no such file or directory, scandir '" +:+ p +:+ "'"));
  yaml_parse s := Ok JNull;
  JSON_parse s := Throw (Error "Unexpected token");
  envSchema_validate _ := None;
|}.

Definition sales_flow_arn : string :=
  "arn:aws:connect:us-east-1:123456789012:instance/" +:+ instance_id +:+
  "/contact-flow/sales".

Definition sales_properties (blueGreen : bool) : ConnectFlowHandler.properties := {|
  ConnectFlowHandler.FlowName := "Sales";
  ConnectFlowHandler.FlowContent := "{}";
  ConnectFlowHandler.InstanceId := instance_id;
  ConnectFlowHandler.InstanceArn :=
    "arn:aws:connect:us-east-1:123456789012:instance/" +:+ instance_id;
  ConnectFlowHandler.Environment := "test";
  ConnectFlowHandler.BlueGreenDeployment := JBool blueGreen;
  ConnectFlowHandler.LambdaArns := [];
  ConnectFlowHandler.ReleaseTag := "v1.0.0";
  ConnectFlowHandler.DeploymentMode := if blueGreen then "blue-green" else "direct";
|}.

(** Events for the flow [Sales], in Blue/Green mode or outside it. *)
Definition sales_event (requestType : string) (blueGreen : bool)
    : ConnectFlowHandler.event := {|
  ConnectFlowHandler.RequestType := requestType;
  ConnectFlowHandler.PhysicalResourceId :=
    if String.eqb requestType "Create" then None else Some sales_flow_arn;
  ConnectFlowHandler.ResourceProperties := sales_properties blueGreen;
|}.

(** A flow that invokes a Lambda function. *)
Definition lambda_flow : json :=
  JObj [("name", JStr "TestFlow");
        ("lambda",
         JStr "arn:aws:lambda:us-east-1:123456789012:function:auth")].


End MoreFixtures.

(** ** The scripts on the file system

    The methods of [render.js] and [normalize.js] that read and write files
    are programs over the requests they send to [fs-extra]; a request is
    answered by a value or rejected. *)

Module FileOps.

Inductive fs_call : Type → Type :=
| fs_pathExists (p : string) : fs_call bool
| fs_readFile (p : string) : fs_call string
| fs_readdir (p : string) : fs_call (list string)
| fs_readdir_withFileTypes (p : string) : fs_call (list dirent)
| fs_ensureDir (p : string) : fs_call unit
| fs_writeJson (p : string) (v : json) : fs_call unit
| fs_readJson (p : string) : fs_call json.

Inductive prog (A : Type) : Type :=
| Ret (a : A)
| Fail (e : exn)
| Call {X : Type} (c : fs_call X) (k : result X → prog A).
Arguments Ret {A} a.
Arguments Fail {A} e.
Arguments Call {A X} c k.

Fixpoint bind {A B} (f : A → prog B) (m : prog A) : prog B :=
  match m with
  | Ret a => f a
  | Fail e => Fail e
  | Call c k => Call c (λ r, bind f (k r))
  end.

#[global] Instance prog_ret : MRet prog := @Ret.
#[global] Instance prog_bind : MBind prog := @bind.

(** [try { body } catch (error) { handler(error) }] *)
Fixpoint try_catch {A} (body : prog A) (handler : exn → prog A) : prog A :=
  match body with
  | Ret a => Ret a
  | Fail e => handler e
  | Call c k => Call c (λ r, try_catch (k r) handler)
  end.

Definition lift {A} (r : result A) : prog A :=
  match r with
  | Ok a => Ret a
  | Throw e => Fail e
  end.

(** [await fs.request(...)] *)
Definition await {X} (c : fs_call X) : prog X := Call c lift.

(** [for (const x of l) { ... }] *)
Fixpoint forEach {A} (f : A → prog unit) (l : list A) : prog unit :=
  match l with
  | [] => Ret ()
  | x :: l' => _ ← f x; forEach f l'
  end.

(** A request together with the answer it got. *)
Inductive event :=
| PathExists (p : string) (r : result bool)
| ReadFile (p : string) (r : result string)
| Readdir (p : string) (r : result (list string))
| ReaddirEntries (p : string) (r : result (list dirent))
| EnsureDir (p : string) (r : result unit)
| WriteJson (p : string) (v : json) (r : result unit)
| ReadJson (p : string) (r : result json).

Definition observe {X} (c : fs_call X) : result X → event :=
  match c in fs_call X return result X → event with
  | fs_pathExists p => PathExists p
  | fs_readFile p => ReadFile p
  | fs_readdir p => Readdir p
  | fs_readdir_withFileTypes p => ReaddirEntries p
  | fs_ensureDir p => EnsureDir p
  | fs_writeJson p v => WriteJson p v
  | fs_readJson p => ReadJson p
  end.

(** The run in which the [i]-th request, counted from [n], gets the answer
    [answer i]: the requests sent with their answers, in order, and the
    outcome. *)
Fixpoint run {A} (answer : nat → ∀ X, fs_call X → result X) (n : nat) (p : prog A)
    : list event * result A :=
  match p with
  | Ret a => ([], Ok a)
  | Fail e => ([], Throw e)
  | Call c k =>
      let r := answer n _ c in
      let '(t, out) := run answer (S n) (k r) in (observe c r :: t, out)
  end.

(** The events that change the file system. *)
Definition writes (ev : event) : bool :=
  match ev with
  | EnsureDir _ _ | WriteJson _ _ _ => true
  | _ => false
  end.

Definition reads_json (ev : event) : Prop :=
  match ev with
  | ReadJson _ _ => True
  | _ => False
  end.

(** Every value the program can return satisfies [P]. *)
Fixpoint all_rets {A} (P : A → Prop) (p : prog A) : Prop :=
  match p with
  | Ret a => P a
  | Fail _ => True
  | Call c k => ∀ r, all_rets P (k r)
  end.

(** [s.endsWith(suffix)] *)
Definition endsWith (suffix s : string) : bool :=
  (String.length suffix <=? String.length s)%nat &&
  String.eqb (string_drop (String.length s - String.length suffix) s) suffix.

(** What the scripts compute on paths and texts without reading any file:
    [path.join] with two and with three arguments, [path.dirname],
    [path.basename] with an extension, and [JSON.parse]. *)
Record pure := {
  join : string → string → string;
  join3 : string → string → string → string;
  dirname : string → string;
  basename : string → string → string;
  JSON_parse : string → result json;
}.

End FileOps.

(** *** [scripts/render.js]: the methods of [TemplateRenderer] on files *)

Module RenderFiles.
Import FileOps.

(** The object a flow directory is reported by. *)
Inductive flow_result :=
| Success (flowName outputFile : string)
| Errored (flowName error : string)
| Skipped (flowName reason : string).

Definition flowName_of (result : flow_result) : string :=
  match result with
  | Success flowName _ | Errored flowName _ | Skipped flowName _ => flowName
  end.

Section renderer.
Context (lib : pure) (envConfig : json).

(** [renderFile(templateFile, outputFile)]; its [catch] logs the error and
    throws it again. *)
Definition renderFile (templateFile outputFile : string) : prog unit :=
  templateContent ← await (fs_readFile templateFile);
  renderedContent ← lift (TemplateRenderer.render envConfig templateContent);
  _ ← await (fs_ensureDir (dirname lib outputFile));
  parsedJson ← lift (JSON_parse lib renderedContent);
  await (fs_writeJson outputFile parsedJson).

(** [processModulesDirectory(modulesDir, outputDir, flowName)] *)
Definition processModulesDirectory (modulesDir outputDir flowName : string)
    : prog unit :=
  moduleFiles ← await (fs_readdir modulesDir);
  let moduleOutputDir := join3 lib outputDir "modules" flowName in
  _ ← await (fs_ensureDir moduleOutputDir);
  forEach (λ moduleFile,
             if endsWith ".tmpl" moduleFile then
               let moduleTemplatePath := join lib modulesDir moduleFile in
               let moduleName := basename lib moduleFile ".tmpl" in
               let moduleOutputPath := join lib moduleOutputDir (moduleName +:+ ".json") in
               renderFile moduleTemplatePath moduleOutputPath
             else Ret ())
          moduleFiles.

(** [processFlowDirectory(flowDir, outputDir, flowName)] *)
Definition processFlowDirectory (flowDir outputDir flowName : string)
    : prog flow_result :=
  let templateFile := join lib flowDir "flow.json.tmpl" in
  let outputFile := join lib outputDir (flowName +:+ ".json") in
  found ← await (fs_pathExists templateFile);
  if negb found then Ret (Skipped flowName "No template file")
  else
    try_catch
      (_ ← renderFile templateFile outputFile;
       renderedJson ← await (fs_readJson outputFile);
       _ ← lift (RenderedFlow.validateRenderedFlow renderedJson flowName);
       let modulesDir := join lib flowDir "modules" in
       modules ← await (fs_pathExists modulesDir);
       _ ← (if (modules : bool)
            then processModulesDirectory modulesDir outputDir flowName
            else Ret ());
       Ret (Success flowName outputFile))
      (λ error, Ret (Errored flowName (exn_message error))).

(** The loop of [processFlowsDirectory] over the entries of the directory;
    [results] holds the results so far. *)
Fixpoint processEntries (flowsDir outputDir : string) (entries : list dirent)
    (results : list flow_result) : prog (list flow_result) :=
  match entries with
  | [] => Ret results
  | entry :: entries' =>
      if d_isDirectory entry then
        let flowDir := join lib flowsDir (d_name entry) in
        result ← processFlowDirectory flowDir outputDir (d_name entry);
        processEntries flowsDir outputDir entries' (results ++ [result])
      else processEntries flowsDir outputDir entries' results
  end.

(** [processFlowsDirectory(flowsDir, outputDir)] *)
Definition processFlowsDirectory (flowsDir outputDir : string)
    : prog (list flow_result) :=
  found ← await (fs_pathExists flowsDir);
  if negb found then Fail (Error ("Flows directory not found: " +:+ flowsDir))
  else
    _ ← await (fs_ensureDir outputDir);
    entries ← await (fs_readdir_withFileTypes flowsDir);
    processEntries flowsDir outputDir entries [].

End renderer.

End RenderFiles.

(** *** [scripts/normalize.js]: the methods of [FlowNormalizer] on files *)

Module NormalizeFiles.
Import FileOps.

Section normalizer.
Context (lib : pure).

(** The loop of [processFlowDirectory] over the files of [modules]. *)
Definition processModules (modulesDir : string) (moduleFiles : list string)
    : prog unit :=
  forEach (λ moduleFile,
             if endsWith ".json" moduleFile then
               let modulePath := join lib modulesDir moduleFile in
               moduleJson ← await (fs_readJson modulePath);
               normalized ← lift (FlowNormalizer.normalize moduleJson);
               await (fs_writeJson modulePath normalized)
             else Ret ())
          moduleFiles.

(** [processFlowDirectory(flowDir)] *)
Definition processFlowDirectory (flowDir : string) : prog unit :=
  let flowFile := join lib flowDir "flow.json" in
  let templateFile := join lib flowDir "flow.json.tmpl" in
  found ← await (fs_pathExists flowFile);
  _ ← (if (found : bool) then
         flowJson ← await (fs_readJson flowFile);
         normalized ← lift (FlowNormalizer.normalize flowJson);
         _ ← await (fs_writeJson flowFile normalized);
         template ← await (fs_pathExists templateFile);
         if negb template then await (fs_writeJson templateFile normalized)
         else Ret ()
       else Ret ());
  let modulesDir := join lib flowDir "modules" in
  modules ← await (fs_pathExists modulesDir);
  if (modules : bool) then
    moduleFiles ← await (fs_readdir modulesDir);
    processModules modulesDir moduleFiles
  else Ret ().

(** [processFlowsDirectory(flowsDir)] *)
Definition processFlowsDirectory (flowsDir : string) : prog unit :=
  found ← await (fs_pathExists flowsDir);
  if negb found then Ret ()
  else
    entries ← await (fs_readdir_withFileTypes flowsDir);
    forEach (λ entry,
               if d_isDirectory entry
               then processFlowDirectory (join lib flowsDir (d_name entry))
               else Ret ())
            entries.

(** What allows the normalizer to write [v] to [p] after the events
    [before]: [v] is the normal form of what it read at [p]; or [p] is the
    template of a flow directory, it was reported missing, and [v] is the
    normal form of what was read in [flow.json] of that directory. *)
Definition allowed (before : list event) (p : string) (v : json) : Prop :=
  ∃ x, FlowNormalizer.normalize x = Ok v ∧
       (ReadJson p (Ok x) ∈ before ∨
        ∃ flowDir, p = join lib flowDir "flow.json.tmpl" ∧
                   PathExists p (Ok false) ∈ before ∧
                   ReadJson (join lib flowDir "flow.json") (Ok x) ∈ before).

(** Along [t], which follows [before], every file written is allowed and
    no directory is created. *)
Fixpoint writes_allowed (before t : list event) : Prop :=
  match t with
  | [] => True
  | ev :: t' =>
      match ev with
      | WriteJson p v _ => allowed before p v
      | EnsureDir _ _ => False
      | _ => True
      end ∧ writes_allowed (before ++ [ev]) t'
  end.

End normalizer.

End NormalizeFiles.

(** ** Fixtures on the file system *)

Module FileFixtures.
Import Fixtures.

(** The directory of a path whose parts are joined by slashes. *)
Definition slash_dirname (p : string) : string :=
  join "/" (removelast (split_on "/" p)).

Import FileOps.

(** The flow [Sales] with the given queue. *)
Definition sales_flow (queue : json) : json :=
  JObj [("name", JStr "Sales");
        ("type", JStr "CONTACT_FLOW");
        ("content", JObj [("queue", queue)])].

(** A template of [Sales] that refers to [Queue.Sales], and one that refers
    to [Queue.NewQueue]. *)
Definition sales_template : string := JSON_stringify (sales_flow (JStr "${Queue.Sales}")).
Definition new_template : string := JSON_stringify (sales_flow (JStr "${Queue.NewQueue}")).

(** A template that renders to a flow without [type] and [content]. *)
Definition short_flow (queue : json) : json := JObj [("name", queue)].
Definition short_template : string := JSON_stringify (short_flow (JStr "${Queue.Sales}")).

(** Paths joined by a slash; the only texts parsed are the two rendered
    flows. *)
Definition posix : pure := {|
  join a b := a +:+ "/" +:+ b;
  join3 a b c := a +:+ "/" +:+ b +:+ "/" +:+ c;
  dirname := slash_dirname;
  basename p ext :=
    if endsWith ext p
    then ConnectFlowExporter.substring_to (String.length p - String.length ext) p
    else p;
  JSON_parse s :=
    if String.eqb s (JSON_stringify (sales_flow (queue_arn "sales")))
    then Ok (sales_flow (queue_arn "sales"))
    else if String.eqb s (JSON_stringify (short_flow (queue_arn "sales")))
    then Ok (short_flow (queue_arn "sales"))
    else Throw (Error "Unexpected token");
|}.

(** A disk with the directory [flows], the flow directory [flows/Sales] and
    a file [flows/README.md]; the template of [Sales] holds [template], and
    every JSON file holds [stored].  There are no modules, and every write
    succeeds. *)
Definition disk (template : string) (stored : json) (i : nat) (X : Type) (c : fs_call X)
    : result X :=
  match c in fs_call X return result X with
  | fs_pathExists p =>
      Ok (bool_decide (p ∈ ["flows"; "flows/Sales/flow.json.tmpl";
                            "flows/Sales/flow.json"]))
  | fs_readFile p => Ok template
  | fs_readdir p => Ok []
  | fs_readdir_withFileTypes p =>
      Ok [{| d_name := "README.md"; d_isDirectory := false |};
          {| d_name := "Sales"; d_isDirectory := true |}]
  | fs_ensureDir p => Ok ()
  | fs_writeJson p v => Ok ()
  | fs_readJson p => Ok stored
  end.

End FileFixtures.

(** * Verification *)

(** The induction principle that reaches the elements of arrays and the
    values of objects. *)
Lemma json_ind' (P : json → Prop) :
  P JNull → (∀ b, P (JBool b)) → (∀ n, P (JNum n)) → (∀ s, P (JStr s)) →
  (∀ l, Forall P l → P (JArr l)) →
  (∀ l, Forall (λ kv, P kv.2) l → P (JObj l)) →
  ∀ v, P v.
Proof.
  intros Hnull Hbool Hnum Hstr Harr Hobj.
  fix IH 1. intros [| b | n | s | l | l].
  - exact Hnull.
  - exact (Hbool b).
  - exact (Hnum n).
  - exact (Hstr s).
  - apply Harr. induction l as [| x l IHl]; constructor; [apply IH | exact IHl].
  - apply Hobj. induction l as [| [k x] l IHl]; constructor; [apply IH | exact IHl].
Qed.

(** ** Facts about strings and the matcher *)

#[local] Arguments String.append !_ _ / : simpl nomatch.

Lemma append_nil_r (s : string) : s +:+ "" = s.
Proof. induction s; simpl; congruence. Qed.

Lemma append_assoc (a b c : string) : (a +:+ b) +:+ c = a +:+ b +:+ c.
Proof. induction a; simpl; congruence. Qed.

Lemma length_append (a b : string) :
  String.length (a +:+ b) = (String.length a + String.length b)%nat.
Proof. induction a; simpl; congruence. Qed.

(** The replacer throws at the first match on which it throws: matches to
    its left have been replaced, matches to its right are never reached. *)
Lemma replace_from_throw r f e ps s : ∀ bol skip pre post,
  scan r bol skip s = pre ++ ps :: post →
  Forall (λ q, is_ok (f q) = true) pre →
  f ps = Throw e →
  replace_from r f bol skip s = Throw e.
Proof.
  induction s as [| c s IH]; intros bol skip pre post Hscan Hpre Hf.
  - destruct skip as [| k]; simpl in *.
    + destruct (match_atoms r bol "") as [[qs rest] |] eqn:Hm.
      * destruct pre as [| q pre]; simplify_eq/=.
        -- by rewrite Hf.
        -- by destruct pre.
      * by destruct pre.
    + by destruct pre.
  - destruct skip as [| k]; simpl in *.
    + destruct (match_atoms r bol (String c s)) as [[qs rest] |] eqn:Hm.
      * destruct pre as [| q pre]; simplify_eq/=.
        -- by rewrite Hf.
        -- apply Forall_cons in Hpre as [Hq Hpre].
           destruct (f q) as [v |]; [| done]. simpl.
           by erewrite IH.
      * by erewrite IH.
    + eauto.
Qed.

(** When the replacer succeeds on every match, the replacement succeeds. *)
Lemma replace_from_ok r f s : ∀ bol skip,
  Forall (λ q, is_ok (f q) = true) (scan r bol skip s) →
  is_ok (replace_from r f bol skip s) = true.
Proof.
  induction s as [| c s IH]; intros bol skip Hall.
  - destruct skip as [| k]; simpl in *; [| done].
    destruct (match_atoms r bol "") as [[qs rest] |]; [| done].
    apply Forall_cons in Hall as [Hq _].
    by destruct (f qs).
  - destruct skip as [| k]; simpl in *; [| by apply IH].
    destruct (match_atoms r bol (String c s)) as [[qs rest] |].
    + apply Forall_cons in Hall as [Hq Hall].
      destruct (f qs) as [v |]; [| done]. simpl.
      specialize (IH _ _ Hall).
      by destruct (replace_from r f false _ s).
    + specialize (IH _ _ Hall).
      by destruct (replace_from r f false 0 s).
Qed.

(** The replacement text of every match occurs verbatim in the output. *)
Lemma replace_from_contains r f ps v s : ∀ bol skip out,
  replace_from r f bol skip s = Ok out →
  In ps (scan r bol skip s) →
  f ps = Ok v →
  ∃ a b, out = a +:+ v +:+ b.
Proof.
  induction s as [| c s IH]; intros bol skip out Hrep Hin Hf.
  - destruct skip as [| k]; simpl in *; [| done].
    destruct (match_atoms r bol "") as [[qs rest] |]; [| done].
    destruct Hin as [-> | []]. rewrite Hf in Hrep. simpl in Hrep.
    injection Hrep as <-.
    exists "", "". simpl. by rewrite append_nil_r.
  - destruct skip as [| k]; simpl in *; [| by eapply IH].
    destruct (match_atoms r bol (String c s)) as [[qs rest] |].
    + destruct (f qs) as [w |] eqn:Hw; [| done]. simpl in Hrep.
      destruct (replace_from r f false _ s) as [o |] eqn:Ho; [| done].
      simpl in Hrep. injection Hrep as <-. destruct Hin as [-> | Hin].
      * rewrite Hf in Hw. injection Hw as <-.
        exists "", (if (mlen ps =? 0)%nat then String c o else o). by simpl.
      * destruct (IH _ _ _ Ho Hin Hf) as (a & b & ->).
        destruct (mlen qs =? 0)%nat.
        -- exists (w +:+ String c a), b. by rewrite append_assoc.
        -- exists (w +:+ a), b. by rewrite append_assoc.
    + destruct (replace_from r f false 0 s) as [o |] eqn:Ho; [| done].
      simpl in Hrep. injection Hrep as <-.
      destruct (IH _ _ _ Ho Hin Hf) as (a & b & ->).
      by exists (String c a), b.
Qed.

(** The assertion [$]. *)
Lemma match_end r bol s :
  match_atoms (AssertEnd :: r) bol s =
  match s with
  | EmptyString =>
      match match_atoms r bol "" with
      | Some (ps, rest) => Some ("" :: ps, rest)
      | None => None
      end
  | String _ _ => None
  end.
Proof. by destruct s. Qed.

(** A position where the pattern matches puts a match in the scan. *)
Lemma scan_nonempty r a t : ∀ bol,
  (∀ b, is_Some (match_atoms r b t)) →
  scan r bol 0 (a +:+ t) ≠ [].
Proof.
  induction a as [| c a IH]; intros bol Hm; simpl.
  - destruct (Hm bol) as [[ps rest] Hps].
    destruct t; simpl in *; by rewrite Hps.
  - destruct (match_atoms r bol (String c (a +:+ t))) as [[ps rest] |]; [done |].
    by apply IH.
Qed.

(** Every match of the scan sits at some position of the input. *)
Lemma scan_position r s : ∀ bol skip,
  scan r bol skip s ≠ [] →
  ∃ a t b, s = a +:+ t ∧ is_Some (match_atoms r b t).
Proof.
  induction s as [| c s IH]; intros bol skip Hne.
  - destruct skip; simpl in *; [| done].
    destruct (match_atoms r bol "") eqn:Hm; [| done].
    exists "", "", bol. by rewrite Hm.
  - destruct skip as [| k]; simpl in *.
    + destruct (match_atoms r bol (String c s)) eqn:Hm.
      * exists "", (String c s), bol. by rewrite Hm.
      * destruct (IH _ _ Hne) as (a & t & b & -> & Ht).
        by exists (String c a), t, b.
    + destruct (IH _ _ Hne) as (a & t & b & -> & Ht).
      by exists (String c a), t, b.
Qed.

(** A pattern without [^] matches the same way wherever it is tried. *)
Lemma rep_bol cls k :
  (∀ s b1 b2, k b1 s = k b2 s) →
  ∀ s lo hi b1 b2, rep cls k lo hi b1 s = rep cls k lo hi b2 s.
Proof.
  intros Hk s. induction s as [| c s IH]; intros lo hi b1 b2; simpl.
  - by rewrite (Hk _ b1 b2).
  - by rewrite (Hk _ b1 b2).
Qed.

Lemma match_atoms_bol r :
  Forall (λ a, a ≠ AssertStart) r →
  ∀ s b1 b2, match_atoms r b1 s = match_atoms r b2 s.
Proof.
  induction 1 as [| a r Ha _ IH]; intros s b1 b2; [done |].
  destruct a as [cls lo hi | |]; simpl.
  - by rewrite (rep_bol cls _ IH s lo hi b1 b2).
  - done.
  - destruct s; [| done]. by rewrite (IH _ b1 b2).
Qed.

(** A one-character atom. *)
Lemma match_one c r bol s :
  match_atoms (one c :: r) bol s =
  match s with
  | String a s' =>
      if Ascii.eqb c a then
        match match_atoms r false s' with
        | Some (ps, rest) => Some (String a "" :: ps, rest)
        | None => None
        end
      else None
  | EmptyString => None
  end.
Proof.
  destruct s as [| a s']; [done |]. simpl.
  destruct (Ascii.eqb c a); simpl; [| done].
  destruct s' as [| a' s'']; simpl.
  - by destruct (match_atoms r false "") as [[ps rest] |].
  - rewrite andb_false_r.
    by destruct (match_atoms r false (String a' s'')) as [[ps rest] |].
Qed.

Module TokenPattern.
Import TemplateRenderer.

Lemma rep_body s : ∀ lo bol,
  rep notclose (match_atoms [one "}"]) lo None bol s =
  match token_body s with
  | Some (body, rest) =>
      if (lo <=? String.length body)%nat then Some (body, ["}"], rest) else None
  | None => None
  end.
Proof.
  induction s as [| c s IH]; intros lo bol.
  - simpl. by destruct lo.
  - cbn [rep token_body]. rewrite match_one, IH.
    cbn [can_take fmap option_fmap option_map match_atoms].
    rewrite andb_true_r, (Ascii.eqb_sym "}" c). unfold notclose.
    destruct (Ascii.eqb_spec c "}") as [-> | Hc]; cbn [negb].
    + by destruct lo.
    + destruct (token_body s) as [[body rest] |]; [| by destruct lo].
      destruct lo as [| lo]; [done |]. cbn [Nat.pred String.length Nat.leb].
      by destruct (lo <=? String.length body)%nat.
Qed.

Lemma tokenPattern_match bol s :
  match_atoms tokenPattern bol s =
  match token_at s with
  | Some (body, rest) => Some (["$"; "{"; body; "}"], rest)
  | None => None
  end.
Proof.
  unfold tokenPattern. rewrite match_one.
  destruct s as [| a s]; [done |].
  destruct (Ascii.eqb_spec "$" a) as [<- | Ha].
  2: { unfold token_at. destruct a as [[] [] [] [] [] [] [] []]; try done. }
  rewrite match_one. destruct s as [| a s]; [done |].
  destruct (Ascii.eqb_spec "{" a) as [<- | Ha].
  2: { unfold token_at. destruct a as [[] [] [] [] [] [] [] []]; try done. }
  change (match_atoms [Chars (λ c, negb (Ascii.eqb c "}")) 1 None; one "}"] false s)
    with (match rep notclose (match_atoms [one "}"]) 1 None false s with
          | Some (m, ps, rest) => Some (m :: ps, rest)
          | None => None
          end).
  rewrite (rep_body s 1 false). cbn [token_at].
  destruct (token_body s) as [[[| c body] rest] |]; done.
Qed.

Lemma token_body_app s body rest b :
  token_body s = Some (body, rest) →
  token_body (s +:+ b) = Some (body, rest +:+ b).
Proof.
  revert body. induction s as [| c s IH]; intros body; simpl; [done |].
  destruct (notclose c).
  - destruct (token_body s) as [[body' rest'] |]; [| done].
    intros [= <- <-]. by rewrite (IH body').
  - by intros [= <- <-].
Qed.

Lemma token_at_app s body rest b :
  token_at s = Some (body, rest) →
  token_at (s +:+ b) = Some (body, rest +:+ b).
Proof.
  destruct s as [| a s]; [done |]. 
  destruct s as [| a' s]; [by destruct a as [[] [] [] [] [] [] [] []] |].
  intros H.
  assert (a = "$"%char ∧ a' = "{"%char) as [-> ->].
  { destruct a as [[] [] [] [] [] [] [] []]; try done.
    destruct a' as [[] [] [] [] [] [] [] []]; try done. }
  simpl in *.
  destruct (token_body s) as [[[| c body'] rest'] |] eqn:Hb; simplify_eq.
  by rewrite (token_body_app _ _ _ b Hb).
Qed.

Lemma tokenPattern_unanchored : Forall (λ a, a ≠ AssertStart) tokenPattern.
Proof. repeat constructor; done. Qed.

(** If the token syntax occurs anywhere inside a text, the text has a match. *)
Lemma token_inside a v b :
  all_matches tokenPattern v ≠ [] →
  all_matches tokenPattern (a +:+ v +:+ b) ≠ [].
Proof.
  intros Hv. destruct (scan_position _ _ _ _ Hv) as (a' & t & b0 & -> & Ht).
  rewrite tokenPattern_match in Ht.
  destruct (token_at t) as [[body rest] |] eqn:Hat; [| by destruct Ht].
  rewrite append_assoc, <-(append_assoc a a').
  apply scan_nonempty. intros b1.
  by rewrite tokenPattern_match, (token_at_app _ _ _ b Hat).
Qed.

End TokenPattern.

(** ** The renderer *)

Module RenderFacts.
Import TemplateRenderer TokenPattern.

Lemma replace_from_bol r f s :
  Forall (λ a, a ≠ AssertStart) r →
  ∀ b1 b2 skip, replace_from r f b1 skip s = replace_from r f b2 skip s.
Proof.
  intros Hr b1 b2 skip. destruct s as [| c s]; destruct skip as [| k]; simpl; try done.
  - by rewrite (match_atoms_bol r Hr "" b1 b2).
  - by rewrite (match_atoms_bol r Hr (String c s) b1 b2).
Qed.

Lemma replace_from_0 r f bol c s :
  replace_from r f bol 0 (String c s) =
  match match_atoms r bol (String c s) with
  | Some (ps, _) =>
      v ← f ps;
      out ← replace_from r f false (Nat.pred (mlen ps)) s;
      Ok (v +:+ (if Nat.eqb (mlen ps) 0 then String c out else out))
  | None => out ← replace_from r f false 0 s; Ok (String c out)
  end.
Proof. done. Qed.

(** Skipping the characters of the current match. *)
Lemma replace_from_skip r f a rest : ∀ b,
  replace_from r f b (String.length a) (a +:+ rest) =
  replace_from r f (match a with EmptyString => b | _ => false end) 0 rest.
Proof.
  induction a as [| c a IH]; intros b; [done |].
  simpl. rewrite IH. destruct a; [| done].
  destruct rest; done.
Qed.

Lemma token_body_intro p rest :
  includes "}" p = false →
  token_body (p +:+ "}" +:+ rest) = Some (p, rest).
Proof.
  induction p as [| c p IH]; [done |].
  change (String c p +:+ "}" +:+ rest) with (String c (p +:+ "}" +:+ rest)).
  cbn [includes token_body].
  intros H. apply orb_false_iff in H as [Hc Hp].
  unfold notclose. destruct (Ascii.eqb_spec c "}") as [-> | Hne]; cbn [negb].
  - cbn in Hc. by destruct p.
  - by rewrite IH.
Qed.

(** One step of the pass: the text before the first placeholder is copied,
    the replacer's text is inserted as it is, and the pass goes on with the
    raw text after the closing brace. *)
Lemma replace_step f l p rest :
  includes "$" l = false → p ≠ "" → includes "}" p = false →
  replace tokenPattern f (l +:+ "${" +:+ p +:+ "}" +:+ rest) =
  v ← f ["$"; "{"; p; "}"];
  out ← replace tokenPattern f rest;
  Ok (l +:+ v +:+ out).
Proof.
  intros Hl Hp Hclose. unfold replace.
  enough (∀ bol,
    replace_from tokenPattern f bol 0 (l +:+ "${" +:+ p +:+ "}" +:+ rest) =
    v ← f ["$"; "{"; p; "}"];
    out ← replace_from tokenPattern f true 0 rest;
    Ok (l +:+ v +:+ out)) as H by apply H.
  pose proof (token_body_intro p rest Hclose) as Hbody.
  set (tail := p +:+ "}" +:+ rest) in *.
  assert (token_at (String "$" (String "{" tail)) = Some (p, rest)) as Hat.
  { cbn [token_at]. rewrite Hbody. by destruct p. }
  assert (String.length ("{" +:+ p +:+ "}") = Nat.pred (mlen ["$"; "{"; p; "}"])) as Hlen.
  { unfold mlen, matched. cbn [fold_right]. rewrite !length_append. cbn. lia. }
  assert (String "{" tail = ("{" +:+ p +:+ "}") +:+ rest) as Htail.
  { unfold tail. rewrite !append_assoc. reflexivity. }
  induction l as [| c l IH]; intros bol.
  - change ("" +:+ "${" +:+ tail) with (String "$" (String "{" tail)).
    rewrite replace_from_0, tokenPattern_match, Hat.
    destruct (f ["$"; "{"; p; "}"]) as [v |]; [| done].
    cbn [mbind result_bind].
    rewrite <-Hlen, Htail, replace_from_skip. cbn [String.append].
    rewrite (replace_from_bol _ f rest tokenPattern_unanchored false true).
    destruct (replace_from tokenPattern f true 0 rest) as [out |]; [| done].
    change (mlen ["$"; "{"; p; "}"])
      with (S (String.length ("{" +:+ p +:+ "}" +:+ ""))).
    done.
  - simpl in Hl. apply orb_false_iff in Hl as [Hc Hl].
    change (String c l +:+ "${" +:+ tail) with (String c (l +:+ "${" +:+ tail)).
    rewrite replace_from_0, tokenPattern_match.
    assert (token_at (String c (l +:+ "${" +:+ tail)) = None) as ->.
    { unfold token_at. destruct c as [[] [] [] [] [] [] [] []]; try done.
      cbn in Hc. by destruct l. }
    rewrite (IH Hl false).
    destruct (f ["$"; "{"; p; "}"]) as [v |]; [| done]. cbn.
    by destruct (replace_from tokenPattern f true 0 rest).
Qed.

Lemma first_true {A} (P : A → bool) (l : list A) x :
  In x l → P x = true →
  ∃ pre p post, l = pre ++ p :: post ∧ Forall (λ q, P q = false) pre ∧ P p = true.
Proof.
  induction l as [| y l IH]; [done |]. intros Hin Hx.
  destruct (P y) eqn:Hy.
  - exists [], y, l. by repeat split.
  - destruct Hin as [-> | Hin]; [congruence |].
    destruct (IH Hin Hx) as (pre & p & post & -> & Hpre & Hp).
    exists (y :: pre), p, post. repeat split; [| done]. by constructor.
Qed.

Lemma replacer_unresolved envConfig ps :
  unresolved envConfig (tokenPath ps) = true →
  replacer envConfig ps = Throw (Error ("Token not found: " +:+ tokenPath ps)).
Proof.
  unfold unresolved, replacer.
  destruct (resolveToken envConfig (tokenPath ps)) as [[[] |] |]; done.
Qed.

Lemma replacer_resolved envConfig ps q :
  unresolved envConfig q = true →
  unresolved envConfig (tokenPath ps) = false →
  is_ok (replacer envConfig ps) = true.
Proof.
  unfold unresolved, replacer, resolveToken.
  destruct (get envConfig "tokens") as [value |]; [| done]. cbn.
  intros _. by destruct (walk value _) as [[] |].
Qed.

Lemma render_throws_at envConfig template pre p post :
  token_paths template = pre ++ p :: post →
  Forall (λ q, unresolved envConfig q = false) pre →
  unresolved envConfig p = true →
  render envConfig template = Throw (Error ("Token not found: " +:+ p)).
Proof.
  unfold token_paths. intros Hpaths Hpre Hp.
  apply map_eq_app in Hpaths as (l1 & l2 & Hall & <- & Hl2).
  destruct l2 as [| ps l2]; [done |]. injection Hl2 as <- _.
  unfold render, replace.
  erewrite replace_from_throw; [done | exact Hall | | by apply replacer_unresolved].
  apply Forall_forall. intros qs Hqs. eapply replacer_resolved; [exact Hp |].
  rewrite Forall_forall in Hpre. apply Hpre.
  by apply list_elem_of_In, in_map, list_elem_of_In.
Qed.


(** C3.  Substitution is one left-to-right pass over the raw template.  Once
    the pass has produced [rendered], nothing is resolved again: [render]
    returns [rendered] itself when the token syntax matches nowhere in it,
    and otherwise throws, listing the remaining matches.  A value that
    carries token syntax is copied into [rendered] as it is, so that such a
    template fails instead of being expanded further.  The pass itself copies
    the text before a placeholder, inserts the replacer's text and continues
    with the raw text after the closing brace. *)
Theorem render_single_pass (envConfig : json) (template rendered : string) :
  replace tokenPattern (replacer envConfig) template = Ok rendered →
  (all_matches tokenPattern rendered = [] →
     render envConfig template = Ok rendered) ∧
  (all_matches tokenPattern rendered ≠ [] →
     render envConfig template =
     Throw (Error ("Unresolved tokens found: " +:+
                   join ", " (map matched (all_matches tokenPattern rendered))))) ∧
  (∀ ps v,
     In ps (all_matches tokenPattern template) →
     resolveToken envConfig (tokenPath ps) = Ok (Some v) →
     all_matches tokenPattern (ToString v) ≠ [] →
     all_matches tokenPattern rendered ≠ []) ∧
  (∀ l p rest,
     includes "$" l = false → p ≠ "" → includes "}" p = false →
     replace tokenPattern (replacer envConfig) (l +:+ "${" +:+ p +:+ "}" +:+ rest) =
     v ← replacer envConfig ["$"; "{"; p; "}"];
     out ← replace tokenPattern (replacer envConfig) rest;
     Ok (l +:+ v +:+ out)).
Proof.
  intros Hrep. unfold render. rewrite Hrep. cbn [mbind result_bind].
  split; [by intros -> |]. split.
  { by destruct (all_matches tokenPattern rendered). }
  split; [| intros; by apply replace_step].
  intros ps v Hin Hres Hv.
  assert (replacer envConfig ps = Ok (ToString v)) as Hf.
  { unfold replacer. rewrite Hres. cbn. by destruct v. }
  destruct (replace_from_contains _ _ _ _ _ _ _ _ Hrep Hin Hf) as (a & b & ->).
  by apply token_inside.
Qed.

End RenderFacts.

(** ** Lists and objects *)

Lemma filter_none {A} (P : A → Prop) `{∀ x, Decision (P x)} (l : list A) :
  Forall (λ x, ¬ P x) l → filter P l = [].
Proof.
  induction 1 as [| x l Hx _ IH]; [done |].
  by rewrite filter_cons, decide_False.
Qed.

Lemma filter_all {A} (P : A → Prop) `{∀ x, Decision (P x)} (l : list A) :
  Forall P l → filter P l = l.
Proof.
  induction 1 as [| x l Hx _ IH]; [done |].
  by rewrite filter_cons, decide_True, IH.
Qed.

Section objects.
Implicit Types (fields : list (string * json)) (k : string) (v : json).

Lemma obj_delete_filter k fields :
  obj_delete k fields = filter (λ kv, kv.1 ≠ k) fields.
Proof.
  induction fields as [| [k' v] fields IH]; [done |]. cbn [obj_delete].
  rewrite filter_cons. cbn [fst].
  destruct (String.eqb_spec k' k) as [-> | Hne].
  - by rewrite decide_False by (by intros []).
  - by rewrite decide_True, IH by done.
Qed.

Lemma obj_keys_map_values f fields : obj_keys (map_values f fields) = obj_keys fields.
Proof. unfold obj_keys, map_values. rewrite map_map. by apply map_ext. Qed.

Lemma obj_get_map_values f k fields :
  obj_get k (map_values f fields) = f <$> obj_get k fields.
Proof.
  induction fields as [| [k' v] fields IH]; [done |]. cbn.
  by destruct (String.eqb k' k).
Qed.


Lemma obj_get_Some k v fields : obj_get k fields = Some v → (k, v) ∈ fields.
Proof.
  induction fields as [| [k' v'] fields IH]; [done |]. cbn.
  destruct (String.eqb_spec k' k) as [-> | Hne].
  - intros [= ->]. apply list_elem_of_here.
  - intros H. apply list_elem_of_further. auto.
Qed.


Lemma obj_get_is_Some k fields : k ∈ obj_keys fields → is_Some (obj_get k fields).
Proof.
  induction fields as [| [k' v] fields IH]; cbn; [by intros ?%elem_of_nil |].
  intros [-> | Hin]%elem_of_cons.
  - by rewrite String.eqb_refl.
  - destruct (String.eqb k' k); [done | auto].
Qed.

Lemma obj_set_new k v fields :
  k ∉ obj_keys fields → obj_set k v fields = fields ++ [(k, v)].
Proof.
  induction fields as [| [k' v'] fields IH]; [done |]. cbn.
  intros Hk. apply not_elem_of_cons in Hk as [Hne Hk].
  destruct (String.eqb_spec k' k); [congruence |]. by rewrite IH.
Qed.

(** Assigning to the property at the head of the fields that are still to
    be visited. *)
Lemma obj_set_middle k v w done_ rest :
  k ∉ obj_keys done_ →
  obj_set k w (done_ ++ (k, v) :: rest) = done_ ++ (k, w) :: rest.
Proof.
  induction done_ as [| [k' v'] done_ IH]; cbn.
  - by rewrite String.eqb_refl.
  - intros Hk. apply not_elem_of_cons in Hk as [Hne Hk].
    destruct (String.eqb_spec k' k); [congruence |]. by rewrite IH.
Qed.

Lemma obj_get_middle k v done_ rest :
  k ∉ obj_keys done_ → obj_get k (done_ ++ (k, v) :: rest) = Some v.
Proof.
  induction done_ as [| [k' v'] done_ IH]; cbn.
  - by rewrite String.eqb_refl.
  - intros Hk. apply not_elem_of_cons in Hk as [Hne Hk].
    destruct (String.eqb_spec k' k); [congruence | auto].
Qed.

Lemma obj_keys_app fields1 fields2 :
  obj_keys (fields1 ++ fields2) = obj_keys fields1 ++ obj_keys fields2.
Proof. apply map_app. Qed.


Lemma sort_keys_Sorted (keys : list string) : Sorted String.le (sort_keys keys).
Proof. apply (Sorted_merge_sort String.le). Qed.

Lemma sort_keys_Permutation (keys : list string) : sort_keys keys ≡ₚ keys.
Proof. apply merge_sort_Permutation. Qed.

End objects.

(** ** The passes of the normalizer on the fields of an object *)

Module NormalizerPasses.
Import FlowNormalizer NormalForm.

Implicit Types (fields : list (string * json)) (k : string) (v : json).

Lemma wf_obj fields :
  wf (JObj fields) = true ↔
  NoDup (obj_keys fields) ∧ Forall (λ kv, wf kv.2 = true) fields.
Proof.
  cbn [wf]. rewrite andb_true_iff, bool_decide_eq_true, forallb_forall, Forall_forall.
  split; intros [Hnd Hall]; (split; [done |]); intros kv Hkv; apply Hall;
    by apply list_elem_of_In.
Qed.

Lemma wf_arr l : wf (JArr l) = true ↔ Forall (λ v, wf v = true) l.
Proof.
  cbn [wf]. rewrite forallb_forall, Forall_forall.
  split; intros Hall v Hv; apply Hall; by apply list_elem_of_In.
Qed.

(** *** Metadata removal *)

Lemma delete_fields_del fields : delete_fields fields = del fields.
Proof.
  unfold delete_fields, del, fieldsToRemove. cbn [fold_left].
  rewrite !obj_delete_filter, !list_filter_filter.
  apply list_filter_iff. intros [k v]. cbn [fst].
  rewrite !not_elem_of_cons. pose proof (not_elem_of_nil k). tauto.
Qed.

Lemma map_values_del f fields : map_values f (del fields) = del (map_values f fields).
Proof.
  unfold map_values, del. induction fields as [| [k v] fields IH]; [done |].
  cbn [map]. rewrite !filter_cons. cbn [fst].
  destruct (decide (k ∉ fieldsToRemove)); cbn [map]; by rewrite IH.
Qed.

(** The order of the source: the fields are deleted, then the values that
    are left are visited. *)
Lemma removeFields_obj fields :
  removeFields (JObj fields) = JObj (map_values removeFields (delete_fields fields)).
Proof. cbn [removeFields]. by rewrite !delete_fields_del, map_values_del. Qed.

(** *** Quantization *)

Lemma normalizeCoord_idem v : normalizeCoord (normalizeCoord v) = normalizeCoord v.
Proof.
  destruct v as [| | n | | |]; try done. cbn. f_equal.
  unfold Math_round_div. replace (2 * 10) with 20 by lia.
  replace (2 * ((2 * n + 10) / 20 * 10) + 10) with (10 + (2 * n + 10) / 20 * 20) by lia.
  by rewrite Z.div_add by lia.
Qed.

Lemma obj_set_map_values f k v fields :
  map_values f (obj_set k v fields) = obj_set k (f v) (map_values f fields).
Proof.
  unfold map_values. induction fields as [| [k' v'] fields IH]; [done |].
  cbn [obj_set map fst snd].
  destruct (String.eqb k' k); cbn [map fst snd]; [done | by rewrite IH].
Qed.

Lemma quantize_map_values f k fields :
  (∀ v, f (normalizeCoord v) = normalizeCoord (f v)) →
  map_values f (quantize k fields) = quantize k (map_values f fields).
Proof.
  intros Hf. unfold quantize. rewrite obj_get_map_values.
  destruct (obj_get k fields) as [coord |]; cbn; [| done].
  by rewrite obj_set_map_values, Hf.
Qed.

Lemma processCoordinates_normalizeCoord v :
  processCoordinates (normalizeCoord v) = normalizeCoord (processCoordinates v).
Proof. by destruct v. Qed.

(** The order of the source: [x] and [y] are quantized, then the values are
    visited. *)
Lemma processCoordinates_obj fields :
  processCoordinates (JObj fields) =
  JObj (map_values processCoordinates (quantize "y" (quantize "x" fields))).
Proof.
  cbn [processCoordinates].
  by rewrite !quantize_map_values by apply processCoordinates_normalizeCoord.
Qed.

Lemma quantize_one k fields :
  NoDup (obj_keys fields) →
  quantize k fields =
  map (λ kv, if String.eqb kv.1 k then (kv.1, normalizeCoord kv.2) else kv) fields.
Proof.
  unfold quantize. induction fields as [| [k' v] fields IH]; [done |].
  cbn [obj_keys map fst obj_get]. intros [Hk' Hnd]%NoDup_cons.
  destruct (String.eqb_spec k' k) as [-> | Hne]; cbn [obj_set snd fst].
  - rewrite String.eqb_refl. f_equal.
    rewrite <-(map_id fields) at 1. apply map_ext_in. intros [k1 v1] Hin. cbn.
    destruct (String.eqb_spec k1 k) as [-> | _]; [| done].
    destruct Hk'. apply list_elem_of_fmap. exists (k, v1). split; [done |].
    by apply list_elem_of_In.
  - specialize (IH Hnd). destruct (obj_get k fields) as [coord |].
    + cbn [obj_set]. destruct (String.eqb_spec k' k); [done |]. by rewrite IH.
    + by rewrite <-IH.
Qed.

Lemma quantize_keys k fields : obj_keys (quantize k fields) = obj_keys fields.
Proof.
  unfold quantize. destruct (obj_get k fields) as [coord |] eqn:Hget; [| done].
  induction fields as [| [k' v] fields IH]; [done |]. cbn in *.
  destruct (String.eqb_spec k' k) as [-> | Hne]; cbn; [done |]. f_equal. auto.
Qed.

Lemma quantize_qz fields :
  NoDup (obj_keys fields) → quantize "y" (quantize "x" fields) = qz fields.
Proof.
  intros Hnd. rewrite (quantize_one "y"), (quantize_one "x") by by rewrite ?quantize_keys.
  unfold qz. rewrite map_map. apply map_ext. intros [k v]. unfold is_coord. cbn [fst snd].
  destruct (String.eqb_spec k "x") as [-> | Hx]; cbn [fst snd orb]; [done |].
  by destruct (String.eqb k "y").
Qed.

Lemma qz_keys fields : obj_keys (qz fields) = obj_keys fields.
Proof.
  unfold qz, obj_keys. rewrite map_map. apply map_ext. intros [k v]. cbn.
  by destruct (is_coord k).
Qed.

Lemma map_values_qz f fields :
  (∀ v, f (normalizeCoord v) = normalizeCoord (f v)) →
  map_values f (qz fields) = qz (map_values f fields).
Proof.
  intros Hf. unfold qz, map_values. rewrite !map_map. apply map_ext. intros [k v].
  cbn. destruct (is_coord k); cbn; by rewrite ?Hf.
Qed.

(** *** Sorting *)

Lemma insert_sorted_fold values (keys : list string) : ∀ sorted,
  NoDup keys →
  (∀ k, k ∈ keys → k ∈ obj_keys values ∧ k ∉ obj_keys sorted) →
  fold_left (λ sorted key,
               match obj_get key values with
               | Some v => obj_set key v sorted
               | None => sorted
               end) keys sorted =
  sorted ++ map (λ k, (k, default JNull (obj_get k values))) keys.
Proof.
  induction keys as [| k keys IH]; intros sorted Hnd Hkeys; cbn [fold_left map].
  - by rewrite app_nil_r.
  - apply NoDup_cons in Hnd as [Hk Hnd].
    destruct (Hkeys k) as [Hin Hfresh]; [apply list_elem_of_here |].
    destruct (obj_get_is_Some _ _ Hin) as [v Hv]. rewrite Hv. cbn [default].
    rewrite obj_set_new by done. rewrite IH; [by rewrite <-app_assoc | done |].
    intros k' Hk'. destruct (Hkeys k') as [Hin' Hfresh']; [by apply list_elem_of_further |].
    split; [done |]. rewrite obj_keys_app. cbn.
    rewrite not_elem_of_app, not_elem_of_cons. repeat split; [done | | apply not_elem_of_nil].
    intros ->. done.
Qed.

Lemma srt_keys fields : obj_keys (srt fields) = sort_keys (obj_keys fields).
Proof. unfold srt, obj_keys. rewrite map_map. cbn. apply map_id. Qed.

Lemma sortObjectKeys_srt fields :
  NoDup (obj_keys fields) →
  sortObjectKeys (JObj fields) = JObj (srt (map_values sortObjectKeys fields)).
Proof.
  intros Hnd. cbn [sortObjectKeys]. unfold insert_sorted, srt. f_equal.
  rewrite obj_keys_map_values.
  rewrite insert_sorted_fold; [done | by rewrite sort_keys_Permutation |].
  intros k Hk. rewrite sort_keys_Permutation in Hk.
  rewrite obj_keys_map_values. split; [done | apply not_elem_of_nil].
Qed.

(** The order of the source: each value is looked up by its key and then
    sorted. *)
Lemma sortObjectKeys_obj fields :
  sortObjectKeys (JObj fields) =
  JObj (fold_left (λ sorted key,
                     match obj_get key fields with
                     | Some v => obj_set key (sortObjectKeys v) sorted
                     | None => sorted
                     end) (sort_keys (obj_keys fields)) []).
Proof.
  cbn [sortObjectKeys]. unfold insert_sorted. f_equal.
  generalize (sort_keys (obj_keys fields)). generalize (@nil (string * json)).
  intros sorted keys. revert sorted.
  induction keys as [| k keys IH]; intros sorted; [done |]. cbn [fold_left].
  rewrite obj_get_map_values. destruct (obj_get k fields); cbn; apply IH.
Qed.

Lemma map_values_srt f fields : map_values f (srt fields) = srt (map_values f fields).
Proof.
  unfold srt. rewrite obj_keys_map_values. unfold map_values at 1. rewrite map_map.
  apply map_ext_in. intros k Hk. cbn. f_equal.
  rewrite obj_get_map_values.
  apply list_elem_of_In in Hk. rewrite sort_keys_Permutation in Hk.
  by destruct (obj_get_is_Some _ _ Hk) as [v ->].
Qed.

Lemma obj_get_app_l k fields1 fields2 :
  k ∈ obj_keys fields1 → obj_get k (fields1 ++ fields2) = obj_get k fields1.
Proof.
  induction fields1 as [| [k' v] fields1 IH]; cbn; [by intros ?%elem_of_nil |].
  intros [-> | Hin]%elem_of_cons.
  - by rewrite String.eqb_refl.
  - destruct (String.eqb k' k); [done | auto].
Qed.

Lemma obj_get_filter_ne k k' fields :
  k' ≠ k → obj_get k' (filter (λ kv, kv.1 ≠ k) fields) = obj_get k' fields.
Proof.
  intros Hne. induction fields as [| [k1 v] fields IH]; [done |].
  rewrite filter_cons. cbn [fst]. destruct (decide (k1 ≠ k)) as [Hk1 | Hk1]; cbn.
  - by rewrite IH.
  - apply dec_stable in Hk1 as ->.
    destruct (String.eqb_spec k k'); [congruence | done].
Qed.

Lemma elem_of_obj_keys_filter_ne k k' fields :
  k' ∈ obj_keys (filter (λ kv, kv.1 ≠ k) fields) ↔ k' ≠ k ∧ k' ∈ obj_keys fields.
Proof.
  unfold obj_keys. induction fields as [| [k1 v] fields IH]; cbn [map].
  - rewrite filter_nil. cbn. rewrite elem_of_nil. tauto.
  - rewrite filter_cons. cbn [fst].
    destruct (decide (k1 ≠ k)) as [Hk1 | Hk1]; cbn [map].
    + rewrite !elem_of_cons, IH. split; [| tauto].
      intros [-> | ?]; tauto.
    + apply dec_stable in Hk1 as ->. rewrite elem_of_cons, IH. split; [tauto |].
      intros [? [-> | ?]]; tauto.
Qed.

(** The loop of [sortObjects] on the root: [todo] holds the fields still to
    be visited, in their first order, [done_] the fields already assigned. *)
Lemma sortObjects_fold (keys : list string) : ∀ todo done_,
  NoDup keys →
  (∀ k, k ∈ keys → k ∈ obj_keys todo ∧ k ∉ obj_keys done_) →
  fold_left (λ fs key,
               match obj_get key fs with
               | Some v => obj_set key (sortObjectKeys v) (obj_delete key fs)
               | None => fs
               end) keys (todo ++ done_) =
  filter (λ kv, kv.1 ∉ keys) todo ++ done_ ++
  map (λ k, (k, sortObjectKeys (default JNull (obj_get k todo)))) keys.
Proof.
  induction keys as [| k keys IH]; intros todo done_ Hnd Hkeys; cbn [fold_left map].
  - rewrite app_nil_r. f_equal. symmetry. apply filter_all.
    apply Forall_forall. intros kv _. apply not_elem_of_nil.
  - apply NoDup_cons in Hnd as [Hk Hnd].
    destruct (Hkeys k) as [Hin Hfresh]; [apply list_elem_of_here |].
    rewrite obj_get_app_l by done.
    destruct (obj_get_is_Some _ _ Hin) as [v Hv]. rewrite Hv. cbn [default].
    rewrite obj_delete_filter, filter_app.
    rewrite (filter_all _ done_); first last.
    { apply Forall_forall. intros [k1 v1] Hin1. cbn. intros ->. apply Hfresh.
      apply list_elem_of_fmap. by exists (k, v1). }
    rewrite obj_set_new; first last.
    { rewrite obj_keys_app, not_elem_of_app. split; [| done].
      rewrite elem_of_obj_keys_filter_ne. tauto. }
    rewrite <-app_assoc. rewrite IH; [| done |].
    + rewrite list_filter_filter, <-!app_assoc. cbn [app]. f_equal; [| f_equal; f_equal].
      * apply list_filter_iff. intros [k1 v1]. cbn. rewrite not_elem_of_cons. tauto.
      * apply map_ext_in. intros k' Hk'. do 3 f_equal.
        apply obj_get_filter_ne. intros ->. by apply Hk, list_elem_of_In.
    + intros k' Hk'.
      destruct (Hkeys k') as [Hin' Hfresh']; [by apply list_elem_of_further |].
      assert (k' ≠ k) by (by intros ->).
      split.
      * by rewrite elem_of_obj_keys_filter_ne.
      * rewrite obj_keys_app. cbn. rewrite not_elem_of_app, not_elem_of_cons.
        repeat split; [done | done | apply not_elem_of_nil].
Qed.

Lemma sortObjects_srt fields :
  NoDup (obj_keys fields) →
  sortObjects (JObj fields) = Ok (JObj (srt (map_values sortObjectKeys fields))).
Proof.
  intros Hnd. cbn [sortObjects]. do 2 f_equal.
  pose proof (sortObjects_fold (sort_keys (obj_keys fields)) fields []) as H.
  rewrite app_nil_r in H. rewrite H; clear H.
  - rewrite (filter_none _ fields); first last.
    { apply Forall_forall. intros [k v] Hin. cbn. intros Hk. apply Hk.
      rewrite sort_keys_Permutation. apply list_elem_of_fmap. by exists (k, v). }
    cbn [app]. unfold srt. rewrite obj_keys_map_values. apply map_ext. intros k.
    rewrite obj_get_map_values. by destruct (obj_get k fields).
  - by rewrite sort_keys_Permutation.
  - intros k Hk. rewrite sort_keys_Permutation in Hk. split; [done | apply not_elem_of_nil].
Qed.

(** *** Pruning *)

Lemma cleanObject_fold fields : ∀ cleaned,
  NoDup (obj_keys cleaned ++ obj_keys fields) →
  fold_left (λ cleaned kv,
               let cleanedValue := cleanObject kv.2 in
               if negb (is_null cleanedValue) && negb (is_empty_array cleanedValue)
               then obj_set kv.1 cleanedValue cleaned
               else cleaned) fields cleaned =
  cleaned ++ flt (map_values cleanObject fields).
Proof.
  unfold flt, map_values.
  induction fields as [| [k v] fields IH]; intros cleaned Hnd; cbn [fold_left map].
  - by rewrite app_nil_r.
  - rewrite filter_cons. cbn [fst snd].
    cbn [obj_keys map fst] in Hnd.
    apply NoDup_app in Hnd as (Hc & Hdisj & [Hk Hf]%NoDup_cons).
    destruct (decide (kept (cleanObject v))) as [Hkept | Hkept]; unfold kept, keep in Hkept.
    + rewrite Hkept. rewrite obj_set_new; first last.
      { intros Hin. apply (Hdisj _ Hin). apply list_elem_of_here. }
      rewrite IH; [by rewrite <-app_assoc |].
      rewrite obj_keys_app. cbn. rewrite <-app_assoc. cbn.
      apply NoDup_app. repeat split; [done | | by apply NoDup_cons].
      intros k' Hk' Hin'. by apply (Hdisj k').
    + apply not_true_is_false in Hkept. rewrite Hkept. apply IH.
      apply NoDup_app. repeat split; [done | | done].
      intros k' Hk' Hin'. apply (Hdisj k' Hk'). by apply list_elem_of_further.
Qed.

Lemma cleanObject_flt fields :
  NoDup (obj_keys fields) →
  cleanObject (JObj fields) = JObj (flt (map_values cleanObject fields)).
Proof. intros Hnd. cbn [cleanObject]. by rewrite cleanObject_fold. Qed.

(** The loop of [removeEmptyValues] on the root. *)
Lemma removeEmptyValues_fold todo : ∀ done_,
  NoDup (obj_keys (done_ ++ todo)) →
  fold_left (λ fs key,
               match obj_get key fs with
               | Some v => obj_set key (cleanObject v) fs
               | None => fs
               end) (obj_keys todo) (done_ ++ todo) =
  done_ ++ map_values cleanObject todo.
Proof.
  induction todo as [| [k v] todo IH]; intros done_ Hnd; [done |].
  cbn [obj_keys map fst fold_left map_values snd].
  assert (k ∉ obj_keys done_) as Hk.
  { rewrite obj_keys_app in Hnd. apply NoDup_app in Hnd as (_ & Hdisj & _).
    intros Hin. apply (Hdisj _ Hin). apply list_elem_of_here. }
  rewrite obj_get_middle, obj_set_middle by done.
  change (done_ ++ (k, cleanObject v) :: todo) with (done_ ++ [(k, cleanObject v)] ++ todo).
  rewrite app_assoc. rewrite IH.
  - by rewrite <-app_assoc.
  - rewrite <-app_assoc. cbn. by rewrite !obj_keys_app in *.
Qed.

Lemma removeEmptyValues_obj fields :
  NoDup (obj_keys fields) →
  removeEmptyValues (JObj fields) = Ok (JObj (map_values cleanObject fields)).
Proof.
  intros Hnd. cbn [removeEmptyValues]. do 2 f_equal.
  by apply (removeEmptyValues_fold fields []).
Qed.

Lemma flt_keys_sublist fields : obj_keys (flt fields) `sublist_of` obj_keys fields.
Proof.
  unfold flt, obj_keys. induction fields as [| [k v] fields IH]; [done |].
  rewrite filter_cons. destruct (decide _); cbn [map].
  - by apply sublist_skip.
  - by apply sublist_cons.
Qed.

End NormalizerPasses.

(** ** The normalizer as one bottom-up function *)

Module NormalizerFacts.
Import FlowNormalizer NormalForm NormalizerPasses.

Implicit Types (fields : list (string * json)) (k : string) (v : json).

Lemma del_keys_sublist fields : obj_keys (del fields) `sublist_of` obj_keys fields.
Proof.
  unfold del, obj_keys. induction fields as [| [k v] fields IH]; [done |].
  rewrite filter_cons. destruct (decide _); cbn [map].
  - by apply sublist_skip.
  - by apply sublist_cons.
Qed.

Lemma del_NoDup fields : NoDup (obj_keys fields) → NoDup (obj_keys (del fields)).
Proof. intros H. eapply sublist_NoDup; [exact H | apply del_keys_sublist]. Qed.

Lemma srt_NoDup fields : NoDup (obj_keys fields) → NoDup (obj_keys (srt fields)).
Proof. intros H. by rewrite srt_keys, sort_keys_Permutation. Qed.

Lemma sortObjectKeys_normalizeCoord v :
  sortObjectKeys (normalizeCoord v) = normalizeCoord (sortObjectKeys v).
Proof. by destruct v. Qed.

Lemma cleanObject_normalizeCoord v :
  cleanObject (normalizeCoord v) = normalizeCoord (cleanObject v).
Proof. by destruct v. Qed.

Lemma map_values_compose f g fields :
  map_values f (map_values g fields) = map_values (f ∘ g) fields.
Proof. unfold map_values. rewrite map_map. by apply map_ext. Qed.

Lemma map_values_ext f g fields :
  Forall (λ kv, f kv.2 = g kv.2) fields → map_values f fields = map_values g fields.
Proof.
  intros H. unfold map_values. apply map_ext_in. intros [k v] Hin%list_elem_of_In.
  rewrite Forall_forall in H. cbn. f_equal. exact (H _ Hin).
Qed.

(** Below the root the four passes amount to [inner]. *)
Lemma passes_inner v :
  wf v = true →
  cleanObject (sortObjectKeys (processCoordinates (removeFields v))) = inner v.
Proof.
  induction v as [| | | | l IH | fields IH] using json_ind'; try done.
  - intros Hwf%wf_arr. cbn. f_equal. rewrite !map_map.
    assert (map (λ x, cleanObject (sortObjectKeys (processCoordinates (removeFields x)))) l
            = map inner l) as ->.
    { apply map_ext_in. intros x Hx%list_elem_of_In.
      rewrite Forall_forall in IH, Hwf. auto. }
    apply list_filter_iff. intros x. by destruct x.
  - intros [Hnd Hwf]%wf_obj.
    cbn [removeFields]. rewrite delete_fields_del.
    cbn [processCoordinates]. rewrite quantize_qz; first last.
    { rewrite obj_keys_map_values. apply del_NoDup. by rewrite obj_keys_map_values. }
    rewrite map_values_del, map_values_compose.
    rewrite sortObjectKeys_srt; first last.
    { rewrite qz_keys. apply del_NoDup. by rewrite obj_keys_map_values. }
    rewrite map_values_qz by apply sortObjectKeys_normalizeCoord.
    rewrite map_values_del, map_values_compose.
    rewrite cleanObject_flt; first last.
    { apply srt_NoDup. rewrite qz_keys. apply del_NoDup. by rewrite obj_keys_map_values. }
    rewrite map_values_srt.
    rewrite map_values_qz by apply cleanObject_normalizeCoord.
    rewrite map_values_del, map_values_compose.
    cbn [inner]. do 5 f_equal. apply map_values_ext.
    apply Forall_forall. intros kv Hkv. rewrite Forall_forall in IH, Hwf. cbn. auto.
Qed.

(** At the root of an object or of an array the four passes amount to
    [outer]. *)
Lemma normalize_outer v :
  wf v = true →
  match v with
  | JObj _ | JArr _ => normalize v = Ok (outer v)
  | JNull | JStr (String _ _) => ∃ msg, normalize v = Throw (TypeError msg)
  | _ => normalize v = Ok v
  end.
Proof.
  destruct v as [| b | n | [| c s] | l | fields]; try done; try (by eexists).
  - intros Hwf%wf_arr. unfold normalize, removeMetadataNoise, normalizeCoordinates.
    cbn. rewrite !map_map. do 2 f_equal.
    apply map_ext_in. intros x Hx%list_elem_of_In.
    rewrite Forall_forall in Hwf. apply passes_inner. auto.
  - intros [Hnd Hwf]%wf_obj.
    unfold normalize, removeMetadataNoise, normalizeCoordinates.
    cbn [removeFields]. rewrite delete_fields_del.
    cbn [processCoordinates]. rewrite quantize_qz; first last.
    { rewrite obj_keys_map_values. apply del_NoDup. by rewrite obj_keys_map_values. }
    rewrite map_values_del, map_values_compose.
    rewrite sortObjects_srt; first last.
    { rewrite qz_keys. apply del_NoDup. by rewrite obj_keys_map_values. }
    cbn [mbind result_bind].
    rewrite map_values_qz by apply sortObjectKeys_normalizeCoord.
    rewrite map_values_del, map_values_compose.
    rewrite removeEmptyValues_obj; first last.
    { apply srt_NoDup. rewrite qz_keys. apply del_NoDup. by rewrite obj_keys_map_values. }
    rewrite map_values_srt.
    rewrite map_values_qz by apply cleanObject_normalizeCoord.
    rewrite map_values_del, map_values_compose.
    cbn [outer]. do 5 f_equal. apply map_values_ext.
    apply Forall_forall. intros kv Hkv. rewrite Forall_forall in Hwf. cbn.
    apply passes_inner. auto.
Qed.

(** *** The result is in normal form *)

Lemma Sorted_sublist (l k : list string) :
  l `sublist_of` k → Sorted String.le k → Sorted String.le l.
Proof.
  intros Hsub Hk. apply StronglySorted_Sorted.
  apply (Sorted_StronglySorted String.le) in Hk.
  induction Hsub as [| x l k Hsub IH | x l k Hsub IH].
  - constructor.
  - apply StronglySorted_inv in Hk as [Hk Hx]. constructor; [by apply IH |].
    rewrite Forall_forall in Hx |- *. intros y Hy. apply Hx.
    by eapply elem_of_sublist.
  - apply StronglySorted_inv in Hk as [Hk Hx]. by apply IH.
Qed.

Lemma elem_of_srt k v fields : (k, v) ∈ srt fields → (k, v) ∈ fields.
Proof.
  unfold srt. intros H. apply list_elem_of_fmap in H as (k' & [= <- ->] & Hk').
  rewrite sort_keys_Permutation in Hk'.
  destruct (obj_get_is_Some _ _ Hk') as [v Hv]. rewrite Hv. cbn.
  by apply obj_get_Some.
Qed.

Lemma elem_of_flt k v fields : (k, v) ∈ flt fields → (k, v) ∈ fields ∧ kept v.
Proof. unfold flt. rewrite list_elem_of_filter. tauto. Qed.

Lemma elem_of_qz k v fields :
  (k, v) ∈ qz fields →
  ∃ u, (k, u) ∈ fields ∧ v = (if is_coord k then normalizeCoord u else u).
Proof.
  unfold qz. intros H. apply list_elem_of_fmap in H as ([k' u] & Heq & Hin). cbn in Heq.
  destruct (is_coord k') eqn:Hc; injection Heq as -> ->; exists u; by rewrite Hc.
Qed.

Lemma elem_of_del k v fields : (k, v) ∈ del fields → (k, v) ∈ fields ∧ k ∉ fieldsToRemove.
Proof. unfold del. rewrite list_elem_of_filter. cbn. tauto. Qed.

Lemma elem_of_map_values f k v fields :
  (k, v) ∈ map_values f fields → ∃ u, (k, u) ∈ fields ∧ v = f u.
Proof.
  unfold map_values. intros H. apply list_elem_of_fmap in H as ([k' u] & [= -> ->] & Hin).
  by exists u.
Qed.

Lemma normal_normalizeCoord v : normal v → normal (normalizeCoord v).
Proof. destruct v; try done. intros _. constructor. Qed.

(** What the fields of a normalized object are made of. *)
Lemma elem_of_local k v fields :
  (k, v) ∈ srt (qz (del (map_values inner fields))) →
  (k ∉ fieldsToRemove) ∧
  ∃ u, (k, u) ∈ fields ∧ v = (if is_coord k then normalizeCoord (inner u) else inner u).
Proof.
  intros H%elem_of_srt. apply elem_of_qz in H as (w & H & ->).
  apply elem_of_del in H as [Hin Hk].
  apply elem_of_map_values in Hin as (u & Hu & ->). split; [done |]. by exists u.
Qed.

Lemma local_keys fields :
  NoDup (obj_keys fields) →
  Sorted String.le (obj_keys (srt (qz (del (map_values inner fields))))) ∧
  NoDup (obj_keys (srt (qz (del (map_values inner fields))))).
Proof.
  intros Hnd. split.
  - rewrite srt_keys. apply sort_keys_Sorted.
  - apply srt_NoDup. rewrite qz_keys. apply del_NoDup. by rewrite obj_keys_map_values.
Qed.

Lemma local_normal fields :
  Forall (λ kv, normal (inner kv.2)) fields →
  Forall (λ kv, (kv.1 ∉ fieldsToRemove) ∧ quantized kv ∧ normal kv.2)
    (srt (qz (del (map_values inner fields)))).
Proof.
  intros IH. apply Forall_forall. intros [k v] H.
  apply elem_of_local in H as (Hk & u & Hu & ->).
  rewrite Forall_forall in IH. specialize (IH _ Hu). cbn in IH.
  split; [done |]. split.
  - unfold quantized. cbn. intros ->. apply normalizeCoord_idem.
  - cbn. destruct (is_coord k); [by apply normal_normalizeCoord | done].
Qed.

Lemma inner_normal v : wf v = true → normal (inner v).
Proof.
  induction v as [| | | | l IH | fields IH] using json_ind'; try by constructor.
  - intros Hwf%wf_arr. cbn [inner]. constructor.
    + apply Forall_forall. intros x [_ H]%list_elem_of_filter.
      apply list_elem_of_fmap in H as (y & -> & Hy).
      rewrite Forall_forall in IH, Hwf. auto.
    + apply Forall_forall. intros x [Hx _]%list_elem_of_filter. by intros ->.
  - intros [Hnd Hwf]%wf_obj. cbn [inner].
    destruct (local_keys fields Hnd) as [Hsorted Hnodup].
    assert (Forall (λ kv, normal (inner kv.2)) fields) as Hall.
    { apply Forall_forall. intros kv Hkv. rewrite Forall_forall in IH, Hwf. auto. }
    pose proof (local_normal fields Hall) as Hlocal.
    set (local := srt (qz (del (map_values inner fields)))) in *.
    assert (Forall (λ kv, (kv.1 ∉ fieldsToRemove) ∧ quantized kv ∧ normal kv.2) (flt local))
      as Hflt.
    { apply Forall_forall. intros [k v] [Hin _]%elem_of_flt.
      rewrite Forall_forall in Hlocal. by apply Hlocal. }
    constructor.
    + eapply Sorted_sublist; [apply flt_keys_sublist | done].
    + eapply sublist_NoDup; [exact Hnodup | apply flt_keys_sublist].
    + eapply Forall_impl; [exact Hflt |]. by intros kv (? & ? & ?).
    + eapply Forall_impl; [exact Hflt |]. by intros kv (? & ? & ?).
    + apply Forall_forall. intros [k v] [_ Hkept]%elem_of_flt. done.
    + eapply Forall_impl; [exact Hflt |]. by intros kv (? & ? & ?).
Qed.

Lemma outer_normal_root v :
  wf v = true →
  match v with
  | JObj _ | JArr _ => normal_root (outer v)
  | _ => True
  end.
Proof.
  destruct v as [| | | | l | fields]; try done.
  - intros Hwf%wf_arr. cbn [outer]. constructor.
    apply Forall_forall. intros x H. apply list_elem_of_fmap in H as (y & -> & Hy).
    rewrite Forall_forall in Hwf. apply inner_normal. auto.
  - intros [Hnd Hwf]%wf_obj. cbn [outer].
    destruct (local_keys fields Hnd) as [Hsorted Hnodup].
    assert (Forall (λ kv, normal (inner kv.2)) fields) as Hall.
    { apply Forall_forall. intros kv Hkv. rewrite Forall_forall in Hwf.
      apply inner_normal. auto. }
    pose proof (local_normal fields Hall) as Hlocal.
    constructor; try done.
    all: eapply Forall_impl; [exact Hlocal |]; by intros kv (? & ? & ?).
Qed.

(** *** A normal form is left as it is *)








(** A successful run of [normalize] returns a normal form. *)
Lemma normalize_normal_root v v' :
  wf v = true → normalize v = Ok v' → normal_root v'.
Proof.
  intros Hwf Hrun. pose proof (normalize_outer v Hwf) as Hout.
  pose proof (outer_normal_root v Hwf) as Hnormal.
  destruct v as [| b | n | [| c s] | l | fields]; try congruence.
  - destruct Hout as [msg Hout]. congruence.
  - rewrite Hout in Hrun. injection Hrun as <-. constructor.
  - rewrite Hout in Hrun. injection Hrun as <-. constructor.
  - rewrite Hout in Hrun. injection Hrun as <-. constructor.
  - destruct Hout as [msg Hout]. congruence.
Qed.


End NormalizerFacts.

(** ** The normalizer: idempotence, quantization, totality *)

Module NormalizerClaims.
Import FlowNormalizer NormalForm NormalizerPasses NormalizerFacts.

Implicit Types (fields : list (string * json)) (k : string) (v : json).


(** *** Rounding *)


(** *** Paths through the quantization pass *)







(** *** Paths into a normal form *)

Lemma lookup_normal p : ∀ v u, normal v → lookup p v = Some u → normal u.
Proof.
  induction p as [| s p IH]; intros v u Hn; cbn.
  - by intros [= <-].
  - destruct s as [k | i]; destruct v as [| | | | l | fields]; try done.
    + destruct (obj_get k fields) as [v' |] eqn:Hget; [| done]. cbn.
      apply IH. inversion Hn as [| | | | | fs _ _ _ _ _ Hall]; subst.
      rewrite Forall_forall in Hall. by apply (Hall (k, v')), obj_get_Some.
    + destruct (l !! i) as [v' |] eqn:Hget; [| done]. cbn.
      apply IH. inversion Hn as [| | | | l' Hall _ |]; subst.
      rewrite Forall_forall in Hall. apply Hall. by eapply list_elem_of_lookup_2.
Qed.

Lemma lookup_snoc p k : ∀ v u,
  lookup (p ++ [Key k]) v = Some u →
  ∃ fields, lookup p v = Some (JObj fields) ∧ obj_get k fields = Some u.
Proof.
  induction p as [| s p IH]; intros v u; cbn.
  - destruct v as [| | | | l | fields]; try done.
    destruct (obj_get k fields) as [v' |] eqn:Hget; [| done]. cbn.
    intros [= <-]. by exists fields.
  - destruct s as [k' | i]; destruct v as [| | | | l | fields]; try done.
    + destruct (obj_get k' fields) as [v' |]; [| done]. cbn. apply IH.
    + destruct (l !! i) as [v' |]; [| done]. cbn. apply IH.
Qed.


(** *** Paths through [normalize] *)














End NormalizerClaims.

(** ** The normalizer: totality and the deep copy *)

Module NormalizerTotality.
Import FlowNormalizer NormalForm NormalizerFacts.

Lemma read_run r σ v : σ !! r = Some v → NormalizeCall.read r σ = (σ, Ok v).
Proof. unfold NormalizeCall.read. by intros ->. Qed.

Lemma in_place_run f r σ v :
  σ !! r = Some v →
  NormalizeCall.in_place f r σ =
  match f v with
  | Ok v' => (<[r := v']> σ, Ok ())
  | Throw e => (σ, Throw e)
  end.
Proof.
  intros Hr. unfold NormalizeCall.in_place, mbind, NormalizeCall.S_bind.
  rewrite (read_run _ _ _ Hr). unfold NormalizeCall.lift. by destruct (f v).
Qed.

(** The call of [normalize] on a reference: the result is the result of
    [normalize] on the document the reference denotes, at a new reference;
    every document of the store is as it was. *)
Lemma normalize_call (σ : NormalizeCall.store) flowJson x :
  σ !! flowJson = Some x →
  ∃ σ',
    (∀ r v, σ !! r = Some v → σ' !! r = Some v) ∧
    match normalize x with
    | Ok v =>
        ∃ r, NormalizeCall.normalize flowJson σ = (σ', Ok r) ∧
             σ !! r = None ∧ σ' !! r = Some v
    | Throw e => NormalizeCall.normalize flowJson σ = (σ', Throw e)
    end.
Proof.
  intros Hx. set (r := fresh (dom σ)).
  assert (σ !! r = None) as Hfresh by apply not_elem_of_dom, is_fresh.
  assert (∀ w r' v, σ !! r' = Some v → <[r := w]> σ !! r' = Some v) as Hframe.
  { intros w r' v Hr'. rewrite lookup_insert_ne; [done |]. intros <-. congruence. }
  unfold NormalizeCall.normalize, NormalizeCall.deep_copy, mbind, NormalizeCall.S_bind.
  rewrite (read_run _ _ _ Hx). unfold NormalizeCall.alloc. cbv zeta. fold r.
  rewrite (in_place_run _ r _ x) by apply lookup_insert_eq. rewrite insert_insert_eq.
  rewrite (in_place_run _ r _ (removeMetadataNoise x)) by apply lookup_insert_eq.
  rewrite insert_insert_eq.
  rewrite (in_place_run _ r _ (normalizeCoordinates (removeMetadataNoise x)))
    by apply lookup_insert_eq.
  unfold normalize. cbv zeta.
  destruct (sortObjects _) as [sorted | e]; cbn [mbind result_bind].
  - rewrite insert_insert_eq.
    rewrite (in_place_run _ r _ sorted) by apply lookup_insert_eq.
    destruct (removeEmptyValues sorted) as [cleaned | e].
    + rewrite insert_insert_eq. eexists. split; [apply Hframe |].
      exists r. split; [done |]. split; [done | apply lookup_insert_eq].
    + eexists. split; [apply Hframe | done].
  - eexists. split; [apply Hframe | done].
Qed.

(** C7, the claim as it was stated, fails: on the root [null] the call of
    [Object.keys] in [sortObjects] throws. *)
Lemma normalize_null_throws :
  normalize JNull = Throw (TypeError "Cannot convert undefined or null to object").
Proof. done. Qed.

(** C7, as amended.  [normalize] returns on every well-formed tree whose
    root is an object or an array, and returns a number, a boolean or the
    empty string as it is; on the root [null] or a string that is not empty
    it throws a [TypeError].  The call works on a copy: whatever the outcome,
    every document of the store, the argument included, is as it was, and a
    result is held by a reference that was not in use. *)
Theorem normalize_total_on_containers (σ : NormalizeCall.store) (flowJson : nat) (x : json) :
  σ !! flowJson = Some x →
  wf x = true →
  ∃ σ' res,
    NormalizeCall.normalize flowJson σ = (σ', res) ∧
    (∀ r v, σ !! r = Some v → σ' !! r = Some v) ∧
    match x with
    | JObj _ | JArr _ =>
        normalize x = Ok (outer x) ∧
        ∃ r, res = Ok r ∧ σ !! r = None ∧ σ' !! r = Some (outer x)
    | JNum _ | JBool _ | JStr EmptyString =>
        normalize x = Ok x ∧
        ∃ r, res = Ok r ∧ σ !! r = None ∧ σ' !! r = Some x
    | JNull | JStr (String _ _) =>
        ∃ msg, normalize x = Throw (TypeError msg) ∧ res = Throw (TypeError msg)
    end.
Proof.
  intros Hx Hwf. destruct (normalize_call σ flowJson x Hx) as (σ' & Hframe & Hrun).
  pose proof (normalize_outer x Hwf) as Hout.
  destruct x as [| b | n | [| c s] | l | fields].
  - destruct Hout as [msg Hout]. rewrite Hout in Hrun. by eexists _, _; eauto.
  - rewrite Hout in Hrun. destruct Hrun as (r & Hrun & ? & ?).
    eexists _, _. split; [exact Hrun |]. split; [done |]. split; [done |]. by exists r.
  - rewrite Hout in Hrun. destruct Hrun as (r & Hrun & ? & ?).
    eexists _, _. split; [exact Hrun |]. split; [done |]. split; [done |]. by exists r.
  - rewrite Hout in Hrun. destruct Hrun as (r & Hrun & ? & ?).
    eexists _, _. split; [exact Hrun |]. split; [done |]. split; [done |]. by exists r.
  - destruct Hout as [msg Hout]. rewrite Hout in Hrun. by eexists _, _; eauto.
  - rewrite Hout in Hrun. destruct Hrun as (r & Hrun & ? & ?).
    eexists _, _. split; [exact Hrun |]. split; [done |]. split; [done |]. by exists r.
  - rewrite Hout in Hrun. destruct Hrun as (r & Hrun & ? & ?).
    eexists _, _. split; [exact Hrun |]. split; [done |]. split; [done |]. by exists r.
Qed.

End NormalizerTotality.

(** ** The validator: the lists only grow *)

Module ValidatorGrowth.
Import FlowValidator.

#[local] Instance grows_refl : Reflexive grows.
Proof. by intros st; split. Qed.

#[local] Instance grows_trans : Transitive grows.
Proof. intros a b c [] []; split; by etrans. Qed.

Lemma monotone_ret {A} (a : A) : monotone (mret a).
Proof. by intros st. Qed.

Lemma monotone_lift {A} (r : result A) : monotone (lift r).
Proof. by intros st. Qed.

Lemma monotone_bind {A B} (m : M A) (f : A → M B) :
  monotone m → (∀ a, monotone (f a)) → monotone (m ≫= f).
Proof.
  intros Hm Hf st. unfold mbind, M_bind. specialize (Hm st).
  destruct (m st) as [st' [a | e]]; [| done].
  etrans; [exact Hm | apply Hf].
Qed.

Lemma monotone_try_catch {A} (m : M A) h :
  monotone m → (∀ e, monotone (h e)) → monotone (try_catch m h).
Proof.
  intros Hm Hh st. unfold try_catch. specialize (Hm st).
  destruct (m st) as [st' [a | e]]; [done |].
  etrans; [exact Hm | apply Hh].
Qed.

Lemma monotone_forEach {A} (f : A → M unit) l :
  (∀ x, monotone (f x)) → monotone (forEach f l).
Proof.
  intros Hf. induction l as [| x l IH]; cbn [forEach].
  - apply monotone_ret.
  - apply monotone_bind; [apply Hf | by intros _].
Qed.

Lemma monotone_addError message : monotone (addError message).
Proof. intros st. split; cbn; [by apply prefix_app_r | done]. Qed.

Lemma monotone_addWarning message : monotone (addWarning message).
Proof. intros st. split; cbn; [done | by apply prefix_app_r]. Qed.

Lemma monotone_no_errors : monotone no_errors.
Proof. by intros st. Qed.

Create HintDb mono.

Ltac mono :=
  repeat first
    [ solve [auto with mono nocore]
    | apply monotone_addError
    | apply monotone_addWarning
    | apply monotone_ret
    | apply monotone_lift
    | apply monotone_no_errors
    | match goal with
      | |- monotone (if ?b then _ else _) => destruct b
      end
    | apply monotone_bind; [| intros ?; cbv beta]
    | apply monotone_try_catch; [| intros ?; cbv beta]
    | apply monotone_forEach; intros ?; cbv beta
    | match goal with
      | |- monotone (if ?b then _ else _) => destruct b
      | |- monotone (match ?x with _ => _ end) => destruct x
      | |- monotone (let '(_, _) := ?x in _) => destruct x
      | |- monotone (let _ := _ in _) => cbv zeta
      end ].

Lemma monotone_validateConsistentRegion config envPath :
  monotone (validateConsistentRegion config envPath).
Proof. unfold validateConsistentRegion. mono. Qed.
#[local] Hint Resolve monotone_validateConsistentRegion : mono.

Lemma monotone_validateInstanceConsistency config envPath :
  monotone (validateInstanceConsistency config envPath).
Proof. unfold validateInstanceConsistency. mono. Qed.
#[local] Hint Resolve monotone_validateInstanceConsistency : mono.

Lemma monotone_validateEnvironmentConfig w envPath :
  monotone (validateEnvironmentConfig w envPath).
Proof.
  unfold validateEnvironmentConfig. mono.
Qed.
#[local] Hint Resolve monotone_validateEnvironmentConfig : mono.

Lemma monotone_validateEnvironmentConfigs w envDir :
  monotone (validateEnvironmentConfigs w envDir).
Proof.
  unfold validateEnvironmentConfigs. apply monotone_forEach; intros envFile.
  unfold config_step. mono.
Qed.
#[local] Hint Resolve monotone_validateEnvironmentConfigs : mono.

Lemma monotone_validateTokenUsage templateContent flowName :
  monotone (validateTokenUsage templateContent flowName).
Proof. unfold validateTokenUsage. mono. Qed.
#[local] Hint Resolve monotone_validateTokenUsage : mono.

Lemma monotone_validateFlowStructure templateContent flowName :
  monotone (validateFlowStructure templateContent flowName).
Proof. unfold validateFlowStructure. mono. Qed.
#[local] Hint Resolve monotone_validateFlowStructure : mono.

Lemma monotone_validateFlowDirectory w flowDir flowName :
  monotone (validateFlowDirectory w flowDir flowName).
Proof.
  unfold validateFlowDirectory. mono.
Qed.
#[local] Hint Resolve monotone_validateFlowDirectory : mono.

Lemma monotone_validateFlowTemplates w flowsDir :
  monotone (validateFlowTemplates w flowsDir).
Proof. unfold validateFlowTemplates. mono. Qed.
#[local] Hint Resolve monotone_validateFlowTemplates : mono.

Lemma monotone_validateTokensInEnvironment w envPath usedTokens envFile :
  monotone (validateTokensInEnvironment w envPath usedTokens envFile).
Proof. unfold validateTokensInEnvironment. mono. Qed.
#[local] Hint Resolve monotone_validateTokensInEnvironment : mono.

Lemma monotone_validateTokenCompleteness w flowsDir envDir :
  monotone (validateTokenCompleteness w flowsDir envDir).
Proof.
  unfold validateTokenCompleteness. mono.
Qed.
#[local] Hint Resolve monotone_validateTokenCompleteness : mono.

Lemma monotone_validateAll w flowsDir envDir : monotone (validateAll w flowsDir envDir).
Proof.
  unfold validateAll, reportResults. mono.
Qed.
#[local] Hint Resolve monotone_validateAll : mono.

(** The value [validateAll] returns is the test [errors.length === 0] on the
    instance as the run leaves it. *)
Lemma validateAll_result w flowsDir envDir st st' b :
  validateAll w flowsDir envDir st = (st', Ok b) →
  b = (length (errors st') =? 0)%nat.
Proof.
  unfold validateAll, reportResults, mbind, M_bind, mret, M_ret, no_errors.
  destruct (validateEnvironmentConfigs w envDir st) as [st1 [[] | e1]]; [| done].
  destruct (validateFlowTemplates w flowsDir st1) as [st2 [[] | e2]]; [| done].
  destruct (validateTokenCompleteness w flowsDir envDir st2) as [st3 [[] | e3]]; [| done].
  by intros [= <- <-].
Qed.

Lemma prefix_nonempty {A} (l k : list A) : l ≠ [] → l `prefix_of` k → k ≠ [].
Proof. intros Hl [m ->]. by destruct l. Qed.

Lemma validateAll_fails_after_error w flowsDir envDir st :
  errors st ≠ [] → (validateAll w flowsDir envDir st).2 ≠ Ok true.
Proof.
  intros Hne Hres.
  destruct (validateAll w flowsDir envDir st) as [st' r] eqn:Hrun.
  cbn in Hres. subst r.
  pose proof (monotone_validateAll w flowsDir envDir st) as [Herr _].
  rewrite Hrun in Herr. cbn in Herr.
  apply validateAll_result in Hrun.
  pose proof (prefix_nonempty _ _ Hne Herr).
  by destruct (errors st').
Qed.

(** C10.  On one instance the lists [errors] and [warnings] only grow: every
    method leaves lists that extend the lists it found, [validateAll]
    included.  Hence a run of [validateAll] that starts with a recorded error
    never returns [true], whatever it is run on; in particular not the run
    that follows a failed run on the same instance. *)
Theorem errors_and_warnings_only_grow :
  (∀ w flowsDir envDir, monotone (validateAll w flowsDir envDir)) ∧
  (∀ w envDir, monotone (validateEnvironmentConfigs w envDir)) ∧
  (∀ w envPath, monotone (validateEnvironmentConfig w envPath)) ∧
  (∀ config envPath, monotone (validateConsistentRegion config envPath)) ∧
  (∀ config envPath, monotone (validateInstanceConsistency config envPath)) ∧
  (∀ w flowsDir, monotone (validateFlowTemplates w flowsDir)) ∧
  (∀ w flowDir flowName, monotone (validateFlowDirectory w flowDir flowName)) ∧
  (∀ templateContent flowName, monotone (validateTokenUsage templateContent flowName)) ∧
  (∀ templateContent flowName,
     monotone (validateFlowStructure templateContent flowName)) ∧
  (∀ w flowsDir envDir, monotone (validateTokenCompleteness w flowsDir envDir)) ∧
  (∀ w envPath usedTokens envFile,
     monotone (validateTokensInEnvironment w envPath usedTokens envFile)) ∧
  (∀ message, monotone (addError message)) ∧
  (∀ message, monotone (addWarning message)) ∧
  monotone reportResults ∧
  (∀ w flowsDir envDir st,
     errors st ≠ [] → (validateAll w flowsDir envDir st).2 ≠ Ok true) ∧
  (∀ w1 flowsDir1 envDir1 w2 flowsDir2 envDir2 st0 st1,
     validateAll w1 flowsDir1 envDir1 st0 = (st1, Ok false) →
     (validateAll w2 flowsDir2 envDir2 st1).2 ≠ Ok true).
Proof.
  repeat match goal with |- _ ∧ _ => split end; intros; try (by mono).
  - by apply validateAll_fails_after_error.
  - apply validateAll_fails_after_error.
    match goal with H : validateAll _ _ _ _ = _ |- _ =>
      apply validateAll_result in H; by destruct (errors st1) end.
Qed.

End ValidatorGrowth.

(** ** The validator: scanning templates for tokens *)

Module ValidatorTokens.
Import FlowValidator Fixtures.

(** The pattern of [validateTokenUsage] and [collectUsedTokens] requires a
    character after the end of the input: it matches nowhere. *)
Lemma tokenPattern_no_match bol s : match_atoms tokenPattern bol s = None.
Proof.
  unfold tokenPattern. rewrite match_one.
  destruct s as [| a s]; [done |].
  destruct (Ascii.eqb "\" a); [| done].
  rewrite match_end. destruct s as [| a' s]; [| done].
  by rewrite match_one.
Qed.

Lemma tokenPattern_scan s : ∀ bol skip, scan tokenPattern bol skip s = [].
Proof.
  induction s as [| c s IH]; intros bol [| k]; cbn [scan];
    rewrite ?tokenPattern_no_match; done.
Qed.

Lemma collectFrom_empty w flowsDir entries tokens :
  collectFrom w flowsDir entries [] = Ok tokens → tokens = [].
Proof.
  induction entries as [| entry entries IH]; cbn [collectFrom].
  - by intros [= <-].
  - destruct (d_isDirectory entry); [| done].
    destruct (pathExists w _); [| done].
    destruct (readFile w _) as [content |]; [| done]. cbn.
    unfold all_matches. by rewrite tokenPattern_scan.
Qed.

(** C2 (the code departs from the claim).  The scan of the templates finds
    no token in any text, so [collectUsedTokens] returns the empty list
    whenever it returns.  In the project [new_queue_project] the template of
    the flow refers to [Queue.NewQueue], which [env/test.yaml] does not
    define; [validateTokenCompleteness] records nothing and [validateAll]
    returns [true] with an empty list of errors. *)
Theorem token_completeness_records_nothing :
  (∀ s, all_matches tokenPattern s = []) ∧
  (∀ w flowsDir tokens, collectUsedTokens w flowsDir = Ok tokens → tokens = []) ∧
  TemplateRenderer.token_paths new_queue_template = ["Queue.NewQueue"] ∧
  yaml_parse new_queue_project "env/test.yaml" = Ok env_without_new_queue ∧
  flattenTokens (default JNull (get_property env_without_new_queue "tokens")) ""
    = ["Queue.Sales"] ∧
  validateTokenCompleteness new_queue_project "flows" "env" constructor
    = (constructor, Ok ()) ∧
  (∃ warnings,
     validateAll new_queue_project "flows" "env" constructor
     = ({| errors := []; warnings := warnings |}, Ok true)).
Proof.
  split; [intros s; apply tokenPattern_scan |].
  split.
  { intros w flowsDir tokens. unfold collectUsedTokens.
    destruct (readdir w flowsDir) as [entries |]; [| done].
    apply collectFrom_empty. }
  repeat split; try by vm_compute.
  eexists. by vm_compute.
Qed.

End ValidatorTokens.

(** ** The renderer: validation of ARNs *)

Module RenderedFlowFacts.
Import RenderedFlow Fixtures.

(** A string is looked at only if it contains [":arn:aws:"], colon first. *)
Lemma validateArns_skips s errors path :
  includes ":arn:aws:" s = false → validateArns (JStr s) errors path = errors.
Proof. intros H. cbn. by rewrite H. Qed.

(** C4 (the code departs from the claim).  The flow of the repository's test
    'should validate ARN formats' holds the string
    ["arn:aws:lambda:invalid-format"], which does not match the ARN grammar.
    [validateArns] does not look at it, because it does not contain
    [":arn:aws:"]; no entry is recorded and [validateRenderedFlow] returns
    normally. *)
Theorem malformed_arn_not_reported :
  regex_test arnPattern "arn:aws:lambda:invalid-format" = false ∧
  includes ":arn:aws:" "arn:aws:lambda:invalid-format" = false ∧
  validateArns bad_arn_flow [] "" = [] ∧
  validateRenderedFlow bad_arn_flow "TestFlow" = Ok ().
Proof. repeat split; by vm_compute. Qed.

End RenderedFlowFacts.

(** ** The validator: instance consistency *)

Module InstanceConsistency.
Import FlowValidator Fixtures ValidatorGrowth.

Lemma add_errors_nil st : add_errors [] st = st.
Proof. destruct st. unfold add_errors. cbn. by rewrite app_nil_r. Qed.

Lemma add_errors_app l k st : add_errors k (add_errors l st) = add_errors (l ++ k) st.
Proof. unfold add_errors. cbn. by rewrite app_assoc. Qed.

Lemma addError_eq message st : addError message st = (add_errors [message] st, Ok ()).
Proof. done. Qed.

Lemma bind_lift_ok {A B} (a : A) (f : A → M B) st : (lift (Ok a) ≫= f) st = f a st.
Proof. done. Qed.



(** The visit of the tokens of one category. *)
Lemma visit_names envPath instanceId tokenType names st :
  forEach (λ '(tokenName, arn),
             match arn with
             | JStr arn =>
                 if includes "arn:aws:connect:" arn
                 then
                   (if includes "/instance/" arn &&
                       negb (includes ("/instance/" +:+ ToString_opt instanceId) arn)
                    then addError (mismatch_message envPath (tokenType +:+ "." +:+ tokenName))
                    else mret ())
                 else mret ()
             | _ => mret ()
             end) names st =
  (add_errors
     (map (λ kv, mismatch_message envPath kv.1)
        (filter (λ kv, flagged instanceId kv.2 = true)
           (map (λ kv, (tokenType +:+ "." +:+ kv.1, kv.2)) names))) st,
   Ok ()).
Proof.
  revert st. induction names as [| [tokenName arn] names IH]; intros st.
  - cbn. by rewrite add_errors_nil.
  - cbn [forEach map]. rewrite filter_cons. cbn [snd fst].
    unfold mbind at 1, M_bind.
    assert (∀ (b : bool) (m : M unit) st',
              (if b then m else mret ()) st' = if b then m st' else (st', Ok ())) as Hif.
    { by intros []. }
    destruct arn as [| | | arn | |]; cbn [flagged];
      try (rewrite decide_False by done; cbn; apply IH).
    destruct (includes "arn:aws:connect:" arn); cbn [andb].
    2: { rewrite decide_False by done. cbn. apply IH. }
    rewrite Hif.
    destruct (includes "/instance/" arn && _).
    + rewrite decide_True by done. rewrite addError_eq, IH, add_errors_app. done.
    + rewrite decide_False by done. cbn. apply IH.
Qed.

(** What [validateInstanceConsistency] records, for a map with a [connect]
    block and truthy [tokens]. *)
Lemma validateInstanceConsistency_records config envPath connect instanceId tokens st :
  get config "connect" = Ok connect →
  get_opt connect "instance_id" = Ok instanceId →
  get config "tokens" = Ok (Some tokens) →
  truthy tokens = true →
  validateInstanceConsistency config envPath st =
  (add_errors
     (map (λ kv, mismatch_message envPath kv.1)
        (filter (λ kv, flagged instanceId kv.2 = true) (scanned tokens))) st,
   Ok ()).
Proof.
  intros Hconnect Hid Htokens Htruthy. unfold validateInstanceConsistency.
  rewrite Hconnect, bind_lift_ok. cbv beta.
  rewrite Hid, bind_lift_ok. cbv beta zeta.
  rewrite Htokens, bind_lift_ok. cbv beta. cbn [truthy_opt]. rewrite Htruthy.
  assert (∀ tokenType st',
    (entry ← lift (get_opt (Some tokens) tokenType);
     if truthy_opt entry then
       names ← lift (Object_entries_opt entry);
       forEach (λ '(tokenName, arn),
                  match arn with
                  | JStr arn =>
                      if includes "arn:aws:connect:" arn
                      then
                        (if includes "/instance/" arn &&
                            negb (includes ("/instance/" +:+ ToString_opt instanceId) arn)
                         then addError ("Instance ID mismatch in " +:+ envPath +:+ " (" +:+
                                        (tokenType +:+ "." +:+ tokenName) +:+
                                        "): ARN doesn't match configured instance ID")
                         else mret ())
                      else mret ()
                  | _ => mret ()
                  end) names
     else mret ()) st' =
    (add_errors
       (map (λ kv, mismatch_message envPath kv.1)
          (filter (λ kv, flagged instanceId kv.2 = true)
             match get_property tokens tokenType with
             | Some entry =>
                 if truthy entry then
                   match Object_entries entry with
                   | Ok names => map (λ kv, (tokenType +:+ "." +:+ kv.1, kv.2)) names
                   | Throw _ => []
                   end
                 else []
             | None => []
             end)) st', Ok ())) as Hstep.
  { intros tokenType st'. cbn [get_opt].
    assert (get tokens tokenType = Ok (get_property tokens tokenType)) as ->.
    { by destruct tokens. }
    rewrite bind_lift_ok.
    destruct (get_property tokens tokenType) as [entry |]; cbn [truthy_opt];
      [| by rewrite add_errors_nil].
    destruct (truthy entry) eqn:He; [| by rewrite add_errors_nil].
    assert (∃ names, Object_entries entry = Ok names) as [names Hnames].
    { destruct entry; try done; by eexists. }
    cbn [Object_entries_opt]. rewrite Hnames, bind_lift_ok.
    apply (visit_names envPath instanceId tokenType). }
  cbn [forEach]. unfold mbind at 1, M_bind at 1. rewrite Hstep.
  unfold mbind at 1, M_bind at 1. rewrite Hstep.
  unfold mbind at 1, M_bind at 1. rewrite Hstep.
  cbn [mret M_ret]. rewrite !add_errors_app.
  unfold scanned. cbn [flat_map]. rewrite app_nil_r.
  by rewrite !filter_app, !map_app, app_assoc.
Qed.

Lemma try_catch_returns (body : M unit) (h : exn → M unit) st :
  (∀ e st', ∃ st'', h e st' = (st'', Ok ())) →
  ∃ st', try_catch body h st = (st', Ok ()).
Proof.
  intros Hh. unfold try_catch. destruct (body st) as [st' [[] | e]]; [by eexists |].
  apply Hh.
Qed.

Lemma validateEnvironmentConfig_returns w envPath st :
  ∃ st', validateEnvironmentConfig w envPath st = (st', Ok ()).
Proof. apply try_catch_returns. intros e st'. by eexists. Qed.

Lemma config_step_returns w envDir envFile st :
  ∃ st', config_step w envDir envFile st = (st', Ok ()).
Proof.
  unfold config_step. cbv zeta. destruct (pathExists w _).
  - apply validateEnvironmentConfig_returns.
  - by eexists.
Qed.


Lemma grows_nonempty st st' : grows st st' → errors st ≠ [] → errors st' ≠ [].
Proof. intros [H _] Hne. by eapply prefix_nonempty. Qed.


(** A run of [validateAll] in which the configurations leave an error does
    not return [true]. *)
Lemma validateAll_after_configs w flowsDir envDir st st1 :
  validateEnvironmentConfigs w envDir st = (st1, Ok ()) →
  errors st1 ≠ [] →
  (validateAll w flowsDir envDir st).2 ≠ Ok true.
Proof.
  intros Hrun Hne Hres.
  destruct (validateAll w flowsDir envDir st) as [st' r] eqn:Hall.
  cbn in Hres. subst r.
  pose proof (validateAll_result _ _ _ _ _ _ Hall) as Hb.
  revert Hall. unfold validateAll, reportResults, mbind, M_bind, mret, M_ret, no_errors.
  rewrite Hrun.
  pose proof (monotone_validateFlowTemplates w flowsDir st1) as G2.
  destruct (validateFlowTemplates w flowsDir st1) as [st2 [[] | e2]]; [| done].
  pose proof (monotone_validateTokenCompleteness w flowsDir envDir st2) as G3.
  destruct (validateTokenCompleteness w flowsDir envDir st2) as [st3 [[] | e3]]; [| done].
  intros [= <- _]. cbn [fst] in *.
  assert (errors st3 ≠ []) as Hne3.
  { eapply grows_nonempty; [exact G3 |]. by eapply grows_nonempty. }
  by destruct (errors st3).
Qed.



End InstanceConsistency.

(** ** The deployment handler *)

Module HandlerFacts.
Import ConnectFlowHandler.

Lemma all_calls_sends {A} (P : call → Prop) (m : prog A) c :
  all_calls P m → sends m c → P c.
Proof.
  intros Hall Hs. induction Hs as [c k | c k r c' _ IH].
  - by inversion Hall.
  - inversion Hall; subst. by apply IH.
Qed.

Lemma all_calls_bind {A B} (P : call → Prop) (f : A → prog B) (m : prog A) :
  all_calls P m → (∀ a, all_calls P (f a)) → all_calls P (m ≫= f).
Proof.
  intros Hm Hf. induction Hm as [a | e | c k Hc _ IH]; cbn.
  - apply Hf.
  - constructor.
  - constructor; [done | apply IH].
Qed.

Lemma all_calls_try_catch {A} (P : call → Prop) (m : prog A) h :
  all_calls P m → (∀ e, all_calls P (h e)) → all_calls P (try_catch m h).
Proof.
  intros Hm Hh. induction Hm as [a | e | c k Hc _ IH]; cbn.
  - constructor.
  - apply Hh.
  - constructor; [done | apply IH].
Qed.

Lemma all_calls_await (P : call → Prop) c : P c → all_calls P (await c).
Proof. intros Hc. constructor; [done |]. intros [v | e]; constructor. Qed.

Lemma all_calls_lift {A} (P : call → Prop) (r : result A) : all_calls P (lift r).
Proof. destruct r; constructor. Qed.

Lemma all_calls_impl {A} (P Q : call → Prop) (m : prog A) :
  (∀ c, P c → Q c) → all_calls P m → all_calls Q m.
Proof. intros HPQ. induction 1; constructor; auto. Qed.

Ltac calls :=
  repeat first
    [ apply all_calls_bind; [| intros ?]
    | apply all_calls_try_catch; [| intros ?]
    | apply all_calls_await; try exact I
    | apply all_calls_lift
    | apply all_calls_ret
    | apply all_calls_fail
    | match goal with |- all_calls _ (if ?b then _ else _) => destruct b end
    | match goal with |- all_calls _ (match ?o with Some _ => _ | None => _ end) =>
        destruct o
      end ].

Lemma setupLambdaPermissions_calls lambdaArns instanceArn :
  all_calls not_delete (setupLambdaPermissions lambdaArns instanceArn).
Proof.
  induction lambdaArns as [| lambdaArn lambdaArns IH]; cbn [setupLambdaPermissions].
  - constructor.
  - calls. exact IH.
Qed.

Lemma handleCreate_calls flowName flowContent instanceId instanceArn lambdaArns releaseTag :
  all_calls not_delete
    (handleCreate flowName flowContent instanceId instanceArn lambdaArns releaseTag).
Proof.
  unfold handleCreate.
  apply all_calls_bind; [apply setupLambdaPermissions_calls | intros _]. calls.
Qed.

Lemma handleUpdate_calls arn flowName flowContent instanceId lambdaArns bg releaseTag :
  all_calls not_delete
    (handleUpdate arn flowName flowContent instanceId lambdaArns bg releaseTag).
Proof.
  unfold handleUpdate.
  apply all_calls_bind; [calls | intros region].
  apply all_calls_bind; [calls | intros account].
  apply all_calls_bind; [apply setupLambdaPermissions_calls | intros _].
  destruct arn as [contactFlowArn |]; [| constructor].
  destruct (truthy bg).
  - apply all_calls_bind; [apply handleCreate_calls | intros; constructor].
  - calls.
Qed.

(** [handleDelete] sends nothing, or one [describeContactFlow] request after
    which it returns whatever the answer is. *)
Lemma handleDelete_shape arn instanceId :
  handleDelete arn instanceId = Ret () ∨
  ∃ contactFlowArn k,
    arn = Some contactFlowArn ∧
    handleDelete arn instanceId =
      Call (describeContactFlow instanceId (split_last "/" contactFlowArn)) k ∧
    ∀ r, k r = Ret ().
Proof.
  destruct arn as [contactFlowArn |]; [| by left]. unfold handleDelete.
  destruct (_ || _); [by left |]. right.
  eexists _, _. split; [done |]. split; [reflexivity |].
  intros [flowInfo | e]; [| done]. cbn.
  destruct (state_is_active flowInfo) as [[] |]; done.
Qed.

Lemma handleDelete_calls arn instanceId :
  all_calls (λ c, ∃ F, c = describeContactFlow instanceId F) (handleDelete arn instanceId).
Proof.
  destruct (handleDelete_shape arn instanceId) as [-> | (a & k & _ & -> & Hk)].
  - constructor.
  - constructor; [by eexists |]. intros r. rewrite Hk. constructor.
Qed.

Lemma handler_calls ev : all_calls not_delete (handler ev).
Proof.
  unfold handler. apply all_calls_try_catch; [| intros; constructor].
  destruct (String.eqb _ "Create").
  { apply all_calls_bind; [apply handleCreate_calls | intros; constructor]. }
  destruct (String.eqb _ "Update").
  { apply all_calls_bind; [apply handleUpdate_calls | intros; constructor]. }
  destruct (String.eqb _ "Delete"); [| constructor].
  apply all_calls_bind; [| intros; constructor].
  destruct (negb _); [| constructor].
  eapply all_calls_impl; [| apply handleDelete_calls]. by intros c [F ->].
Qed.

Lemma returns_bind {A B} (f : A → prog B) (m : prog A) b :
  returns (m ≫= f) b → ∃ a, returns m a ∧ returns (f a) b.
Proof.
  induction m as [a | e | c k IH]; cbn; intros Hr.
  - exists a. split; [constructor | done].
  - inversion Hr.
  - inversion Hr as [| c' k' r b' Hk]; simplify_eq.
    destruct (IH _ Hk) as (a & Ha & Hb). exists a. split; [| done].
    by econstructor.
Qed.

Lemma handler_delete ev :
  RequestType ev = "Delete" →
  handler ev = Ret (success (PhysicalResourceId ev) []) ∨
  ∃ F k,
    handler ev = Call (describeContactFlow (InstanceId (ResourceProperties ev)) F) k ∧
    ∀ r, k r = Ret (success (PhysicalResourceId ev) []).
Proof.
  intros Hty. unfold handler. rewrite Hty. cbn [String.eqb Ascii.eqb Bool.eqb].
  destruct (negb _); [| by left].
  destruct (handleDelete_shape (PhysicalResourceId ev)
              (InstanceId (ResourceProperties ev))) as [-> | (a & k & _ & -> & Hk)].
  - by left.
  - right. eexists _, _. split; [reflexivity |]. intros r. cbn. by rewrite Hk.
Qed.

(** C9.  The handler never deletes a deployed flow.  No run of the handler,
    for any event and any answers of the service, sends a
    [deleteContactFlow] request.  On a [Delete] event the handler sends
    nothing but, outside Blue/Green mode, one [describeContactFlow] request,
    and every run returns [SUCCESS] with the physical resource id unchanged;
    in Blue/Green mode it returns at once.  [handleDelete] returns after the
    answer to [describeContactFlow] whatever the state it reports, [ACTIVE]
    included, so that the flow stays available for a rollback. *)
Theorem deployed_flow_never_deleted :
  (∀ ev I F, ¬ sends (handler ev) (deleteContactFlow I F)) ∧
  (∀ ev,
     RequestType ev = "Delete" →
     (∀ c, sends (handler ev) c →
           ∃ F, c = describeContactFlow (InstanceId (ResourceProperties ev)) F) ∧
     (∀ r, returns (handler ev) r → r = success (PhysicalResourceId ev) []) ∧
     (truthy (BlueGreenDeployment (ResourceProperties ev)) = true →
      handler ev = Ret (success (PhysicalResourceId ev) []))) ∧
  (∀ arn instanceId,
     handleDelete arn instanceId = Ret () ∨
     ∃ contactFlowArn k,
       arn = Some contactFlowArn ∧
       handleDelete arn instanceId =
         Call (describeContactFlow instanceId (split_last "/" contactFlowArn)) k ∧
       ∀ r, k r = Ret ()).
Proof.
  split; [| split].
  - intros ev I F Hs. exact (all_calls_sends _ _ _ (handler_calls ev) Hs).
  - intros ev Hty.
    destruct (handler_delete ev Hty) as [Heq | (F & k & Heq & Hk)].
    + rewrite Heq. split; [| split].
      * intros c Hs. inversion Hs.
      * intros r Hr. by inversion Hr.
      * unfold handler in *. rewrite Hty in *. cbn [String.eqb Ascii.eqb Bool.eqb] in *.
        done.
    + split; [| split].
      * rewrite Heq. intros c Hs. inversion Hs; simplify_eq; [by eexists |].
        rewrite Hk in *. match goal with H : sends (Ret _) _ |- _ => inversion H end.
      * rewrite Heq. intros r Hr. inversion Hr; simplify_eq.
        rewrite Hk in *. match goal with H : returns (Ret _) _ |- _ => by inversion H end.
      * intros Hbg. unfold handler. rewrite Hty, Hbg.
        by cbn [String.eqb Ascii.eqb Bool.eqb negb].
  - apply handleDelete_shape.
Qed.

End HandlerFacts.

(** ** The renderer: templates without placeholders, outcome of a run *)

Module RenderOutcome.
Import TemplateRenderer TokenPattern RenderFacts.

(** Where the pattern matches nowhere, the replacement copies the text. *)
Lemma replace_from_no_match r f s : ∀ bol,
  scan r bol 0 s = [] → replace_from r f bol 0 s = Ok s.
Proof.
  induction s as [| c s IH]; intros bol Hscan; simpl in *.
  - by destruct (match_atoms r bol "") as [[ps rest] |].
  - destruct (match_atoms r bol (String c s)) as [[ps rest] |]; [done |].
    by rewrite (IH _ Hscan).
Qed.

Lemma token_at_dollar_brace s : includes "${" s = false → token_at s = None.
Proof.
  destruct s as [| a [| b s]]; try done.
  - by destruct a as [[] [] [] [] [] [] [] []].
  - intros H. cbn [includes] in H. apply orb_false_iff in H as [H _].
    unfold token_at.
    destruct a as [[] [] [] [] [] [] [] []]; try done.
    destruct b as [[] [] [] [] [] [] [] []]; try done.
    by destruct s.
Qed.

Lemma scan_no_dollar_brace s : ∀ bol,
  includes "${" s = false → scan tokenPattern bol 0 s = [].
Proof.
  induction s as [| c s IH]; intros bol H.
  - cbn [scan]. by rewrite tokenPattern_match.
  - cbn [scan]. rewrite tokenPattern_match, (token_at_dollar_brace _ H).
    apply IH. simpl in H. by apply orb_false_iff in H as [_ H].
Qed.

(** A template in which the text [${] does not occur has no
    placeholder, and [render] returns a template without placeholders as it
    is, whatever the environment map (the map is not read at all). *)
Theorem render_without_placeholder (envConfig : json) (template : string) :
  includes "${" template = false ∨ token_paths template = [] →
  token_paths template = [] ∧ render envConfig template = Ok template.
Proof.
  intros H.
  assert (all_matches tokenPattern template = []) as Hnone.
  { destruct H as [H | H]; [by apply scan_no_dollar_brace |].
    unfold token_paths in H. by apply map_eq_nil in H. }
  split; [unfold token_paths; by rewrite Hnone |].
  unfold render.
  assert (replace tokenPattern (replacer envConfig) template = Ok template) as ->.
  { by apply replace_from_no_match. }
  cbn [mbind result_bind]. by rewrite Hnone.
Qed.

(** X1.  When [render] returns a text, the token syntax matches nowhere in
    that text, every placeholder of the template has resolved to a value
    other than [null], and the text is the result of the one pass of
    replacement. *)
Theorem render_result (envConfig : json) (template rendered : string) :
  render envConfig template = Ok rendered →
  all_matches tokenPattern rendered = [] ∧
  Forall (λ q, unresolved envConfig q = false) (token_paths template) ∧
  replace tokenPattern (replacer envConfig) template = Ok rendered.
Proof.
  intros Hrun.
  assert (Forall (λ q, unresolved envConfig q = false) (token_paths template)) as Hall.
  { apply Forall_forall. intros q Hq.
    destruct (unresolved envConfig q) eqn:Hu; [| done].
    apply list_elem_of_In in Hq.
    destruct (first_true (unresolved envConfig) _ _ Hq Hu)
      as (pre & p & post & Hsplit & Hpre & Hp).
    by rewrite (render_throws_at _ _ _ _ _ Hsplit Hpre Hp) in Hrun. }
  unfold render in Hrun.
  destruct (replace tokenPattern (replacer envConfig) template) as [out |]; [| done].
  cbn in Hrun.
  destruct (all_matches tokenPattern out) eqn:Hout; [| done].
  by injection Hrun as <-.
Qed.

End RenderOutcome.

(** ** The matcher on delimited patterns *)

Module Grammar.
Import RenderedFlow.

Lemma span_eq cls s m rest :
  span cls s = (m, rest) → s = m +:+ rest ∧ all_chars cls m = true.
Proof.
  revert m rest. induction s as [| c s IH]; intros m rest; cbn [span].
  - by intros [= <- <-].
  - destruct (cls c) eqn:Hc.
    + destruct (span cls s) as [m' rest'] eqn:Hs. intros [= <- <-].
      destruct (IH _ _ eq_refl) as [-> Hm]. split; [done |].
      cbn [all_chars]. by rewrite Hc, Hm.
    + by intros [= <- <-].
Qed.

Lemma span_stop cls s m rest :
  span cls s = (m, rest) →
  match rest with
  | String c _ => cls c = false
  | EmptyString => True
  end.
Proof.
  revert m rest. induction s as [| c s IH]; intros m rest; cbn [span].
  - by intros [= <- <-].
  - destruct (cls c) eqn:Hc.
    + destruct (span cls s) as [m' rest'] eqn:Hs. intros [= <- <-]. by eapply IH.
    + by intros [= <- <-].
Qed.

Lemma span_intro cls m rest :
  all_chars cls m = true →
  match rest with
  | String c _ => cls c = false
  | EmptyString => True
  end →
  span cls (m +:+ rest) = (m, rest).
Proof.
  intros Hm Hrest. induction m as [| c m IH].
  - destruct rest as [| c rest]; [done |]. cbn [String.append span]. by rewrite Hrest.
  - cbn [all_chars] in Hm. apply andb_prop in Hm as [Hc Hm].
    change (String c m +:+ rest) with (String c (m +:+ rest)).
    cbn [span]. by rewrite Hc, (IH Hm).
Qed.

Lemma strip_eq p s s' : strip p s = Some s' ↔ s = p +:+ s'.
Proof.
  revert s. induction p as [| c p IH]; intros s; cbn [strip].
  - split; [by intros [= ->] | by intros ->].
  - destruct s as [| a s].
    + split; [done | by intros [=]].
    + destruct (Ascii.eqb_spec c a) as [<- | Hne].
      * rewrite IH. split; [by intros -> | by intros [= ->]].
      * split; [done |]. intros [= -> _]. by destruct Hne.
Qed.

(** A pattern anchored at the start is tried at the start only. *)
Lemma search_anchored r s : search (AssertStart :: r) false s = false.
Proof. induction s as [| c s IH]; [done |]. by cbn. Qed.

Lemma regex_test_anchored r s :
  regex_test (AssertStart :: r) s = matches r true s.
Proof.
  unfold regex_test, matches. destruct s as [| c s]; cbn.
  - by destruct (match_atoms r true "") as [[ps rest] |].
  - destruct (match_atoms r true (String c s)) as [[ps rest] |]; [done |].
    apply search_anchored.
Qed.

Lemma matches_one c r bol s :
  matches (one c :: r) bol s =
  match s with
  | String a s' => Ascii.eqb c a && matches r false s'
  | EmptyString => false
  end.
Proof.
  unfold matches. rewrite match_one. destruct s as [| a s]; [done |].
  destruct (Ascii.eqb c a); [| done].
  by destruct (match_atoms r false s) as [[ps rest] |].
Qed.

Lemma matches_lit p r : ∀ bol s,
  matches (lit p ++ r) bol s =
  match strip p s with
  | Some s' => matches r (match p with EmptyString => bol | _ => false end) s'
  | None => false
  end.
Proof.
  induction p as [| c p IH]; intros bol s; [done |].
  cbn [lit app strip]. rewrite matches_one.
  destruct s as [| a s]; [done |].
  destruct (Ascii.eqb c a); [| done]. cbn [andb].
  rewrite IH. by destruct p.
Qed.

Lemma matches_end bol s :
  matches [AssertEnd] bol s = match s with EmptyString => true | _ => false end.
Proof. by destruct s. Qed.

(** A class repeated just once. *)
Lemma matches_class_once cls r bol s :
  matches (Chars cls 1 (Some 1%nat) :: r) bol s =
  match s with
  | String a s' => cls a && matches r false s'
  | EmptyString => false
  end.
Proof.
  unfold matches. destruct s as [| a s]; [done |]. cbn [match_atoms rep].
  destruct (cls a); [| done]. cbn [andb can_take Nat.pred fmap option_fmap option_map].
  destruct s as [| a' s]; cbn [rep].
  - by destruct (match_atoms r false "") as [[ps rest] |].
  - rewrite andb_false_r.
    by destruct (match_atoms r false (String a' s)) as [[ps rest] |].
Qed.

(** A class repeated up to the end of the input. *)
Lemma rep_end cls s : ∀ lo hi bol,
  rep cls (match_atoms [AssertEnd]) lo hi bol s =
  if all_chars cls s && (lo <=? String.length s)%nat && within hi (String.length s)
  then Some (s, [""], "") else None.
Proof.
  induction s as [| c s IH]; intros lo hi bol.
  - cbn. destruct lo; [| done]. by destruct hi.
  - cbn [rep all_chars String.length]. rewrite IH.
    destruct (cls c) eqn:Hc; cbn [andb]; [| by destruct lo].
    destruct hi as [[| h] |]; cbn [can_take within fmap option_fmap option_map Nat.pred].
    + rewrite andb_false_r. by destruct lo.
    + change (S (String.length s) <=? S h)%nat with (String.length s <=? h)%nat.
      assert ((Nat.pred lo <=? String.length s)%nat = (lo <=? S (String.length s))%nat)
        as -> by (by destruct lo).
      destruct (all_chars cls s && (lo <=? S (String.length s))%nat &&
                (String.length s <=? h)%nat); [done | by destruct lo].
    + assert ((Nat.pred lo <=? String.length s)%nat = (lo <=? S (String.length s))%nat)
        as -> by (by destruct lo).
      destruct (all_chars cls s && (lo <=? S (String.length s))%nat && true);
        [done | by destruct lo].
Qed.

Lemma matches_class_end cls lo hi bol s :
  matches [Chars cls lo hi; AssertEnd] bol s =
  all_chars cls s && (lo <=? String.length s)%nat && within hi (String.length s).
Proof.
  unfold matches. cbn [match_atoms]. rewrite rep_end.
  by destruct (all_chars cls s && (lo <=? String.length s)%nat &&
               within hi (String.length s)).
Qed.

(** A class followed by a continuation that accepts no text starting in the
    class: the class takes the longest prefix it can. *)
Lemma rep_delimited cls (k : bool → string → option (list string * string)) :
  (∀ b c s, cls c = true → k b (String c s) = None) →
  (∀ b1 b2 s, k b1 s = k b2 s) →
  ∀ s lo hi bol,
    rep cls k lo hi bol s =
    let '(m, rest) := span cls s in
    if (lo <=? String.length m)%nat && within hi (String.length m) then
      match k false rest with
      | Some (ps, r) => Some (m, ps, r)
      | None => None
      end
    else None.
Proof.
  intros Hk Hb s. induction s as [| c s IH]; intros lo hi bol.
  - cbn. destruct lo; [| done]. rewrite (Hb bol false).
    assert (within hi 0 = true) as -> by (by destruct hi as [[] |]). done.
  - cbn [rep span]. destruct (cls c) eqn:Hc; cbn [andb].
    + rewrite IH. destruct (span cls s) as [m rest]. cbn [String.length].
      rewrite (Hk bol c s Hc).
      destruct hi as [[| h] |];
        cbn [can_take within fmap option_fmap option_map Nat.pred].
      * rewrite andb_false_r. by destruct lo.
      * change (S (String.length m) <=? S h)%nat with (String.length m <=? h)%nat.
        assert ((Nat.pred lo <=? String.length m)%nat = (lo <=? S (String.length m))%nat)
          as -> by (by destruct lo).
        destruct ((lo <=? S (String.length m))%nat && (String.length m <=? h)%nat);
          [| by destruct lo].
        destruct (k false rest) as [[ps r] |]; [done | by destruct lo].
      * assert ((Nat.pred lo <=? String.length m)%nat = (lo <=? S (String.length m))%nat)
          as -> by (by destruct lo).
        destruct ((lo <=? S (String.length m))%nat && true); [| by destruct lo].
        destruct (k false rest) as [[ps r] |]; [done | by destruct lo].
    + cbn [String.length]. destruct lo; [| done]. cbn [Nat.leb andb].
      rewrite (Hb bol false).
      assert (within hi 0 = true) as -> by (by destruct hi as [[] |]). done.
Qed.

Lemma matches_class_delimited cls lo hi d r bol s :
  cls d = false →
  matches (Chars cls lo hi :: one d :: r) bol s =
  let '(m, rest) := span cls s in
  (lo <=? String.length m)%nat && within hi (String.length m) &&
  matches (one d :: r) false rest.
Proof.
  intros Hd. unfold matches.
  change (match_atoms (Chars cls lo hi :: one d :: r) bol s)
    with (match rep cls (match_atoms (one d :: r)) lo hi bol s with
          | Some (m, ps, rest) => Some (m :: ps, rest)
          | None => None
          end).
  rewrite (rep_delimited cls (match_atoms (one d :: r))).
  - destruct (span cls s) as [m rest].
    destruct ((lo <=? String.length m)%nat && within hi (String.length m)); [| done].
    cbn [andb]. by destruct (match_atoms (one d :: r) false rest) as [[ps r'] |].
  - intros b c s' Hc. rewrite match_one.
    destruct (Ascii.eqb_spec d c) as [-> | Hne]; [congruence | done].
  - intros b1 b2 s'. by rewrite !match_one.
Qed.

Lemma e164_test s : regex_test e164Pattern s = is_e164 s.
Proof.
  unfold e164Pattern. rewrite regex_test_anchored, matches_one.
  destruct s as [| a s]; [done |].
  destruct (Ascii.eqb_spec "+" a) as [<- | Ha].
  2: { cbn [andb is_e164]. by destruct a as [[] [] [] [] [] [] [] []]. }
  cbn [andb is_e164]. rewrite matches_class_once.
  destruct s as [| d ds]; [done |].
  rewrite matches_class_end. cbn [within].
  by rewrite !andb_assoc.
Qed.

(** X2.  The pattern of [validatePhoneNumbers] accepts exactly a plus sign,
    a digit from 1 to 9 and from one to fourteen further digits: a text of 3
    to 16 characters. *)
Theorem e164_grammar (s : string) :
  regex_test e164Pattern s = is_e164 s ∧
  (regex_test e164Pattern s = true → 3 ≤ String.length s ≤ 16)%nat.
Proof.
  split; [apply e164_test |]. rewrite e164_test.
  destruct s as [| a s]; [done |].
  destruct s as [| d ds]; [by destruct a as [[] [] [] [] [] [] [] []] |].
  cbn [String.length].
  destruct a as [[] [] [] [] [] [] [] []]; try done.
  cbn [is_e164]. intros H. apply andb_prop in H as [H Hhi]. apply andb_prop in H as [_ Hlo].
  apply Nat.leb_le in Hhi, Hlo. lia.
Qed.

Lemma arn_test s :
  regex_test arnPattern s =
  match strip "arn:aws:" s with
  | Some s1 =>
      let '(service, r1) := span alnum_dash s1 in
      match r1 with
      | String a1 s2 =>
          let '(region, r2) := span alnum_dash s2 in
          match r2 with
          | String a2 s3 =>
              let '(account, r3) := span digit s3 in
              match r3 with
              | String a3 resource =>
                  (1 <=? String.length service)%nat && Ascii.eqb ":" a1 &&
                  Ascii.eqb ":" a2 &&
                  ((12 <=? String.length account)%nat &&
                   (String.length account <=? 12)%nat) &&
                  Ascii.eqb ":" a3 &&
                  (all_chars alnum_dash_slash resource &&
                   (1 <=? String.length resource)%nat)
              | EmptyString => false
              end
          | EmptyString => false
          end
      | EmptyString => false
      end
  | None => false
  end.
Proof.
  unfold arnPattern. rewrite regex_test_anchored, matches_lit.
  destruct (strip "arn:aws:" s) as [s1 |]; [| done].
  rewrite matches_class_delimited by done.
  destruct (span alnum_dash s1) as [service r1]. cbn [within].
  rewrite matches_one. destruct r1 as [| a1 s2]; [by rewrite andb_false_r |].
  rewrite matches_class_delimited by done.
  destruct (span alnum_dash s2) as [region r2]. cbn [within Nat.leb].
  rewrite matches_one. destruct r2 as [| a2 s3]; [by rewrite !andb_false_r |].
  rewrite matches_class_delimited by done.
  destruct (span digit s3) as [account r3]. cbn [within].
  rewrite matches_one. destruct r3 as [| a3 resource]; [by rewrite !andb_false_r |].
  rewrite matches_class_end. cbn [within].
  rewrite !andb_true_r. cbn [andb]. by rewrite !andb_assoc.
Qed.

(** X3.  The pattern of [validateArns] accepts exactly the texts
    [arn:aws:<service>:<region>:<account>:<resource>] in which the service is
    a non-empty run of letters, digits and hyphens, the region a possibly
    empty such run, the account twelve digits and the resource a non-empty
    run of letters, digits, hyphens and slashes. *)
Theorem arn_grammar (s : string) :
  regex_test arnPattern s = true ↔
  ∃ service region account resource,
    s = "arn:aws:" +:+ service +:+ ":" +:+ region +:+ ":" +:+ account +:+ ":" +:+
        resource ∧
    service ≠ "" ∧ all_chars alnum_dash service = true ∧
    all_chars alnum_dash region = true ∧
    String.length account = 12%nat ∧ all_chars digit account = true ∧
    resource ≠ "" ∧ all_chars alnum_dash_slash resource = true.
Proof.
  rewrite arn_test. split.
  - destruct (strip "arn:aws:" s) as [s1 |] eqn:Hs; [| done].
    apply strip_eq in Hs as ->.
    destruct (span alnum_dash s1) as [service r1] eqn:H1.
    destruct r1 as [| a1 s2]; [done |].
    destruct (span alnum_dash s2) as [region r2] eqn:H2.
    destruct r2 as [| a2 s3]; [done |].
    destruct (span digit s3) as [account r3] eqn:H3.
    destruct r3 as [| a3 resource]; [done |].
    intros H.
    apply andb_prop in H as [H Hres]. apply andb_prop in Hres as [Hresource Hr].
    apply andb_prop in H as [H E3]. apply andb_prop in H as [H Hacc].
    apply andb_prop in Hacc as [Hacc1 Hacc2].
    apply andb_prop in H as [H E2]. apply andb_prop in H as [Hsvc E1].
    apply Ascii.eqb_eq in E1 as <-, E2 as <-, E3 as <-.
    apply Nat.leb_le in Hacc1, Hacc2.
    apply span_eq in H1 as [-> Hservice], H2 as [-> Hregion], H3 as [-> Haccount].
    exists service, region, account, resource.
    split; [done |]. split; [by destruct service |]. split; [done |].
    split; [done |]. split; [lia |]. split; [done |].
    split; [by destruct resource | done].
  - intros (service & region & account & resource & -> & Hs & Hservice & Hregion &
            Hlen & Haccount & Hr & Hresource).
    assert (strip "arn:aws:"
              ("arn:aws:" +:+ service +:+ ":" +:+ region +:+ ":" +:+ account +:+ ":" +:+
               resource)
            = Some (service +:+ ":" +:+ region +:+ ":" +:+ account +:+ ":" +:+ resource))
      as -> by (by apply strip_eq).
    rewrite (span_intro alnum_dash service) by done. cbn.
    rewrite (span_intro alnum_dash region) by done. cbn.
    rewrite (span_intro digit account) by done. cbn.
    rewrite Hlen, Hresource. cbn.
    destruct service; [done |]. by destruct resource.
Qed.

End Grammar.

(** ** The renderer: what passes the validation of a rendered flow *)

Module RenderedFlowChecks.
Import TemplateRenderer RenderedFlow RenderedFlowLoops NormalForm.

Lemma validatePhoneNumbers_arr l errors path :
  validatePhoneNumbers (JArr l) errors path =
  over_items validatePhoneNumbers path 0 l errors.
Proof. cbn [validatePhoneNumbers]. generalize 0%nat. revert errors.
  induction l as [| v l IH]; intros errors i; [done |]. cbn. apply IH. Qed.

Lemma validatePhoneNumbers_obj fields errors path :
  validatePhoneNumbers (JObj fields) errors path =
  over_fields validatePhoneNumbers path fields errors.
Proof. cbn [validatePhoneNumbers]. revert errors.
  induction fields as [| [k v] fields IH]; intros errors; [done |]. cbn. apply IH. Qed.

Lemma validateArns_arr l errors path :
  validateArns (JArr l) errors path = over_items validateArns path 0 l errors.
Proof. cbn [validateArns]. generalize 0%nat. revert errors.
  induction l as [| v l IH]; intros errors i; [done |]. cbn. apply IH. Qed.

Lemma validateArns_obj fields errors path :
  validateArns (JObj fields) errors path = over_fields validateArns path fields errors.
Proof. cbn [validateArns]. revert errors.
  induction fields as [| [k v] fields IH]; intros errors; [done |]. cbn. apply IH. Qed.

Section walks.
Context (visit : json → list string → string → list string).

Lemma over_items_app path l :
  Forall (appends visit) l →
  ∀ i errors, over_items visit path i l errors = errors ++ over_items visit path i l [].
Proof.
  induction 1 as [| value l Hvalue _ IHl]; intros i errors; cbn;
    [by rewrite app_nil_r |].
  rewrite IHl, (IHl _ (visit value [] _)), (Hvalue errors). by rewrite app_assoc.
Qed.

Lemma over_fields_app path fields :
  Forall (λ kv, appends visit kv.2) fields →
  ∀ errors, over_fields visit path fields errors =
            errors ++ over_fields visit path fields [].
Proof.
  induction 1 as [| [key value] fields Hvalue _ IHl]; intros errors; cbn;
    [by rewrite app_nil_r |].
  rewrite IHl, (IHl (visit value [] _)), (Hvalue errors). by rewrite app_assoc.
Qed.

(** When a loop records nothing, the walk records nothing on any item. *)
Lemma over_items_nil path l :
  Forall (appends visit) l →
  ∀ i, over_items visit path i l [] = [] →
  ∀ j v, l !! j = Some v → visit v [] (subpath path (string_of_nat (i + j))) = [].
Proof.
  induction 1 as [| value l Hvalue Hl IHl]; intros i Hnil j v Hj; [done |].
  cbn in Hnil. rewrite (over_items_app _ _ Hl) in Hnil.
  apply app_eq_nil in Hnil as [Hhere Hrest].
  destruct j as [| j]; cbn in Hj.
  - injection Hj as <-. by rewrite Nat.add_0_r.
  - rewrite <-Nat.add_succ_comm. by apply IHl.
Qed.

Lemma over_fields_nil path fields :
  Forall (λ kv, appends visit kv.2) fields →
  over_fields visit path fields [] = [] →
  ∀ k v, obj_get k fields = Some v → ∃ key, visit v [] (subpath path key) = [].
Proof.
  induction 1 as [| [key value] fields Hvalue Hl IHl]; intros Hnil k v Hk; [done |].
  cbn in Hnil. rewrite (over_fields_app _ _ Hl) in Hnil.
  apply app_eq_nil in Hnil as [Hhere Hrest].
  cbn in Hk. destruct (String.eqb key k).
  - injection Hk as <-. by exists key.
  - by eapply IHl.
Qed.

End walks.

Lemma validatePhoneNumbers_appends obj : appends validatePhoneNumbers obj.
Proof.
  induction obj as [| | | s | l IH | fields IH] using json_ind'; intros errors path;
    try by rewrite app_nil_r.
  - cbn [validatePhoneNumbers]. destruct (startsWith "+" s); [| by rewrite app_nil_r].
    destruct (negb _); [done | by rewrite app_nil_r].
  - rewrite !validatePhoneNumbers_arr. by apply over_items_app.
  - rewrite !validatePhoneNumbers_obj. by apply over_fields_app.
Qed.

Lemma validateArns_appends obj : appends validateArns obj.
Proof.
  induction obj as [| | | s | l IH | fields IH] using json_ind'; intros errors path;
    try by rewrite app_nil_r.
  - cbn [validateArns]. destruct (includes ":arn:aws:" s); [| by rewrite app_nil_r].
    destruct (negb _); [done | by rewrite app_nil_r].
  - rewrite !validateArns_arr. by apply over_items_app.
  - rewrite !validateArns_obj. by apply over_fields_app.
Qed.

Lemma Forall_appends (visit : json → list string → string → list string) :
  (∀ v, appends visit v) → ∀ l, Forall (appends visit) l.
Proof. intros H l. apply Forall_forall. auto. Qed.

Lemma Forall_appends_fields (visit : json → list string → string → list string) :
  (∀ v, appends visit v) →
  ∀ fields : list (string * json), Forall (λ kv, appends visit kv.2) fields.
Proof. intros H l. apply Forall_forall. auto. Qed.

(** A walk that records nothing has accepted every string of the tree. *)
Lemma validatePhoneNumbers_nil obj : ∀ path,
  validatePhoneNumbers obj [] path = [] →
  ∀ p s, lookup p obj = Some (JStr s) → startsWith "+" s = true →
         regex_test e164Pattern s = true.
Proof.
  induction obj as [| | | s0 | l IH | fields IH] using json_ind'; intros path Hnil p s;
    try (by destruct p as [| [] p]).
  - destruct p as [| [] p]; try done. cbn. intros [= <-] Hplus.
    cbn [validatePhoneNumbers] in Hnil. rewrite Hplus in Hnil.
    destruct (regex_test e164Pattern s0); [done |]. by cbn in Hnil.
  - destruct p as [| [k | i] p]; try done. cbn [lookup].
    destruct (l !! i) as [v |] eqn:Hi; [| done]. cbn.
    rewrite validatePhoneNumbers_arr in Hnil.
    pose proof (over_items_nil _ path l
                  (Forall_appends _ validatePhoneNumbers_appends l) 0 Hnil i v Hi) as Hv.
    rewrite Forall_forall in IH. eapply IH; [| exact Hv].
    by eapply list_elem_of_lookup_2.
  - destruct p as [| [k | i] p]; try done. cbn [lookup].
    destruct (obj_get k fields) as [v |] eqn:Hk; [| done]. cbn.
    rewrite validatePhoneNumbers_obj in Hnil.
    destruct (over_fields_nil _ path fields
                (Forall_appends_fields _ validatePhoneNumbers_appends fields)
                Hnil k v Hk) as [key Hv].
    rewrite Forall_forall in IH.
    apply (IH (k, v) (obj_get_Some _ _ _ Hk) _ Hv).
Qed.

Lemma validateArns_nil obj : ∀ path,
  validateArns obj [] path = [] →
  ∀ p s, lookup p obj = Some (JStr s) → includes ":arn:aws:" s = true →
         regex_test arnPattern s = true.
Proof.
  induction obj as [| | | s0 | l IH | fields IH] using json_ind'; intros path Hnil p s;
    try (by destruct p as [| [] p]).
  - destruct p as [| [] p]; try done. cbn. intros [= <-] Hplus.
    cbn [validateArns] in Hnil. rewrite Hplus in Hnil.
    destruct (regex_test arnPattern s0); [done |]. by cbn in Hnil.
  - destruct p as [| [k | i] p]; try done. cbn [lookup].
    destruct (l !! i) as [v |] eqn:Hi; [| done]. cbn.
    rewrite validateArns_arr in Hnil.
    pose proof (over_items_nil _ path l
                  (Forall_appends _ validateArns_appends l) 0 Hnil i v Hi) as Hv.
    rewrite Forall_forall in IH. eapply IH; [| exact Hv].
    by eapply list_elem_of_lookup_2.
  - destruct p as [| [k | i] p]; try done. cbn [lookup].
    destruct (obj_get k fields) as [v |] eqn:Hk; [| done]. cbn.
    rewrite validateArns_obj in Hnil.
    destruct (over_fields_nil _ path fields
                (Forall_appends_fields _ validateArns_appends fields)
                Hnil k v Hk) as [key Hv].
    rewrite Forall_forall in IH.
    apply (IH (k, v) (obj_get_Some _ _ _ Hk) _ Hv).
Qed.

Lemma checkRequired_app flowJson fields : ∀ errors errs,
  checkRequired flowJson fields errors = Ok errs →
  ∃ more, errs = errors ++ more ∧
          (more = [] →
           Forall (λ field, truthy_opt (get_property flowJson field) = true) fields).
Proof.
  induction fields as [| field fields IH]; intros errors errs; cbn [checkRequired].
  - intros [= <-]. exists []. by rewrite app_nil_r.
  - destruct (get flowJson field) as [value |] eqn:Hget; [| done].
    cbn [mbind result_bind]. intros Hrun.
    assert (value = get_property flowJson field) as ->.
    { unfold get in Hget. destruct flowJson; congruence. }
    destruct (truthy_opt (get_property flowJson field)) eqn:Htruthy; cbn [negb] in Hrun.
    + destruct (IH _ _ Hrun) as (more & -> & Hmore). exists more.
      split; [done |]. intros Hnil. constructor; auto.
    + destruct (IH _ _ Hrun) as (more & -> & Hmore).
      exists (("Missing required field: " +:+ field) :: more).
      split; [by rewrite <-app_assoc | done].
Qed.

(** X4.  A flow on which [validateRenderedFlow] returns normally has a
    truthy [name], [type] and [content]; its JSON text holds no token syntax;
    every string in it, at any depth of objects and arrays, that starts with
    a plus sign is an E.164 number, and every string that contains
    [:arn:aws:] matches the ARN pattern. *)
Theorem validated_flow (flowJson : json) (flowName : string) :
  validateRenderedFlow flowJson flowName = Ok () →
  Forall (λ field, truthy_opt (get_property flowJson field) = true)
         ["name"; "type"; "content"] ∧
  all_matches tokenPattern (JSON_stringify flowJson) = [] ∧
  (∀ p s, lookup p flowJson = Some (JStr s) → startsWith "+" s = true →
          is_e164 s = true) ∧
  (∀ p s, lookup p flowJson = Some (JStr s) → includes ":arn:aws:" s = true →
          regex_test arnPattern s = true).
Proof.
  unfold validateRenderedFlow.
  destruct (checkRequired flowJson requiredFields []) as [errs |] eqn:Hreq; [| done].
  cbn [mbind result_bind].
  destruct (checkRequired_app _ _ _ _ Hreq) as (more & -> & Hmore). cbn [app].
  rewrite validatePhoneNumbers_appends, validateArns_appends.
  set (tokens := all_matches tokenPattern (JSON_stringify flowJson)).
  set (arns := validateArns flowJson [] "").
  set (phones := validatePhoneNumbers flowJson [] "").
  destruct (0 <? length _)%nat eqn:Hlen; [done |]. intros _.
  apply Nat.ltb_ge in Hlen. apply Nat.le_0_r, length_zero_iff_nil in Hlen.
  apply app_eq_nil in Hlen as [Hlen Hphones].
  apply app_eq_nil in Hlen as [Hlen Harns].
  assert (more = [] ∧ tokens = []) as [-> Htokens].
  { destruct tokens; [by rewrite Hlen |]. by apply app_eq_nil in Hlen as [_ ?]. }
  split; [by apply Hmore |]. split; [done |]. split.
  - intros p s Hp Hplus. rewrite <-Grammar.e164_test.
    by eapply validatePhoneNumbers_nil.
  - intros p s Hp Harn. by eapply validateArns_nil.
Qed.

End RenderedFlowChecks.

(** ** The tokens the validator lists and the tokens the renderer resolves *)

Module TokenTree.
Import TemplateRenderer FlowValidator.









Lemma walk_None parts : walk None parts = None.
Proof. by destruct parts. Qed.






End TokenTree.

(** ** The normalizer: the shape of a normalized document *)

Module NormalizerShape.
Import FlowNormalizer NormalForm NormalizerPasses NormalizerFacts NormalizerClaims.

(** Below the root of a normalized document every value is normal. *)
Lemma normal_root_lookup p v u :
  normal_root v → lookup p v = Some u → p ≠ [] → normal u.
Proof.
  intros Hn Hl Hp. destruct p as [| s p]; [done |].
  destruct s as [k | i]; destruct v as [| | | | l | fs]; try done; cbn in Hl.
  - destruct (obj_get k fs) as [v' |] eqn:Hget; [| done]. cbn in Hl.
    eapply lookup_normal; [| exact Hl].
    inversion Hn as [| | | | fs' _ _ _ _ Hall]; subst.
    rewrite Forall_forall in Hall. by apply (Hall (k, v')), obj_get_Some.
  - destruct (l !! i) as [v' |] eqn:Hget; [| done]. cbn in Hl.
    eapply lookup_normal; [| exact Hl].
    inversion Hn as [| | | l' Hall |]; subst.
    rewrite Forall_forall in Hall. apply Hall. by eapply list_elem_of_lookup_2.
Qed.


(** X7.  The result of [normalize] holds none of the fields
    [lastModifiedTime], [createdTime], [lastModifiedBy], [createdBy] and
    [version], at any depth. *)
Theorem normalize_removes_metadata (t v : json) (p : list step) (k : string) :
  wf t = true →
  normalize t = Ok v →
  k ∈ fieldsToRemove →
  lookup (p ++ [Key k]) v = None.
Proof.
  intros Hwf Hrun Hk. pose proof (normalize_normal_root _ _ Hwf Hrun) as Hn.
  destruct (lookup (p ++ [Key k]) v) as [u |] eqn:Hl; [| done].
  apply lookup_snoc in Hl as (fields & Hobj & Hget).
  assert (Forall (λ kv, kv.1 ∉ fieldsToRemove) fields) as Hmeta.
  { destruct p as [| s p].
    - cbn in Hobj. injection Hobj as ->. by inversion Hn.
    - pose proof (normal_root_lookup _ _ _ Hn Hobj ltac:(done)) as Hnormal.
      by inversion Hnormal. }
  rewrite Forall_forall in Hmeta. by destruct (Hmeta _ (obj_get_Some _ _ _ Hget)).
Qed.

(** X8.  Below the root of the result of [normalize] no field of an object
    is [null] or an empty array, and no item of an array is [null]. *)
Theorem normalize_prunes (t v u : json) (p : list step) (s : step) :
  wf t = true →
  normalize t = Ok v →
  p ≠ [] →
  lookup (p ++ [s]) v = Some u →
  u ≠ JNull ∧ (∀ k, s = Key k → u ≠ JArr []).
Proof.
  intros Hwf Hrun Hp Hl. pose proof (normalize_normal_root _ _ Hwf Hrun) as Hn.
  assert (∃ parent, lookup p v = Some parent ∧ lookup [s] parent = Some u)
    as (parent & Hparent & Hchild).
  { clear Hn Hrun Hp. revert v Hl. induction p as [| s' p IH]; intros v Hl.
    - by exists v.
    - destruct s' as [k | i]; destruct v as [| | | | l | fs]; try done; cbn in *.
      + destruct (obj_get k fs) as [v' |]; [| done]. cbn in *. by apply IH.
      + destruct (l !! i) as [v' |]; [| done]. cbn in *. by apply IH. }
  pose proof (normal_root_lookup _ _ _ Hn Hparent Hp) as Hnormal.
  destruct s as [k | i]; destruct parent as [| | | | l | fs]; try done; cbn in Hchild.
  - destruct (obj_get k fs) as [v' |] eqn:Hget; [| done]. cbn in Hchild.
    injection Hchild as ->.
    inversion Hnormal as [| | | | | fs' _ _ _ _ Hkept _]; subst.
    rewrite Forall_forall in Hkept.
    pose proof (Hkept _ (obj_get_Some _ _ _ Hget)) as Hu. unfold kept, keep in Hu.
    cbn in Hu. split; [by intros -> | by intros k' _ ->].
  - destruct (l !! i) as [v' |] eqn:Hget; [| done]. cbn in Hchild.
    injection Hchild as ->.
    inversion Hnormal as [| | | | l' _ Hnonnull |]; subst.
    rewrite Forall_forall in Hnonnull. split; [| done].
    apply Hnonnull. by eapply list_elem_of_lookup_2.
Qed.








End NormalizerShape.

(** ** The validator: what is recorded, what is thrown *)

Module ValidatorChecks.
Import FlowValidator ValidatorOutcome ValidatorGrowth ValidatorTokens InstanceConsistency.

(** *** Methods that touch one list only *)

Lemma keeps_errors_ret {A} (a : A) : keeps_errors (mret a).
Proof. done. Qed.

Lemma keeps_errors_lift {A} (r : result A) : keeps_errors (lift r).
Proof. done. Qed.

Lemma keeps_errors_addWarning message : keeps_errors (addWarning message).
Proof. done. Qed.

Lemma keeps_errors_bind {A B} (m : M A) (f : A → M B) :
  keeps_errors m → (∀ a, keeps_errors (f a)) → keeps_errors (m ≫= f).
Proof.
  intros Hm Hf st. unfold mbind, M_bind. specialize (Hm st).
  destruct (m st) as [st' [a | e]]; cbn in *; [| done].
  by rewrite Hf.
Qed.

Lemma keeps_errors_forEach {A} (f : A → M unit) l :
  (∀ x, keeps_errors (f x)) → keeps_errors (forEach f l).
Proof.
  intros Hf. induction l as [| x l IH]; [done |].
  cbn [forEach]. apply keeps_errors_bind; [apply Hf | by intros []].
Qed.

Lemma keeps_warnings_ret {A} (a : A) : keeps_warnings (mret a).
Proof. done. Qed.

Lemma keeps_warnings_lift {A} (r : result A) : keeps_warnings (lift r).
Proof. done. Qed.

Lemma keeps_warnings_addError message : keeps_warnings (addError message).
Proof. done. Qed.

Lemma keeps_warnings_bind {A B} (m : M A) (f : A → M B) :
  keeps_warnings m → (∀ a, keeps_warnings (f a)) → keeps_warnings (m ≫= f).
Proof.
  intros Hm Hf st. unfold mbind, M_bind. specialize (Hm st).
  destruct (m st) as [st' [a | e]]; cbn in *; [| done].
  by rewrite Hf.
Qed.

Lemma keeps_warnings_forEach {A} (f : A → M unit) l :
  (∀ x, keeps_warnings (f x)) → keeps_warnings (forEach f l).
Proof.
  intros Hf. induction l as [| x l IH]; [done |].
  cbn [forEach]. apply keeps_warnings_bind; [apply Hf | by intros []].
Qed.

Ltac keeps :=
  repeat first
    [ apply keeps_errors_ret | apply keeps_errors_lift | apply keeps_errors_addWarning
    | apply keeps_warnings_ret | apply keeps_warnings_lift
    | apply keeps_warnings_addError
    | match goal with
      | |- keeps_errors (if ?b then _ else _) => destruct b
      | |- keeps_warnings (if ?b then _ else _) => destruct b
      end
    | apply keeps_errors_bind; [| intros ?; cbv beta]
    | apply keeps_warnings_bind; [| intros ?; cbv beta]
    | apply keeps_errors_forEach; intros ?; cbv beta
    | apply keeps_warnings_forEach; intros ?; cbv beta
    | match goal with
      | |- keeps_errors (match ?x with _ => _ end) => destruct x
      | |- keeps_warnings (match ?x with _ => _ end) => destruct x
      end ].

Lemma validateConsistentRegion_keeps_errors config envPath :
  keeps_errors (validateConsistentRegion config envPath).
Proof. unfold validateConsistentRegion. keeps. Qed.

Lemma validateFlowStructure_keeps_errors templateContent flowName :
  keeps_errors (validateFlowStructure templateContent flowName).
Proof. unfold validateFlowStructure. keeps. Qed.

Lemma validateInstanceConsistency_keeps_warnings config envPath :
  keeps_warnings (validateInstanceConsistency config envPath).
Proof. unfold validateInstanceConsistency. keeps. Qed.

(** X11.  A mismatch of regions and the heuristics on the shape of a flow
    never fail a validation: [validateConsistentRegion] and
    [validateFlowStructure] leave the list of errors as it is, whether they
    return or throw.  [validateInstanceConsistency] in turn leaves the list
    of warnings as it is. *)
Theorem warnings_never_block :
  (∀ config envPath, keeps_errors (validateConsistentRegion config envPath)) ∧
  (∀ templateContent flowName,
     keeps_errors (validateFlowStructure templateContent flowName)) ∧
  (∀ config envPath, keeps_warnings (validateInstanceConsistency config envPath)).
Proof.
  split; [| split].
  - apply validateConsistentRegion_keeps_errors.
  - apply validateFlowStructure_keeps_errors.
  - apply validateInstanceConsistency_keeps_warnings.
Qed.

(** *** Environment files that are missing *)

(** X12.  When none of [dev.yaml], [test.yaml] and [prod.yaml] exists in the
    environment directory, [validateEnvironmentConfigs] records exactly the
    three errors [Environment file not found], in this order, and
    [validateAll] does not return [true]. *)
Theorem missing_environment_files (w : node) (flowsDir envDir : string) (st : validator) :
  (∀ envFile, envFile ∈ envFiles → pathExists w (path_join w envDir envFile) = false) →
  validateEnvironmentConfigs w envDir st =
    (add_errors ["Environment file not found: dev.yaml";
                 "Environment file not found: test.yaml";
                 "Environment file not found: prod.yaml"] st, Ok ()) ∧
  (validateAll w flowsDir envDir st).2 ≠ Ok true.
Proof.
  intros Hmissing.
  assert (validateEnvironmentConfigs w envDir st =
          (add_errors ["Environment file not found: dev.yaml";
                       "Environment file not found: test.yaml";
                       "Environment file not found: prod.yaml"] st, Ok ())) as Hrun.
  { unfold validateEnvironmentConfigs, envFiles. cbn [forEach].
    unfold config_step, mbind, M_bind. cbv zeta.
    rewrite !Hmissing by (unfold envFiles; set_solver).
    rewrite !addError_eq, !add_errors_app. done. }
  split; [done |]. eapply validateAll_after_configs; [exact Hrun |].
  cbn. by destruct (errors st).
Qed.

(** *** Methods that never throw *)

Lemma returns_unit_forEach {A} (f : A → M unit) l :
  (∀ x, returns_unit (f x)) → returns_unit (forEach f l).
Proof.
  intros Hf. induction l as [| x l IH]; intros st; [by eexists |].
  cbn [forEach]. unfold mbind, M_bind.
  destruct (Hf x st) as [st' ->]. apply IH.
Qed.

Lemma returns_unit_try_catch (body : M unit) (h : exn → M unit) :
  (∀ e, returns_unit (h e)) → returns_unit (try_catch body h).
Proof. intros Hh st. apply try_catch_returns. intros e st'. apply Hh. Qed.

Lemma returns_unit_addError message : returns_unit (addError message).
Proof. intros st. by eexists. Qed.

Lemma validateEnvironmentConfigs_returns w envDir :
  returns_unit (validateEnvironmentConfigs w envDir).
Proof.
  apply returns_unit_forEach. intros envFile st. apply config_step_returns.
Qed.

Lemma validateFlowDirectory_returns w flowDir flowName :
  returns_unit (validateFlowDirectory w flowDir flowName).
Proof.
  unfold validateFlowDirectory. cbv zeta. destruct (negb _).
  - apply returns_unit_addError.
  - apply returns_unit_try_catch. intros e. apply returns_unit_addError.
Qed.

Lemma validateTokensInEnvironment_returns w envPath usedTokens envFile :
  returns_unit (validateTokensInEnvironment w envPath usedTokens envFile).
Proof. apply returns_unit_try_catch. intros e. apply returns_unit_addError. Qed.

Lemma validateFlowTemplates_outcome w flowsDir st :
  ∃ st', validateFlowTemplates w flowsDir st = (st', Ok ()) ∨
         ∃ e, pathExists w flowsDir = true ∧ readdir w flowsDir = Throw e ∧
              validateFlowTemplates w flowsDir st = (st', Throw e).
Proof.
  unfold validateFlowTemplates. destruct (pathExists w flowsDir); cbn [negb].
  - destruct (readdir w flowsDir) as [entries | e] eqn:Hdir.
    + rewrite bind_lift_ok.
      destruct (returns_unit_forEach
                  (λ entry, if d_isDirectory entry
                            then validateFlowDirectory w
                                   (path_join w flowsDir (d_name entry)) (d_name entry)
                            else mret ()) entries) with (st := st) as [st' Hrun].
      { intros entry. destruct (d_isDirectory entry).
        - apply validateFlowDirectory_returns.
        - intros st0. by eexists. }
      exists st'. by left.
    + exists st. right. by exists e.
  - eexists. by left.
Qed.

Lemma validateTokenCompleteness_outcome w flowsDir envDir st :
  match collectUsedTokens w flowsDir with
  | Ok _ => ∃ st', validateTokenCompleteness w flowsDir envDir st = (st', Ok ())
  | Throw e => validateTokenCompleteness w flowsDir envDir st = (st, Throw e)
  end.
Proof.
  unfold validateTokenCompleteness.
  destruct (collectUsedTokens w flowsDir) as [usedTokens | e]; [| done].
  rewrite bind_lift_ok. apply returns_unit_forEach. intros envFile. cbv zeta.
  destruct (pathExists w _).
  - apply validateTokensInEnvironment_returns.
  - intros st0. by eexists.
Qed.

Lemma validateAll_outcome w flowsDir envDir st :
  match collectUsedTokens w flowsDir with
  | Ok _ => ∃ st' b, validateAll w flowsDir envDir st = (st', Ok b)
  | Throw e => ∃ st', validateAll w flowsDir envDir st = (st', Throw e)
  end.
Proof.
  unfold validateAll, reportResults, no_errors, mbind, M_bind, mret, M_ret.
  destruct (validateEnvironmentConfigs_returns w envDir st) as [st1 ->].
  destruct (validateFlowTemplates_outcome w flowsDir st1)
    as [st2 [-> | (e & Hexists & Hdir & ->)]].
  - pose proof (validateTokenCompleteness_outcome w flowsDir envDir st2) as Hcomplete.
    destruct (collectUsedTokens w flowsDir) as [usedTokens | e].
    + destruct Hcomplete as [st3 ->]. by eexists _, _.
    + rewrite Hcomplete. by eexists.
  - unfold collectUsedTokens. rewrite Hdir. cbn. by eexists.
Qed.

(** X13.  [validateAll] throws exactly when the scan of the templates for
    tokens fails, that is when the flows directory or a template in it
    cannot be read, and then with the error of that read; every other
    failure is recorded as an error and [validateAll] returns [true] or
    [false]. *)
Theorem validateAll_throws (w : node) (flowsDir envDir : string) (st : validator)
    (e : exn) :
  (validateAll w flowsDir envDir st).2 = Throw e ↔ collectUsedTokens w flowsDir = Throw e.
Proof.
  pose proof (validateAll_outcome w flowsDir envDir st) as Hout.
  destruct (collectUsedTokens w flowsDir) as [usedTokens | e'].
  - destruct Hout as (st' & b & ->). done.
  - destruct Hout as (st' & ->). cbn. split; congruence.
Qed.

(** X14.  When the flows directory does not exist, so that it cannot be
    listed, [validateAll] records [Flows directory not found] and then
    throws the error of the listing instead of returning [false]: the scan
    for tokens lists the directory without a test of its existence. *)
Theorem missing_flows_directory (w : node) (flowsDir envDir : string) (st : validator)
    (e : exn) :
  pathExists w flowsDir = false →
  readdir w flowsDir = Throw e →
  ∃ st', validateAll w flowsDir envDir st = (st', Throw e) ∧
         ("Flows directory not found: " +:+ flowsDir) ∈ errors st'.
Proof.
  intros Hexists Hdir.
  unfold validateAll, reportResults, no_errors, mbind, M_bind, mret, M_ret.
  destruct (validateEnvironmentConfigs_returns w envDir st) as [st1 ->].
  unfold validateFlowTemplates. rewrite Hexists. cbn [negb]. rewrite addError_eq.
  unfold validateTokenCompleteness, collectUsedTokens. rewrite Hdir.
  eexists. split; [done |]. cbn. set_solver.
Qed.

(** *** The check of the tokens against one environment map *)



(** *** One flow directory *)

Lemma validateTokenUsage_nothing templateContent flowName st :
  validateTokenUsage templateContent flowName st = (st, Ok ()).
Proof.
  unfold validateTokenUsage, all_matches. by rewrite tokenPattern_scan.
Qed.

(** X16.  [validateFlowDirectory] by cases.  Without a template it records
    [Flow template not found].  A template that is not JSON and holds no
    [${] gets the one error [Invalid JSON] and is looked at no further.
    Every other template that can be read, one that is not JSON but holds
    [${] included, gets no error at all, only the warnings of
    [validateFlowStructure]. *)
Theorem validateFlowDirectory_cases (w : node) (flowDir flowName : string)
    (st : validator) :
  let templateFile := path_join w flowDir "flow.json.tmpl" in
  (pathExists w templateFile = false →
   validateFlowDirectory w flowDir flowName st =
   (add_errors ["Flow template not found: " +:+ flowName +:+ "/flow.json.tmpl"] st,
    Ok ())) ∧
  (∀ templateContent parseError,
     pathExists w templateFile = true →
     readFile w templateFile = Ok templateContent →
     JSON_parse w templateContent = Throw parseError →
     includes "${" templateContent = false →
     validateFlowDirectory w flowDir flowName st =
     (add_errors ["Invalid JSON in flow template " +:+ flowName +:+ ": " +:+
                  exn_message parseError] st, Ok ())) ∧
  (∀ templateContent,
     pathExists w templateFile = true →
     readFile w templateFile = Ok templateContent →
     is_ok (JSON_parse w templateContent) = true ∨
       includes "${" templateContent = true →
     validateFlowDirectory w flowDir flowName st =
     validateFlowStructure templateContent flowName st ∧
     errors (validateFlowDirectory w flowDir flowName st).1 = errors st).
Proof.
  cbv zeta. split; [| split].
  - intros Hexists. unfold validateFlowDirectory. cbv zeta. by rewrite Hexists.
  - intros templateContent parseError Hexists Hread Hparse Hdollar.
    unfold validateFlowDirectory. cbv zeta. rewrite Hexists. cbn [negb].
    unfold try_catch. rewrite Hread, bind_lift_ok. cbv beta.
    rewrite Hparse, Hdollar. done.
  - intros templateContent Hexists Hread Hok.
    assert (∀ st0, (validateTokenUsage templateContent flowName ≫=
                    λ _, validateFlowStructure templateContent flowName) st0 =
                   validateFlowStructure templateContent flowName st0) as Hchecks.
    { intros st0. unfold mbind, M_bind. by rewrite validateTokenUsage_nothing. }
    assert (∃ st', validateFlowStructure templateContent flowName st = (st', Ok ()))
      as [st' Hstructure].
    { unfold validateFlowStructure.
      destruct (returns_unit_forEach
                  (λ element,
                     if negb (includes element templateContent)
                     then addWarning ("Flow " +:+ flowName +:+ " may be missing " +:+
                                      element +:+ " block")
                     else mret ())
                  ["StartFlowExecution"; "DisconnectParticipant"]) with (st := st)
        as [st1 Hloop].
      { intros element st0. destruct (negb _); by eexists. }
      unfold mbind at 1, M_bind at 1. rewrite Hloop.
      destruct (_ && _); by eexists. }
    assert (validateFlowDirectory w flowDir flowName st =
            validateFlowStructure templateContent flowName st) as Heq.
    { unfold validateFlowDirectory. cbv zeta. rewrite Hexists. cbn [negb].
      unfold try_catch. rewrite Hread, bind_lift_ok. cbv beta.
      destruct (JSON_parse w templateContent) as [parsed | parseError].
      - by rewrite Hchecks, Hstructure.
      - destruct Hok as [Hok | Hdollar]; [done |]. rewrite Hdollar. cbn [negb].
        by rewrite Hchecks, Hstructure. }
    split; [exact Heq |]. rewrite Heq.
    apply validateFlowStructure_keeps_errors.
Qed.

(** *** Every mismatch of the instance counts *)

(** X17.  [validateInstanceConsistency] records one error for each token of
    the categories [Queue], [Prompt] and [Lex], in this order, whose value
    is a string that contains [arn:aws:connect:] and [/instance/] but not
    [/instance/] followed by the configured instance id; it records nothing
    else, and nothing at all when there is no such token. *)
Theorem instance_mismatches_recorded (config : json) (envPath : string)
    (connect instanceId : option json) (tokens : json) (st : validator) :
  get config "connect" = Ok connect →
  get_opt connect "instance_id" = Ok instanceId →
  get config "tokens" = Ok (Some tokens) →
  truthy tokens = true →
  let mismatches := filter (λ kv, flagged instanceId kv.2 = true) (scanned tokens) in
  validateInstanceConsistency config envPath st =
    (add_errors (map (λ kv, mismatch_message envPath kv.1) mismatches) st, Ok ()) ∧
  length (errors (validateInstanceConsistency config envPath st).1) =
    (length (errors st) + length mismatches)%nat ∧
  (mismatches = [] → validateInstanceConsistency config envPath st = (st, Ok ())).
Proof.
  intros Hconnect Hid Htokens Htruthy. cbv zeta.
  rewrite (validateInstanceConsistency_records _ _ _ _ _ _ Hconnect Hid Htokens Htruthy).
  split; [done |]. split.
  - cbn. by rewrite length_app, length_map.
  - intros ->. by rewrite add_errors_nil.
Qed.

End ValidatorChecks.

(** ** The deployment handler: responses, permissions, modes of an update *)

Module HandlerRunsFacts.
Import ConnectFlowHandler HandlerRuns HandlerFacts.



Lemma all_rets_returns {A} (P : A → Prop) (m : prog A) a :
  all_rets P m → returns m a → P a.
Proof.
  intros Hall Hr. induction Hr as [a | c k r a _ IH].
  - by inversion Hall.
  - inversion Hall; subst. by apply IH.
Qed.

Lemma all_rets_bind {A B} (P : B → Prop) (f : A → prog B) (m : prog A) :
  (∀ a, all_rets P (f a)) → all_rets P (m ≫= f).
Proof.
  intros Hf. induction m as [a | e | c k IH]; cbn.
  - apply Hf.
  - constructor.
  - constructor. intros r. apply IH.
Qed.

Lemma all_rets_try_catch {A} (P : A → Prop) (m : prog A) h :
  all_rets P m → (∀ e, all_rets P (h e)) → all_rets P (try_catch m h).
Proof.
  intros Hm Hh. induction Hm as [a Ha | e | c k _ IH]; cbn.
  - by constructor.
  - apply Hh.
  - constructor. intros r. apply IH.
Qed.


(** *** Permissions *)


Lemma permissions_app cs cs' : permissions (cs ++ cs') = permissions cs ++ permissions cs'.
Proof. unfold permissions. by rewrite flat_map_app. Qed.



(** *** The two modes of an update *)

Lemma setupLambdaPermissions_keeps_flows lambdaArns instanceArn :
  all_calls asks_permission (setupLambdaPermissions lambdaArns instanceArn).
Proof.
  induction lambdaArns as [| lambdaArn lambdaArns IH]; cbn [setupLambdaPermissions].
  - constructor.
  - apply all_calls_bind; [| intros; exact IH].
    apply all_calls_try_catch; [| intros; constructor].
    apply all_calls_bind; [by apply all_calls_await | intros now].
    apply all_calls_bind; [by apply all_calls_await | intros; constructor].
Qed.



(** X21.  The response to an [Update] event carries the physical resource id
    of the event in both modes: when the update has created a flow in
    Blue/Green mode, the ARN of that flow is not reported. *)
Theorem update_reports_old_id (ev : event) (r : response) :
  RequestType ev = "Update" →
  returns (handler ev) r →
  Status r = "SUCCESS" →
  r = success (PhysicalResourceId ev)
        [("ContactFlowArn", default "undefined" (PhysicalResourceId ev));
         ("FlowName", FlowName (ResourceProperties ev))].
Proof.
  intros Hty Hr Hstatus. revert Hstatus.
  assert (all_rets
            (λ r, Status r = "SUCCESS" →
                  r = success (PhysicalResourceId ev)
                        [("ContactFlowArn", default "undefined" (PhysicalResourceId ev));
                         ("FlowName", FlowName (ResourceProperties ev))])
            (handler ev)) as Hall; [| exact (all_rets_returns _ _ _ Hall Hr)].
  unfold handler. rewrite Hty. cbn [String.eqb Ascii.eqb Bool.eqb].
  apply all_rets_try_catch.
  - apply all_rets_bind. intros _. by constructor.
  - intros e. by constructor.
Qed.

(** X22.  On a [Create] event with a release tag the handler creates the
    flow under the versioned name [FlowName-ReleaseTag], in the instance and
    with the content of the event and tagged with the release; no run
    updates, describes or deletes a flow. *)
Theorem create_is_versioned (ev : event) :
  RequestType ev = "Create" →
  ReleaseTag (ResourceProperties ev) ≠ "" →
  all_calls (creates_versioned (ResourceProperties ev)) (handler ev).
Proof.
  intros Hty Htag. unfold handler. rewrite Hty. cbn [String.eqb Ascii.eqb Bool.eqb].
  apply String.eqb_neq in Htag.
  apply all_calls_try_catch; [| intros; constructor].
  apply all_calls_bind; [| intros; constructor].
  unfold handleCreate. rewrite Htag.
  apply all_calls_bind.
  { eapply all_calls_impl; [| apply setupLambdaPermissions_keeps_flows].
    by intros []. }
  intros _. cbn [mbind prog_bind bind].
  apply all_calls_bind; [by apply all_calls_await | intros environment].
  apply all_calls_bind; [by apply all_calls_await | intros deployedAt].
  apply all_calls_bind; [| intros; apply all_calls_lift].
  apply all_calls_await. cbn. unfold or_else. by rewrite Htag.
Qed.

End HandlerRunsFacts.

(** ** What a match is made of *)

Module Matcher.

Lemma matched_cons m ps : matched (m :: ps) = m +:+ matched ps.
Proof. done. Qed.

Lemma rep_sound cls (k : bool → string → option (list string * string)) :
  (∀ b s ps r, k b s = Some (ps, r) → s = matched ps +:+ r) →
  ∀ s lo hi bol m ps rest,
    rep cls k lo hi bol s = Some (m, ps, rest) →
    s = m +:+ matched ps +:+ rest ∧ all_chars cls m = true ∧
    (lo ≤ String.length m)%nat.
Proof.
  intros Hk s. induction s as [| c s IH]; intros lo hi bol m ps rest; cbn [rep].
  - destruct lo; [| done]. destruct (k bol "") as [[ps' r] |] eqn:Hk0; [| done].
    intros [= <- <- <-]. split; [by apply Hk in Hk0 |]. split; [done | cbn; lia].
  - assert (match lo with
            | 0%nat => match k bol (String c s) with
                   | Some (ps0, r) => Some ("", ps0, r)
                   | None => None
                   end
            | S _ => None
            end = Some (m, ps, rest) →
            String c s = m +:+ matched ps +:+ rest ∧ all_chars cls m = true ∧
            (lo ≤ String.length m)%nat) as Hstop.
    { destruct lo; [| done].
      destruct (k bol (String c s)) as [[ps' r] |] eqn:Hk0; [| done].
      intros [= <- <- <-]. split; [by apply Hk in Hk0 |]. split; [done | cbn; lia]. }
    destruct (cls c && can_take hi) eqn:Hc; [| exact Hstop].
    destruct (rep cls k (Nat.pred lo) (Nat.pred <$> hi) false s)
      as [[[m' ps'] r] |] eqn:Hrep; [| exact Hstop].
    intros [= <- <- <-]. apply IH in Hrep as (-> & Hm & Hlo).
    apply andb_prop in Hc as [Hc _]. split; [done |]. split.
    + cbn [all_chars]. by rewrite Hc, Hm.
    + cbn [String.length]. lia.
Qed.


(** Every match of a scan is a match of the pattern at some place. *)
Lemma scan_sound r s : ∀ bol skip ps,
  ps ∈ scan r bol skip s → ∃ b t rest, match_atoms r b t = Some (ps, rest).
Proof.
  induction s as [| c s IH]; intros bol skip ps.
  - destruct skip; cbn [scan]; [| by intros ?%elem_of_nil].
    destruct (match_atoms r bol "") as [[qs rest] |] eqn:Hm; [| by intros ?%elem_of_nil].
    intros ->%list_elem_of_singleton. by eexists _, _, _.
  - destruct skip as [| k]; cbn [scan]; [| apply IH].
    destruct (match_atoms r bol (String c s)) as [[qs rest] |] eqn:Hm; [| apply IH].
    intros [-> | Hin]%elem_of_cons; [by eexists _, _, _ | by eapply IH].
Qed.



End Matcher.

(** ** The Lambda ARNs of a flow *)

Module ConnectFlowStackFacts.
Import FlowValidator ConnectFlowStack Matcher Grammar.

Lemma match_lit_matched p r : ∀ bol s ps rest,
  match_atoms (lit p ++ r) bol s = Some (ps, rest) →
  ∃ b s' ps', match_atoms r b s' = Some (ps', rest) ∧ matched ps = p +:+ matched ps'.
Proof.
  induction p as [| c p IH]; intros bol s ps rest.
  - intros Hm. by exists bol, s, ps.
  - cbn [lit app]. rewrite match_one. destruct s as [| a s]; [done |].
    destruct (Ascii.eqb_spec c a) as [<- | Hne]; [| done].
    destruct (match_atoms (lit p ++ r) false s) as [[qs rest'] |] eqn:Hm; [| done].
    intros [= <- <-]. destruct (IH _ _ _ _ Hm) as (b & s' & ps' & Hr & Hps).
    exists b, s', ps'. split; [done |]. by rewrite matched_cons, Hps.
Qed.

(** The last atom of a pattern has nothing after it. *)
Lemma rep_last cls s : ∀ lo hi bol m qs rest,
  rep cls (match_atoms []) lo hi bol s = Some (m, qs, rest) → qs = [].
Proof.
  induction s as [| c s IH]; intros lo hi bol m qs rest; cbn [rep].
  - destruct lo; [| done]. cbn. congruence.
  - destruct (cls c && can_take hi).
    + destruct (rep cls (match_atoms []) (Nat.pred lo) (Nat.pred <$> hi) false s)
        as [[[m' qs'] r] |] eqn:Hrep.
      * intros H. assert (qs' = qs) as <- by congruence. by eapply IH.
      * destruct lo; [| done]. cbn. congruence.
    + destruct lo; [| done]. cbn. congruence.
Qed.

Lemma set_add_fold (l : list string) : ∀ acc,
  NoDup acc →
  NoDup (fold_left (λ acc x, set_add x acc) l acc) ∧
  ∀ x, x ∈ fold_left (λ acc x, set_add x acc) l acc → x ∈ acc ∨ x ∈ l.
Proof.
  induction l as [| y l IH]; intros acc Hacc; cbn [fold_left].
  - split; [done | by left].
  - assert (NoDup (set_add y acc) ∧ ∀ x, x ∈ set_add y acc → x ∈ acc ∨ x = y)
      as [Hnd Hin].
    { unfold set_add. case_bool_decide as Hy.
      - split; [done | by left].
      - split.
        + apply NoDup_app. split; [done |]. split; [| apply NoDup_singleton].
          intros x Hx ->%list_elem_of_singleton. done.
        + intros x [Hx | ->%list_elem_of_singleton]%elem_of_app; [by left | by right]. }
    destruct (IH _ Hnd) as [Hres Hsub]. split; [done |].
    intros x Hx. destruct (Hsub x Hx) as [Hx' | Hx'].
    + destruct (Hin x Hx') as [? | ->]; [by left | right; apply list_elem_of_here].
    + right. by apply list_elem_of_further.
Qed.

(** X23.  [extractLambdaArns] returns pairwise distinct texts, each the
    text arn:aws:lambda: followed by one or more characters none of which is
    a double quote, a backslash or the letter s: the class of the pattern
    excludes the letter s, so that an extracted text ends before the first s
    that follows the prefix. *)
Theorem extracted_lambda_arns (flowContent : json) :
  NoDup (extractLambdaArns flowContent) ∧
  ∀ arn, arn ∈ extractLambdaArns flowContent →
         ∃ body, arn = "arn:aws:lambda:" +:+ body ∧ body ≠ "" ∧
                 all_chars lambdaArnChar body = true ∧
                 includes "s" body = false.
Proof.
  unfold extractLambdaArns. cbv zeta.
  set (found := all_matches lambdaArnPattern (JSON_stringify flowContent)).
  assert (fold_left (λ lambdaArns ps, set_add (matched ps) lambdaArns) found [] =
          fold_left (λ acc x, set_add x acc) (map matched found) []) as ->.
  { generalize (@nil string). induction found as [| ps found IH]; intros acc; [done |].
    cbn. apply IH. }
  destruct (set_add_fold (map matched found) [] (NoDup_nil_2)) as [Hnd Hsub].
  split; [done |]. intros arn Harn.
  destruct (Hsub _ Harn) as [?%elem_of_nil | Hin]; [done |].
  apply list_elem_of_fmap in Hin as (ps & -> & Hps).
  apply scan_sound in Hps as (b & t & rest & Hm).
  apply match_lit_matched in Hm as (b' & s' & ps' & Hm & ->).
  change (match_atoms [Chars lambdaArnChar 1 None] b' s')
    with (match rep lambdaArnChar (match_atoms []) 1 None b' s' with
          | Some (m, ps, rest) => Some (m :: ps, rest)
          | None => None
          end) in Hm.
  destruct (rep lambdaArnChar (match_atoms []) 1 None b' s') as [[[m qs] r'] |] eqn:Hrep;
    [| done].
  injection Hm as <- <-.
  assert (∀ bb ss pp rr, match_atoms [] bb ss = Some (pp, rr) → ss = matched pp +:+ rr)
    as Hnil by (by intros bb ss pp rr [= <- <-]).
  pose proof (rep_sound lambdaArnChar (match_atoms []) Hnil _ _ _ _ _ _ _ Hrep)
    as (_ & Hclass & Hlen).
  pose proof (rep_last _ _ _ _ _ _ _ _ Hrep) as ->.
  exists m. rewrite matched_cons. cbn [matched fold_right]. rewrite append_nil_r.
  split; [done |]. split; [by destruct m; cbn in Hlen; [lia |] |]. split; [done |].
  clear -Hclass. induction m as [| c m IH]; [done |].
  cbn [all_chars] in Hclass. apply andb_prop in Hclass as [Hc Hm].
  cbn [includes String.prefix]. rewrite (IH Hm), orb_false_r.
  unfold lambdaArnChar in Hc. destruct (Ascii.eqb_spec c "s") as [-> | Hne].
  - by rewrite orb_true_r in Hc.
  - destruct (ascii_dec "s" c) as [<- | _]; done.
Qed.

End ConnectFlowStackFacts.

(** ** File names for exported flows *)

Module ConnectFlowExporterFacts.
Import ConnectFlowExporter Matcher RenderFacts.

Lemma match_class_once cls bol s :
  match_atoms [Chars cls 1 (Some 1%nat)] bol s =
  match s with
  | String a s' => if cls a then Some ([String a ""], s') else None
  | EmptyString => None
  end.
Proof.
  destruct s as [| a s]; [done |]. cbn [match_atoms rep].
  destruct (cls a); [| done].
  cbn [andb can_take Nat.pred fmap option_fmap option_map].
  destruct s as [| a' s]; cbn [rep match_atoms]; [done |].
  by rewrite andb_false_r.
Qed.

Lemma remove_others s : ∀ bol,
  replace_from [Chars (λ c, negb (nameChar c)) 1 (Some 1%nat)] (λ _, Ok "") bol 0 s =
  Ok (keep_chars nameChar s).
Proof.
  induction s as [| c s IH]; intros bol.
  - cbn [replace_from]. by rewrite match_class_once.
  - rewrite replace_from_0, match_class_once. cbn [keep_chars].
    destruct (nameChar c); cbn [negb].
    + by rewrite IH.
    + cbn [mbind result_bind]. unfold mlen. cbn [matched fold_right String.append
        String.length Nat.pred Nat.eqb]. by rewrite IH.
Qed.

Lemma nameChar_whitespace c : nameChar c = true → whitespace c = false.
Proof. by destruct c as [[] [] [] [] [] [] [] []]. Qed.

Lemma all_chars_keep cls s : all_chars cls (keep_chars cls s) = true.
Proof.
  induction s as [| c s IH]; [done |]. cbn [keep_chars].
  destruct (cls c) eqn:Hc; [| done]. cbn [all_chars]. by rewrite Hc.
Qed.

Lemma keep_chars_all cls s : all_chars cls s = true → keep_chars cls s = s.
Proof.
  induction s as [| c s IH]; [done |]. cbn [all_chars keep_chars].
  intros [-> Hs]%andb_prop. by rewrite IH.
Qed.

Lemma no_whitespace s : ∀ bol,
  all_chars nameChar s = true → scan [Chars whitespace 1 None] bol 0 s = [].
Proof.
  induction s as [| c s IH]; intros bol; [done |]. cbn [all_chars].
  intros [Hc%nameChar_whitespace Hs]%andb_prop.
  cbn [scan match_atoms rep]. rewrite Hc. cbn [andb]. by apply IH.
Qed.

Lemma all_chars_substring_to cls n s :
  all_chars cls s = true → all_chars cls (substring_to n s) = true.
Proof.
  revert n. induction s as [| c s IH]; intros [| n]; try done. cbn [all_chars substring_to].
  intros [-> Hs]%andb_prop. by apply IH.
Qed.

Lemma length_substring_to n s : (String.length (substring_to n s) ≤ n)%nat.
Proof.
  revert s. induction n as [| n IH]; intros [| c s]; cbn; try lia.
  specialize (IH s). lia.
Qed.

Lemma substring_to_short n s : (String.length s ≤ n)%nat → substring_to n s = s.
Proof.
  revert s. induction n as [| n IH]; intros [| c s]; cbn; try done; try lia.
  intros H. rewrite IH; [done | lia].
Qed.

Lemma sanitizeFlowName_eq flowName :
  sanitizeFlowName flowName = Ok (substring_to 50 (keep_chars nameChar flowName)).
Proof.
  unfold sanitizeFlowName, replace. rewrite remove_others. cbn [mbind result_bind].
  rewrite RenderOutcome.replace_from_no_match; [done |].
  apply no_whitespace, all_chars_keep.
Qed.

(** X24.  [sanitizeFlowName] keeps the letters, digits, hyphens and
    underscores of a name, in their order, and cuts the result to fifty
    characters; nothing is ever replaced by an underscore, since no white
    space is left when the second replacement runs.  The result holds
    characters of this class only, and sanitizing it again changes nothing. *)
Theorem sanitized_names (flowName : string) :
  let name := substring_to 50 (keep_chars nameChar flowName) in
  sanitizeFlowName flowName = Ok name ∧
  all_chars nameChar name = true ∧
  (String.length name ≤ 50)%nat ∧
  sanitizeFlowName name = Ok name.
Proof.
  cbv zeta. split; [apply sanitizeFlowName_eq |].
  assert (all_chars nameChar (substring_to 50 (keep_chars nameChar flowName)) = true)
    as Hall by apply all_chars_substring_to, all_chars_keep.
  split; [done |]. split; [apply length_substring_to |].
  rewrite sanitizeFlowName_eq, (keep_chars_all _ _ Hall).
  by rewrite substring_to_short by apply length_substring_to.
Qed.

End ConnectFlowExporterFacts.

(** ** Environment variables in the configuration of the scheduler *)

Module AutoExportSchedulerFacts.
Import TemplateRenderer AutoExportScheduler Matcher RenderFacts.


End AutoExportSchedulerFacts.

(** ** The scripts on the file system *)

Module FileRuns.
Import FileOps.

Section runs.
Context (answer : nat → ∀ X, fs_call X → result X).

Lemma fs_run_bind {A B} (f : A → prog B) (m : prog A) n :
  run answer n (m ≫= f) =
  match run answer n m with
  | (t, Ok a) => let '(t', out) := run answer (n + length t) (f a) in (t ++ t', out)
  | (t, Throw e) => (t, Throw e)
  end.
Proof.
  revert n. induction m as [a|e|X c k IH]; intros n.
  - cbn. rewrite Nat.add_0_r. by destruct (run answer n (f a)).
  - done.
  - change (Call c k ≫= f) with (Call c (λ r, k r ≫= f)). cbn [run].
    rewrite IH. destruct (run answer (S n) (k (answer n X c))) as [t [a|e]]. 2: done.
    cbn [length]. rewrite Nat.add_succ_r.
    change (S n + length t)%nat with (S (n + length t)).
    by destruct (run answer (S (n + length t)) (f a)).
Qed.

Lemma fs_run_try_catch {A} (m : prog A) handler n :
  run answer n (try_catch m handler) =
  match run answer n m with
  | (t, Ok a) => (t, Ok a)
  | (t, Throw e) =>
      let '(t', out) := run answer (n + length t) (handler e) in (t ++ t', out)
  end.
Proof.
  revert n. induction m as [a|e|X c k IH]; intros n.
  - done.
  - cbn. rewrite Nat.add_0_r. by destruct (run answer n (handler e)).
  - cbn [try_catch run].
    rewrite IH. destruct (run answer (S n) (k (answer n X c))) as [t [a|e]]; [done|].
    cbn [length]. rewrite Nat.add_succ_r.
    change (S n + length t)%nat with (S (n + length t)).
    by destruct (run answer (S (n + length t)) (handler e)).
Qed.

Lemma fs_run_await {X} (c : fs_call X) n :
  run answer n (await c) = ([observe c (answer n X c)], answer n X c).
Proof. cbn. by destruct (answer n X c). Qed.

Lemma fs_run_lift {A} (r : result A) n : run answer n (lift r) = ([], r).
Proof. by destruct r. Qed.

Lemma fs_run_forEach_Forall {A} (P : event → Prop) (f : A → prog unit) l n :
  (∀ x n, Forall P (run answer n (f x)).1) →
  Forall P (run answer n (forEach f l)).1.
Proof.
  intros Hf. revert n. induction l as [|x l IH]; intros n; [by constructor|].
  cbn [forEach]. rewrite fs_run_bind. specialize (Hf x n).
  destruct (run answer n (f x)) as [t [[]|e]]; [|done].
  specialize (IH (n + length t)%nat).
  destruct (run answer (n + length t) (forEach f l)) as [t' out].
  apply Forall_app. by split.
Qed.

Lemma fs_all_rets_run {A} (P : A → Prop) (p : prog A) n t a :
  all_rets P p → run answer n p = (t, Ok a) → P a.
Proof.
  revert n t. induction p as [a'|e|X c k IH]; intros n t Hall; cbn.
  - by intros [= _ <-].
  - done.
  - destruct (run answer (S n) (k (answer n X c))) as [t' out] eqn:Hrun.
    intros [= _ ->]. eapply IH; [apply Hall|done].
Qed.

End runs.

Lemma fs_all_rets_intro {A} (P : A → Prop) (p : prog A) :
  (∀ a, P a) → all_rets P p.
Proof. intros HP. induction p; cbn; auto. Qed.

Lemma fs_all_rets_bind {A B} (P : B → Prop) (f : A → prog B) (m : prog A) :
  all_rets (λ a, all_rets P (f a)) m → all_rets P (m ≫= f).
Proof.
  induction m as [a|e|X c k IH]; [done..|].
  intros Hall r. apply IH, Hall.
Qed.

Lemma fs_all_rets_try_catch {A} (P : A → Prop) (m : prog A) handler :
  all_rets P m → (∀ e, all_rets P (handler e)) → all_rets P (try_catch m handler).
Proof.
  intros Hm Hh. induction m as [a|e|X c k IH]; cbn; [done|apply Hh|].
  intros r. apply IH, Hm.
Qed.

End FileRuns.

Module RenderFilesFacts.
Import FileOps FileRuns RenderFiles.

Section renderer.
Context (lib : pure) (envConfig : json).
Context (answer : nat → ∀ X, fs_call X → result X).

(** The runs of [renderFile], by the answers it gets. *)
Lemma run_renderFile templateFile outputFile n :
  run answer n (renderFile lib envConfig templateFile outputFile) =
  match answer n _ (fs_readFile templateFile) with
  | Throw e => ([ReadFile templateFile (Throw e)], Throw e)
  | Ok template =>
      match TemplateRenderer.render envConfig template with
      | Throw e => ([ReadFile templateFile (Ok template)], Throw e)
      | Ok rendered =>
          let made := answer (S n) _ (fs_ensureDir (dirname lib outputFile)) in
          match made, JSON_parse lib rendered with
          | Throw e, _ =>
              ([ReadFile templateFile (Ok template);
                EnsureDir (dirname lib outputFile) made], Throw e)
          | Ok _, Throw e =>
              ([ReadFile templateFile (Ok template);
                EnsureDir (dirname lib outputFile) made], Throw e)
          | Ok _, Ok v =>
              let wrote := answer (S (S n)) _ (fs_writeJson outputFile v) in
              ([ReadFile templateFile (Ok template);
                EnsureDir (dirname lib outputFile) made;
                WriteJson outputFile v wrote], wrote)
          end
      end
  end.
Proof.
  unfold renderFile. cbn.
  destruct (answer n _ (fs_readFile templateFile)) as [template|e]; [|done]. cbn.
  destruct (TemplateRenderer.render envConfig template) as [rendered|e]; [|done]. cbn.
  destruct (answer (S n) _ (fs_ensureDir (dirname lib outputFile))) as [[]|e]; [|done]. cbn.
  destruct (JSON_parse lib rendered) as [v|e]; [|done]. cbn.
  by destruct (answer (S (S n)) _ (fs_writeJson outputFile v)).
Qed.

Ltac members :=
  repeat match goal with
         | H : _ ∈ [] |- _ => by apply not_elem_of_nil in H
         | H : _ ∈ _ :: _ |- _ =>
             let E := fresh "E" in
             apply elem_of_cons in H as [E|H];
             [first [discriminate E | subst | idtac]|]
         end.

(** X26.  [renderFile] changes the file system only after the template has
    rendered.  In a run, whatever the file system answers, an event that
    creates a directory or writes a file is the creation of the directory of
    the output file or the writing of the output file with the parsed JSON
    of the rendered text, and the template that was read has rendered.  The
    run resolves exactly when the output file was written. *)
Theorem renderFile_writes templateFile outputFile n t out :
  run answer n (renderFile lib envConfig templateFile outputFile) = (t, out) →
  (∀ ev, ev ∈ t → writes ev = true →
     ∃ template rendered,
       ReadFile templateFile (Ok template) ∈ t ∧
       TemplateRenderer.render envConfig template = Ok rendered ∧
       ((∃ r, ev = EnsureDir (dirname lib outputFile) r) ∨
        (∃ v r, JSON_parse lib rendered = Ok v ∧ ev = WriteJson outputFile v r))) ∧
  (out = Ok () ↔ ∃ v, WriteJson outputFile v (Ok ()) ∈ t).
Proof.
  rewrite run_renderFile.
  destruct (answer n _ (fs_readFile templateFile)) as [template|e].
  2: { intros [= <- <-]. split. { intros ev Hin Hw. members; discriminate Hw. }
       split; [done|]. by intros [v Hin]; members. }
  destruct (TemplateRenderer.render envConfig template) as [rendered|e] eqn:Hrender.
  2: { intros [= <- <-]. split; [intros ev Hin Hw; members; discriminate Hw|].
       split; [done|]. by intros [v Hin]; members. }
  cbn zeta.
  destruct (answer (S n) _ (fs_ensureDir (dirname lib outputFile))) as [[]|e].
  2: { intros [= <- <-]. split.
       - intros ev Hin Hw; members; [discriminate Hw|]. exists template, rendered.
         split; [apply elem_of_cons; by left|]. split; [done|]. left. by eexists.
       - split; [done|]. by intros [v Hin]; members. }
  destruct (JSON_parse lib rendered) as [v|e] eqn:Hparse.
  2: { intros [= <- <-]. split.
       - intros ev Hin Hw; members; [discriminate Hw|]. exists template, rendered.
         split; [apply elem_of_cons; by left|]. split; [done|]. left. by eexists.
       - split; [done|]. by intros [v Hin]; members. }
  intros [= <- <-]. split.
  - intros ev Hin Hw; members; [discriminate Hw| |]; exists template, rendered;
      (split; [apply elem_of_cons; by left|]); (split; [done|]).
    + left. by eexists.
    + right. by eexists _, _.
  - split.
    + intros Hout. exists v. rewrite Hout. do 2 (apply elem_of_cons; right).
      apply elem_of_cons. by left.
    + intros [v' Hin]. members. by injection E as _ ->.
Qed.

Lemma renderFile_reads_no_json templateFile outputFile n :
  Forall (λ ev, ¬ reads_json ev)
         (run answer n (renderFile lib envConfig templateFile outputFile)).1.
Proof.
  rewrite run_renderFile.
  repeat (case_match; cbn [fst]); repeat constructor; by intros [].
Qed.

Lemma modules_read_no_json modulesDir outputDir flowName n :
  Forall (λ ev, ¬ reads_json ev)
         (run answer n
              (processModulesDirectory lib envConfig modulesDir outputDir flowName)).1.
Proof.
  unfold processModulesDirectory. rewrite fs_run_bind, fs_run_await.
  destruct (answer n _ (fs_readdir modulesDir)) as [moduleFiles|e];
    [|by repeat constructor; intros []].
  rewrite fs_run_bind, fs_run_await.
  destruct (answer _ _ (fs_ensureDir _)) as [[]|e];
    [|by repeat constructor; intros []].
  match goal with
  | |- context [run answer ?m (forEach ?f ?l)] =>
      pose proof (fs_run_forEach_Forall answer (λ ev, ¬ reads_json ev) f l m) as Hloop;
      destruct (run answer m (forEach f l)) as [t out]
  end.
  cbn. do 2 (constructor; [by intros []|]). apply Hloop.
  intros moduleFile m. case_match; [apply renderFile_reads_no_json|by constructor].
Qed.

(** X27.  When [processFlowDirectory] of the renderer reports [success], the
    run has, in this order, found the template, read it, created the
    directory of the output file, written the parsed JSON of the rendered
    template to [<outputDir>/<flowName>.json], read that file again and
    validated what it read with [validateRenderedFlow]; then it asked for the
    directory [modules], and sent nothing more when there is none.  The flow
    that is validated is the one read back, not the one written. *)
Theorem success_means flowDir outputDir flowName n t f o :
  let templateFile := join lib flowDir "flow.json.tmpl" in
  let outputFile := join lib outputDir (flowName +:+ ".json") in
  run answer n (processFlowDirectory lib envConfig flowDir outputDir flowName)
    = (t, Ok (Success f o)) →
  f = flowName ∧ o = outputFile ∧
  ∃ template rendered v x modules t',
    TemplateRenderer.render envConfig template = Ok rendered ∧
    JSON_parse lib rendered = Ok v ∧
    RenderedFlow.validateRenderedFlow x flowName = Ok () ∧
    t = [PathExists templateFile (Ok true);
         ReadFile templateFile (Ok template);
         EnsureDir (dirname lib outputFile) (Ok ());
         WriteJson outputFile v (Ok ());
         ReadJson outputFile (Ok x);
         PathExists (join lib flowDir "modules") (Ok modules)] ++ t' ∧
    (modules = false → t' = []).
Proof.
  intros templateFile outputFile. unfold processFlowDirectory.
  fold templateFile outputFile.
  rewrite fs_run_bind, fs_run_await.
  destruct (answer n _ (fs_pathExists templateFile)) as [[|]|e]; cbn [negb length]; [|done..].
  rewrite fs_run_try_catch, fs_run_bind, run_renderFile.
  destruct (answer (n + 1) _ (fs_readFile templateFile)) as [template|e];
    [|by cbn; intros [=]].
  destruct (TemplateRenderer.render envConfig template) as [rendered|e] eqn:Hrender;
    [|by cbn; intros [=]].
  cbn zeta.
  destruct (answer (S (n + 1)) _ (fs_ensureDir (dirname lib outputFile))) as [[]|e];
    [|by cbn; intros [=]].
  destruct (JSON_parse lib rendered) as [v|e] eqn:Hparse; [|by cbn; intros [=]].
  destruct (answer (S (S (n + 1))) _ (fs_writeJson outputFile v)) as [[]|e];
    [|by cbn; intros [=]].
  rewrite fs_run_bind, fs_run_await.
  destruct (answer _ _ (fs_readJson outputFile)) as [x|e]; [|by cbn; intros [=]].
  rewrite fs_run_bind, fs_run_lift.
  destruct (RenderedFlow.validateRenderedFlow x flowName) as [[]|e] eqn:Hvalid;
    [|by cbn; intros [=]].
  rewrite fs_run_bind, fs_run_await.
  destruct (answer _ _ (fs_pathExists (join lib flowDir "modules"))) as [modules|e];
    [|by cbn; intros [=]].
  rewrite fs_run_bind. destruct modules.
  - match goal with
    | |- context [run answer ?m ?p] => destruct (run answer m p) as [t2 [[]|e]]
    end; [|by cbn; intros [=]].
    cbn. intros [= <- <- <-]. do 2 (split; [done|]).
    by exists template, rendered, v, x, true, (t2 ++ []).
  - cbn. intros [= <- <- <-]. do 2 (split; [done|]).
    by exists template, rendered, v, x, false, [].
Qed.

(** X28.  When the flow read back from the output file fails
    [validateRenderedFlow], [processFlowDirectory] reports [error] with the
    message of the validation and the run ends with that read: the output
    file, written before it was validated, is neither removed nor written
    again. *)
Theorem invalid_flow_stays_written flowDir outputDir flowName n t out x e :
  let templateFile := join lib flowDir "flow.json.tmpl" in
  let outputFile := join lib outputDir (flowName +:+ ".json") in
  run answer n (processFlowDirectory lib envConfig flowDir outputDir flowName)
    = (t, out) →
  ReadJson outputFile (Ok x) ∈ t →
  RenderedFlow.validateRenderedFlow x flowName = Throw e →
  out = Ok (Errored flowName (exn_message e)) ∧
  ∃ template rendered v,
    TemplateRenderer.render envConfig template = Ok rendered ∧
    JSON_parse lib rendered = Ok v ∧
    t = [PathExists templateFile (Ok true);
         ReadFile templateFile (Ok template);
         EnsureDir (dirname lib outputFile) (Ok ());
         WriteJson outputFile v (Ok ());
         ReadJson outputFile (Ok x)].
Proof.
  intros templateFile outputFile Hrun Hin Hx. revert Hrun.
  unfold processFlowDirectory. fold templateFile outputFile.
  rewrite fs_run_bind, fs_run_await.
  destruct (answer n _ (fs_pathExists templateFile)) as [[|]|e']; cbn [negb length];
    [|by intros [= <- <-]; members..].
  rewrite fs_run_try_catch, fs_run_bind, run_renderFile.
  destruct (answer (n + 1) _ (fs_readFile templateFile)) as [template|e'];
    [|by cbn; intros [= <- <-]; members].
  destruct (TemplateRenderer.render envConfig template) as [rendered|e'] eqn:Hrender;
    [|by cbn; intros [= <- <-]; members].
  cbn zeta.
  destruct (answer (S (n + 1)) _ (fs_ensureDir (dirname lib outputFile))) as [[]|e'];
    [|by cbn; intros [= <- <-]; members].
  destruct (JSON_parse lib rendered) as [v|e'] eqn:Hparse;
    [|by cbn; intros [= <- <-]; members].
  destruct (answer (S (S (n + 1))) _ (fs_writeJson outputFile v)) as [[]|e'];
    [|by cbn; intros [= <- <-]; members].
  rewrite fs_run_bind, fs_run_await.
  destruct (answer _ _ (fs_readJson outputFile)) as [x'|e'];
    [|by cbn; intros [= <- <-]; members].
  rewrite fs_run_bind, fs_run_lift.
  destruct (RenderedFlow.validateRenderedFlow x' flowName) as [[]|e'] eqn:Hvalid.
  2: { cbn. intros [= <- <-]. members. injection E as ->.
       rewrite Hx in Hvalid. injection Hvalid as ->. split; [done|].
       by exists template, rendered, v. }
  rewrite fs_run_bind, fs_run_await.
  intros Hrun. exfalso.
  assert (x ≠ x') as Hne by (intros ->; congruence).
  destruct (answer _ _ (fs_pathExists (join lib flowDir "modules"))) as [modules|e'].
  2: { cbn in Hrun. injection Hrun as <- <-. members. by injection E. }
  rewrite fs_run_bind in Hrun.
  destruct modules.
  - match type of Hrun with
    | context [run answer ?m (processModulesDirectory ?l ?c ?a ?b ?d)] =>
        pose proof (modules_read_no_json a b d m) as Hno;
        destruct (run answer m (processModulesDirectory l c a b d)) as [t2 [[]|e']]
    end; cbn in Hrun; injection Hrun as <- <-; members; try by injection E.
    all: apply elem_of_app in Hin as [Hin|Hin]; [|by members].
    all: by eapply Forall_forall in Hno; [apply Hno|done].
  - cbn in Hrun. injection Hrun as <- <-. members. by injection E.
Qed.

Lemma processFlowDirectory_names flowDir outputDir flowName :
  all_rets (λ result, flowName_of result = flowName)
           (processFlowDirectory lib envConfig flowDir outputDir flowName).
Proof.
  unfold processFlowDirectory. intros [[|]|e]; cbn [lift negb]; [|done..].
  change (Ret true ≫= ?f) with (f true). cbn [negb].
  apply fs_all_rets_try_catch; [|done].
  repeat (apply fs_all_rets_bind, fs_all_rets_intro; intros ?). done.
Qed.

Lemma run_processEntries flowsDir outputDir entries results n t rs :
  run answer n (processEntries lib envConfig flowsDir outputDir entries results)
    = (t, Ok rs) →
  flowName_of <$> rs =
  (flowName_of <$> results) ++ (d_name <$> List.filter d_isDirectory entries).
Proof.
  revert results n t. induction entries as [|entry entries IH]; intros results n t.
  - cbn. intros [= _ <-]. by rewrite app_nil_r.
  - cbn [processEntries List.filter]. destruct (d_isDirectory entry); [|apply IH].
    rewrite fs_run_bind.
    destruct (run answer n (processFlowDirectory _ _ _ _ _)) as [t1 [result|e]] eqn:Hflow;
      [|done].
    eapply fs_all_rets_run in Hflow; [|apply processFlowDirectory_names].
    destruct (run answer _ (processEntries _ _ _ _ _ _)) as [t2 out] eqn:Hrest.
    intros [= _ ->]. apply IH in Hrest. rewrite Hrest, fmap_app. cbn.
    by rewrite Hflow, <-app_assoc.
Qed.

(** X29.  [processFlowsDirectory] of the renderer.  When the flows directory
    is reported missing it rejects with [Flows directory not found] and sends
    no other request, so that the output directory is not created.  When it
    resolves it has created the output directory and listed the flows
    directory, and it returns one result for each directory among the
    entries, in their order and under the name of the entry; the other
    entries are skipped. *)
Theorem flows_directory_results flowsDir outputDir n t out :
  run answer n (processFlowsDirectory lib envConfig flowsDir outputDir) = (t, out) →
  (answer n _ (fs_pathExists flowsDir) = Ok false →
   t = [PathExists flowsDir (Ok false)] ∧
   out = Throw (Error ("Flows directory not found: " +:+ flowsDir))) ∧
  (∀ results, out = Ok results →
     ∃ entries t',
       t = PathExists flowsDir (Ok true) :: EnsureDir outputDir (Ok ()) ::
           ReaddirEntries flowsDir (Ok entries) :: t' ∧
       flowName_of <$> results = d_name <$> List.filter d_isDirectory entries).
Proof.
  unfold processFlowsDirectory. rewrite fs_run_bind, fs_run_await.
  destruct (answer n _ (fs_pathExists flowsDir)) as [[|]|e]; cbn [negb length].
  2: { cbn. by intros [= <- <-]. }
  2: { by intros [= <- <-]. }
  rewrite fs_run_bind, fs_run_await.
  destruct (answer _ _ (fs_ensureDir outputDir)) as [[]|e]; [|by intros [= <- <-]].
  rewrite fs_run_bind, fs_run_await.
  destruct (answer _ _ (fs_readdir_withFileTypes flowsDir)) as [entries|e];
    [|by intros [= <- <-]].
  destruct (run answer _ (processEntries _ _ _ _ _ _)) as [t' out'] eqn:Hrest.
  cbn. intros [= <- <-]. split; [done|]. intros results ->.
  exists entries, t'. split; [done|]. by apply run_processEntries in Hrest.
Qed.

End renderer.

End RenderFilesFacts.

Module NormalizeFilesFacts.
Import FileOps FileRuns NormalizeFiles.

Section normalizer.
Context (lib : pure).
Context (answer : nat → ∀ X, fs_call X → result X).

Lemma writes_allowed_app before t1 t2 :
  writes_allowed lib before t1 → writes_allowed lib (before ++ t1) t2 →
  writes_allowed lib before (t1 ++ t2).
Proof.
  revert before. induction t1 as [|ev t1 IH]; intros before; cbn.
  - by rewrite app_nil_r.
  - intros [Hev Ht1] Ht2. split; [done|]. apply IH; [done|].
    by rewrite <-app_assoc.
Qed.

Lemma writes_allowed_at before t pre p v r post :
  writes_allowed lib before t → t = pre ++ WriteJson p v r :: post →
  allowed lib (before ++ pre) p v.
Proof.
  revert before t. induction pre as [|ev pre IH]; intros before t Ht ->.
  - rewrite app_nil_r. by destruct Ht.
  - destruct Ht as [_ Ht]. eapply IH in Ht; [|done]. by rewrite <-app_assoc in Ht.
Qed.

Lemma writes_allowed_no_dir before t p r :
  writes_allowed lib before t → EnsureDir p r ∉ t.
Proof.
  revert before. induction t as [|ev t IH]; intros before Ht Hin.
  - by apply not_elem_of_nil in Hin.
  - destruct Ht as [Hev Ht]. apply elem_of_cons in Hin as [<-|Hin]; [done|].
    by eapply IH.
Qed.

Lemma writes_allowed_forEach {A} (f : A → prog unit) l before n :
  (∀ x before n, writes_allowed lib before (run answer n (f x)).1) →
  writes_allowed lib before (run answer n (forEach f l)).1.
Proof.
  intros Hf. revert before n. induction l as [|x l IH]; intros before n; [done|].
  cbn [forEach]. rewrite fs_run_bind. specialize (Hf x before n).
  destruct (run answer n (f x)) as [t [[]|e]]; [|done].
  specialize (IH (before ++ t) (n + length t)%nat).
  destruct (run answer (n + length t) (forEach f l)) as [t' out].
  by apply writes_allowed_app.
Qed.

Lemma processModules_allowed modulesDir moduleFiles before n :
  writes_allowed lib before (run answer n (processModules lib modulesDir moduleFiles)).1.
Proof.
  apply writes_allowed_forEach. clear. intros moduleFile before n.
  case_match; [|done].
  rewrite fs_run_bind, fs_run_await.
  destruct (answer n _ (fs_readJson _)) as [moduleJson|e]; [|done].
  rewrite fs_run_bind, fs_run_lift.
  destruct (FlowNormalizer.normalize moduleJson) as [normalized|e] eqn:Hnormal; [|done].
  rewrite fs_run_await. cbn. split; [done|]. split; [|done].
  exists moduleJson. split; [done|]. left. apply elem_of_app. right.
  apply elem_of_cons. by left.
Qed.

Lemma modules_allowed modulesDir before n :
  writes_allowed lib before
    (run answer n
         (modules ← await (fs_pathExists modulesDir);
          if (modules : bool) then
            moduleFiles ← await (fs_readdir modulesDir);
            processModules lib modulesDir moduleFiles
          else Ret ())).1.
Proof.
  rewrite fs_run_bind, fs_run_await.
  destruct (answer n _ (fs_pathExists modulesDir)) as [[|]|e]; [|done..].
  rewrite fs_run_bind, fs_run_await.
  destruct (answer _ _ (fs_readdir modulesDir)) as [moduleFiles|e]; [|done].
  pose proof (processModules_allowed modulesDir moduleFiles
                ((before ++ [PathExists modulesDir (Ok true)]) ++
                 [Readdir modulesDir (Ok moduleFiles)])
                (n + length [PathExists modulesDir (Ok true)] +
                 length [Readdir modulesDir (Ok moduleFiles)])) as Hloop.
  destruct (run answer _ (processModules _ _ _)) as [t out]. by cbn.
Qed.

Ltac earlier := rewrite ?elem_of_app, ?elem_of_cons; tauto.

Lemma flow_allowed flowDir before n :
  let flowFile := join lib flowDir "flow.json" in
  let templateFile := join lib flowDir "flow.json.tmpl" in
  writes_allowed lib before
    (run answer n
         (flowJson ← await (fs_readJson flowFile);
          normalized ← lift (FlowNormalizer.normalize flowJson);
          _ ← await (fs_writeJson flowFile normalized);
          template ← await (fs_pathExists templateFile);
          if negb template then await (fs_writeJson templateFile normalized)
          else Ret ())).1.
Proof.
  intros flowFile templateFile. rewrite fs_run_bind, fs_run_await.
  destruct (answer n _ (fs_readJson flowFile)) as [flowJson|e]; [|done].
  rewrite fs_run_bind, fs_run_lift.
  destruct (FlowNormalizer.normalize flowJson) as [normalized|e] eqn:Hnormal; [|done].
  rewrite fs_run_bind, fs_run_await.
  assert (allowed lib (before ++ [ReadJson flowFile (Ok flowJson)]) flowFile normalized)
    as Hfirst by (exists flowJson; split; [done|left; earlier]).
  destruct (answer _ _ (fs_writeJson flowFile normalized)) as [[]|e]; [|by cbn].
  rewrite fs_run_bind, fs_run_await.
  destruct (answer _ _ (fs_pathExists templateFile)) as [[|]|e]; [by cbn..| |by cbn].
  cbn [negb]. rewrite fs_run_await. cbn. do 3 (split; [done|]). split; [|done].
  exists flowJson. split; [done|]. right. exists flowDir.
  split; [done|]. fold flowFile templateFile. split; earlier.
Qed.

Lemma processFlowDirectory_allowed flowDir before n :
  writes_allowed lib before (run answer n (processFlowDirectory lib flowDir)).1.
Proof.
  unfold processFlowDirectory. rewrite fs_run_bind, fs_run_await.
  destruct (answer n _ (fs_pathExists _)) as [found|e]; [|done].
  rewrite fs_run_bind.
  set (flowFile := join lib flowDir "flow.json").
  set (first := PathExists flowFile (Ok found)).
  match goal with
  | |- context [run answer ?m (if found then ?p else ?q)] =>
      assert (writes_allowed lib (before ++ [first])
                (run answer m (if found then p else q)).1) as Hflow
        by (destruct found; [apply flow_allowed|done]);
      destruct (run answer m (if found then p else q)) as [t1 [[]|e]]
  end; [|by cbn].
  match goal with
  | |- context [run answer ?m ?p] =>
      pose proof (modules_allowed (join lib flowDir "modules")
                    ((before ++ [first]) ++ t1) m) as Hmodules;
      destruct (run answer m p) as [t2 out]
  end.
  cbn. split; [done|]. by apply writes_allowed_app.
Qed.

(** X30.  The normalizer writes in place.  In every run of
    [processFlowsDirectory] of [FlowNormalizer], whatever the file system
    answers, a file is written with the normal form of what was read from
    the same path before; the one exception is the template
    [flow.json.tmpl] of a flow directory, which is written only after it was
    reported missing, with the normal form of the [flow.json] read in that
    directory.  No directory is created. *)
Theorem normalizer_writes flowsDir n t out :
  run answer n (processFlowsDirectory lib flowsDir) = (t, out) →
  (∀ before p v r after,
     t = before ++ WriteJson p v r :: after → allowed lib before p v) ∧
  (∀ p r, EnsureDir p r ∉ t).
Proof.
  intros Hrun.
  assert (writes_allowed lib [] t) as Ht.
  { replace t with (run answer n (processFlowsDirectory lib flowsDir)).1
      by by rewrite Hrun.
    clear. unfold processFlowsDirectory. rewrite fs_run_bind, fs_run_await.
    destruct (answer n _ (fs_pathExists flowsDir)) as [[|]|e]; [|done..].
    cbn [negb]. rewrite fs_run_bind, fs_run_await.
    destruct (answer _ _ (fs_readdir_withFileTypes flowsDir)) as [entries|e]; [|done].
    match goal with
    | |- context [run answer ?m (forEach ?f ?l)] =>
        pose proof (writes_allowed_forEach f l
                      ([PathExists flowsDir (Ok true)] ++
                       [ReaddirEntries flowsDir (Ok entries)]) m) as Hloop;
        destruct (run answer m (forEach f l)) as [t out]
    end.
    cbn. do 2 (split; [done|]). apply Hloop.
    intros entry before n'. case_match; [apply processFlowDirectory_allowed|done]. }
  split.
  - intros before p v r after ->. by eapply (writes_allowed_at []).
  - intros p r. by eapply writes_allowed_no_dir.
Qed.

End normalizer.

End NormalizeFilesFacts.

(** * The theorems at concrete inputs *)

Module Witnesses.
Import Fixtures.


(** C3 on a map in which the value of [A.B] carries token syntax. *)
Lemma render_single_pass_witness :
  replace TemplateRenderer.tokenPattern (TemplateRenderer.replacer env_nested_token)
    "${A.B} says ${Test.Value}" = Ok "${Test.Value} says hello-world" ∧
  TemplateRenderer.render env_nested_token "${A.B} says ${Test.Value}"
    = Throw (Error "Unresolved tokens found: ${Test.Value}").
Proof.
  split; [reflexivity |].
  destruct (RenderFacts.render_single_pass env_nested_token "${A.B} says ${Test.Value}"
              "${Test.Value} says hello-world" eq_refl) as (_ & Hthrow & _).
  rewrite Hthrow; [reflexivity | by vm_compute].
Defined.



(** C7 on a store that holds the flow of the integration test. *)
Lemma normalize_total_on_containers_witness :
  ∃ σ' res,
    NormalizeCall.normalize 0%nat {[ 0%nat := raw_flow ]} = (σ', res) ∧
    (∀ r v, ({[ 0%nat := raw_flow ]} : gmap nat json) !! r = Some v → σ' !! r = Some v) ∧
    FlowNormalizer.normalize raw_flow = Ok (NormalForm.outer raw_flow) ∧
    ∃ r, res = Ok r ∧ ({[ 0%nat := raw_flow ]} : gmap nat json) !! r = None ∧
         σ' !! r = Some (NormalForm.outer raw_flow).
Proof.
  apply (NormalizerTotality.normalize_total_on_containers {[ 0%nat := raw_flow ]} 0%nat
           raw_flow); reflexivity.
Defined.


(** C9 on a [Delete] event outside Blue/Green mode. *)
Lemma deployed_flow_never_deleted_witness :
  ConnectFlowHandler.RequestType delete_event = "Delete" ∧
  (∀ c, ConnectFlowHandler.sends (ConnectFlowHandler.handler delete_event) c →
        ∃ F, c = ConnectFlowHandler.describeContactFlow instance_id F) ∧
  (∀ r, ConnectFlowHandler.returns (ConnectFlowHandler.handler delete_event) r →
        r = ConnectFlowHandler.success (ConnectFlowHandler.PhysicalResourceId delete_event) []).
Proof.
  split; [reflexivity |].
  destruct (proj1 (proj2 HandlerFacts.deployed_flow_never_deleted) delete_event eq_refl)
    as (Hsends & Hreturns & _).
  split; [exact Hsends | exact Hreturns].
Defined.

(** C10 on a project without faults: a fresh instance passes, an instance
    with an earlier error does not. *)
Lemma errors_and_warnings_only_grow_witness :
  FlowValidator.errors failed_validator ≠ [] ∧
  (FlowValidator.validateAll (project_of env_with_new_queue) "flows" "env"
     FlowValidator.constructor).2 = Ok true ∧
  (FlowValidator.validateAll (project_of env_with_new_queue) "flows" "env"
     failed_validator).2 ≠ Ok true.
Proof.
  split; [discriminate |]. split; [reflexivity |].
  destruct ValidatorGrowth.errors_and_warnings_only_grow
    as (_ & _ & _ & _ & _ & _ & _ & _ & _ & _ & _ & _ & _ & _ & Hfails & _).
  apply Hfails. discriminate.
Defined.

End Witnesses.

(** * The further theorems at concrete inputs *)

Module MoreWitnesses.
Import Fixtures MoreFixtures.

(** Membership in a list that is given in full. *)
Ltac in_list :=
  rewrite list_elem_of_In; vm_compute; repeat (first [left; reflexivity | right]).

(** [render_without_placeholder] on a text without placeholder and a map that is [null]. *)
Lemma render_without_placeholder_witness :
  TemplateRenderer.token_paths "{ no tokens here }" = [] ∧
  TemplateRenderer.render JNull "{ no tokens here }" = Ok "{ no tokens here }".
Proof.
  apply (RenderOutcome.render_without_placeholder JNull "{ no tokens here }").
  left. reflexivity.
Defined.

(** X1 on a template whose one placeholder resolves. *)
Lemma render_result_witness :
  ∃ rendered,
    TemplateRenderer.render env_without_new_queue "queue=${Queue.Sales}" = Ok rendered ∧
    all_matches TemplateRenderer.tokenPattern rendered = [].
Proof.
  eexists. split; [vm_compute; reflexivity |].
  apply (RenderOutcome.render_result env_without_new_queue "queue=${Queue.Sales}").
  vm_compute. reflexivity.
Defined.

(** X2 on a number of the North American plan. *)
Lemma e164_grammar_witness :
  regex_test RenderedFlow.e164Pattern "+15551234567" = true ∧
  (3 ≤ String.length "+15551234567" ≤ 16)%nat.
Proof.
  split; [reflexivity |].
  apply (proj2 (Grammar.e164_grammar "+15551234567")). reflexivity.
Defined.

(** X3 on the ARN of a queue. *)
Lemma arn_grammar_witness :
  regex_test RenderedFlow.arnPattern
    "arn:aws:connect:us-east-1:123456789012:instance/abc/queue/sales" = true.
Proof.
  apply (proj2 (Grammar.arn_grammar
                  "arn:aws:connect:us-east-1:123456789012:instance/abc/queue/sales")).
  exists "connect", "us-east-1", "123456789012", "instance/abc/queue/sales".
  repeat split; done.
Defined.

(** X4 on a flow with a phone number and the ARN of a queue. *)
Lemma validated_flow_witness :
  RenderedFlow.validateRenderedFlow good_flow "TestFlow" = Ok () ∧
  is_e164 "+15551234567" = true.
Proof.
  split; [reflexivity |].
  destruct (RenderedFlowChecks.validated_flow good_flow "TestFlow" eq_refl)
    as (_ & _ & Hphones & _).
  apply (Hphones [NormalForm.Key "content"; NormalForm.Key "phone"]); reflexivity.
Defined.



(** X7 on the field [version] of the flow of the integration test. *)
Lemma normalize_removes_metadata_witness :
  NormalForm.lookup [NormalForm.Key "version"] raw_flow = Some (JStr "1.2.3") ∧
  NormalForm.lookup ([] ++ [NormalForm.Key "version"]) (NormalForm.outer raw_flow) = None.
Proof.
  split; [reflexivity |].
  apply (NormalizerShape.normalize_removes_metadata raw_flow (NormalForm.outer raw_flow)
           [] "version"); [reflexivity | reflexivity |].
  in_list.
Defined.

(** X8 on the actions of the flow of the integration test. *)
Lemma normalize_prunes_witness :
  ∃ u,
    NormalForm.lookup ([NormalForm.Key "content"] ++ [NormalForm.Key "actions"])
      (NormalForm.outer raw_flow) = Some u ∧
    u ≠ JNull ∧ (∀ k, NormalForm.Key "actions" = NormalForm.Key k → u ≠ JArr []).
Proof.
  eexists. split; [vm_compute; reflexivity |].
  eapply (NormalizerShape.normalize_prunes raw_flow (NormalForm.outer raw_flow) _
            [NormalForm.Key "content"] (NormalForm.Key "actions"));
    [reflexivity | reflexivity | discriminate | vm_compute; reflexivity].
Defined.



(** X12 on a project in which nothing exists. *)
Lemma missing_environment_files_witness :
  FlowValidator.errors
    (FlowValidator.validateEnvironmentConfigs empty_project "env"
       FlowValidator.constructor).1 =
  ["Environment file not found: dev.yaml"; "Environment file not found: test.yaml";
   "Environment file not found: prod.yaml"].
Proof.
  destruct (ValidatorChecks.missing_environment_files empty_project "flows" "env"
              FlowValidator.constructor (λ _ _, eq_refl)) as [Hrun _].
  rewrite Hrun. reflexivity.
Defined.

(** X13 on a project without flows directory. *)
Lemma validateAll_throws_witness :
  (FlowValidator.validateAll empty_project "flows" "env" FlowValidator.constructor).2 =
  Throw (Error "ENOENT: no such file or directory, scandir 'flows'").
Proof.
  apply (ValidatorChecks.validateAll_throws empty_project "flows" "env"
           FlowValidator.constructor). reflexivity.
Defined.

(** X14 on the same project. *)
Lemma missing_flows_directory_witness :
  ∃ st',
    FlowValidator.validateAll empty_project "flows" "env" FlowValidator.constructor =
      (st', Throw (Error "ENOENT: no such file or directory, scandir 'flows'")) ∧
    "Flows directory not found: flows" ∈ FlowValidator.errors st'.
Proof.
  apply (ValidatorChecks.missing_flows_directory empty_project "flows" "env"
           FlowValidator.constructor); reflexivity.
Defined.


(** X16 on a flow directory without template. *)
Lemma validateFlowDirectory_cases_witness :
  FlowValidator.validateFlowDirectory empty_project "flows/Sales" "Sales"
    FlowValidator.constructor =
  ({| FlowValidator.errors := ["Flow template not found: Sales/flow.json.tmpl"];
      FlowValidator.warnings := [] |}, Ok ()).
Proof.
  apply (proj1 (ValidatorChecks.validateFlowDirectory_cases empty_project "flows/Sales"
                  "Sales" FlowValidator.constructor)). reflexivity.
Defined.

(** X17 on a map whose [Queue.Sales] carries another instance id. *)
Lemma instance_mismatches_recorded_witness :
  length (FlowValidator.errors
            (FlowValidator.validateInstanceConsistency env_mismatching_queue
               "env/dev.yaml" FlowValidator.constructor).1) = 1%nat.
Proof.
  destruct (ValidatorChecks.instance_mismatches_recorded env_mismatching_queue
              "env/dev.yaml" (Some connect_block) (Some (JStr instance_id))
              (JObj [("Queue", JObj [("Sales", JStr mismatching_queue_arn);
                                     ("Support", queue_arn "support")])])
              FlowValidator.constructor eq_refl eq_refl eq_refl eq_refl)
    as (_ & Hlength & _).
  rewrite Hlength. vm_compute. reflexivity.
Defined.




(** X21 on an [Update] event in Blue/Green mode, in a run in which every
    request is answered by [null]. *)
Lemma update_reports_old_id_witness :
  ∃ r,
    ConnectFlowHandler.returns (ConnectFlowHandler.handler (sales_event "Update" true)) r ∧
    ConnectFlowHandler.ResponsePhysicalResourceId r = Some sales_flow_arn.
Proof.
  assert (ConnectFlowHandler.returns
            (ConnectFlowHandler.handler (sales_event "Update" true))
            (ConnectFlowHandler.success (Some sales_flow_arn)
               [("ContactFlowArn", sales_flow_arn); ("FlowName", "Sales")])) as Hrun.
  { do 5 (eapply (ConnectFlowHandler.returns_call _ _ (Ok (JObj [])))).
    exact (ConnectFlowHandler.returns_ret _). }
  eexists. split; [exact Hrun |].
  rewrite (HandlerRunsFacts.update_reports_old_id (sales_event "Update" true) _
             eq_refl Hrun eq_refl).
  reflexivity.
Defined.

(** X22 on a [Create] event with the release tag v1.0.0. *)
Lemma create_is_versioned_witness :
  ConnectFlowHandler.all_calls
    (HandlerRuns.creates_versioned (sales_properties false))
    (ConnectFlowHandler.handler (sales_event "Create" false)).
Proof.
  apply (HandlerRunsFacts.create_is_versioned (sales_event "Create" false));
    [reflexivity | discriminate].
Defined.

(** X23 on a flow that invokes a function in us-east-1. *)
Lemma extracted_lambda_arns_witness :
  ConnectFlowStack.extractLambdaArns lambda_flow = ["arn:aws:lambda:u"] ∧
  ∃ body, "arn:aws:lambda:u" = "arn:aws:lambda:" +:+ body ∧ body ≠ "" ∧
          all_chars ConnectFlowStack.lambdaArnChar body = true ∧
          includes "s" body = false.
Proof.
  split; [vm_compute; reflexivity |].
  apply (proj2 (ConnectFlowStackFacts.extracted_lambda_arns lambda_flow)).
  in_list.
Defined.


End MoreWitnesses.

(** * The theorems on the file system at concrete disks *)

Module FileWitnesses.
Import Fixtures FileOps FileFixtures.

(** X26 on a disk whose template of [Sales] renders: the run resolves and
    has written the parsed flow. *)
Lemma renderFile_writes_witness :
  ∃ v, WriteJson "dist/Sales.json" v (Ok ()) ∈
       [ReadFile "flows/Sales/flow.json.tmpl" (Ok sales_template);
        EnsureDir "dist" (Ok ());
        WriteJson "dist/Sales.json" (sales_flow (queue_arn "sales")) (Ok ())].
Proof.
  apply (proj2 (RenderFilesFacts.renderFile_writes posix env_without_new_queue
                  (disk sales_template (sales_flow (queue_arn "sales")))
                  "flows/Sales/flow.json.tmpl" "dist/Sales.json" 0 _ (Ok ())
                  ltac:(vm_compute; reflexivity))).
  reflexivity.
Defined.

(** X27 on the same disk. *)
Lemma success_means_witness :
  ∃ template rendered,
    TemplateRenderer.render env_without_new_queue template = Ok rendered ∧
    is_ok (JSON_parse posix rendered) = true.
Proof.
  destruct (RenderFilesFacts.success_means posix env_without_new_queue
              (disk sales_template (sales_flow (queue_arn "sales")))
              "flows/Sales" "dist" "Sales" 0
              [PathExists "flows/Sales/flow.json.tmpl" (Ok true);
               ReadFile "flows/Sales/flow.json.tmpl" (Ok sales_template);
               EnsureDir "dist" (Ok ());
               WriteJson "dist/Sales.json" (sales_flow (queue_arn "sales")) (Ok ());
               ReadJson "dist/Sales.json" (Ok (sales_flow (queue_arn "sales")));
               PathExists "flows/Sales/modules" (Ok false)]
              "Sales" "dist/Sales.json" ltac:(vm_compute; reflexivity))
    as (_ & _ & template & rendered & v & x & modules & t' & Hrender & Hparse & _).
  exists template, rendered. split; [exact Hrender |]. rewrite Hparse. reflexivity.
Defined.

(** X28 on a disk whose template renders to a flow without [type] and
    [content]. *)
Lemma invalid_flow_stays_written_witness :
  ∃ message,
    (run (disk short_template (short_flow (queue_arn "sales"))) 0
         (RenderFiles.processFlowDirectory posix env_without_new_queue
            "flows/Sales" "dist" "Sales")).2 =
    Ok (RenderFiles.Errored "Sales" message).
Proof.
  eexists.
  refine (proj1 (RenderFilesFacts.invalid_flow_stays_written posix env_without_new_queue
                   (disk short_template (short_flow (queue_arn "sales")))
                   "flows/Sales" "dist" "Sales" 0 _ _
                   (short_flow (queue_arn "sales")) _ (surjective_pairing _) _ _)).
  - rewrite list_elem_of_In. vm_compute. do 4 right. left. reflexivity.
  - vm_compute. reflexivity.
Defined.

(** X29 on the same disk as X26: of the two entries of [flows] the
    directory is reported. *)
Lemma flows_directory_results_witness :
  ∃ entries,
    RenderFiles.flowName_of <$> [RenderFiles.Success "Sales" "dist/Sales.json"] =
    d_name <$> List.filter d_isDirectory entries.
Proof.
  destruct (run (disk sales_template (sales_flow (queue_arn "sales"))) 0
                (RenderFiles.processFlowsDirectory posix env_without_new_queue
                   "flows" "dist")) as [t out] eqn:Hrun.
  assert (out = Ok [RenderFiles.Success "Sales" "dist/Sales.json"]) as Hout.
  { vm_compute in Hrun. injection Hrun as _ <-. reflexivity. }
  destruct (proj2 (RenderFilesFacts.flows_directory_results posix env_without_new_queue
                     (disk sales_template (sales_flow (queue_arn "sales")))
                     "flows" "dist" 0 t out Hrun) _ Hout)
    as (entries & t' & _ & Hnames).
  exists entries. exact Hnames.
Defined.

(** X30 on a disk on which [flows/Sales] has a flow and a template. *)
Lemma normalizer_writes_witness :
  ∃ t,
    run (disk sales_template raw_flow) 0
        (NormalizeFiles.processFlowsDirectory posix "flows") = (t, Ok ()) ∧
    (∀ before p v r after,
       t = before ++ WriteJson p v r :: after → NormalizeFiles.allowed posix before p v).
Proof.
  eexists. split; [vm_compute; reflexivity |].
  eapply proj1, (NormalizeFilesFacts.normalizer_writes posix
                   (disk sales_template raw_flow) "flows" 0).
  vm_compute. reflexivity.
Defined.

End FileWitnesses.
